(** * Exam-question image extractor: a shallow embedding and its properties

    The development follows three scripts of the skill
    [exam-question-processor]:
    - [image_text_extractor.py]: class [ImageTextExtractor] with
      [get_image_mime_type], [extract_text_from_image],
      [batch_extract_from_folder] and [_create_summary_report];
    - [extract_images.py]: [natural_sort_key], [extract_text_from_image]
      (the retry loop with back-off), [save_extracted_text] and
      [process_images_folder];
    - [join_questions.py]: [natural_sort_key], [extract_text_content], the
      number of a question and [create_separate_clean_files].

    Conventions of the embedding.
    - A Python [str] is a [string]; a character is its code point, and the
      model covers code points below 256.
    - Python integers are [Z].
    - The remote service and the file system of the input folder are an
      explicit [World]: what a read or a request answers is a function of the
      job, the model and the attempt.
    - The output folder is a finite map from file names to file contents;
      every read, request, pause and file write is recorded in a log.
    - A text file is written on POSIX, character by character, and read back
      with universal newlines.
    - A Python exception that leaves a function is the [Raised] outcome.
    - Python is at version 3.11 or later with [sys.int_max_str_digits] at
      its default: [int] refuses a string of more than 4300 digits.  The
      integers that [str] and the f-strings render (positions, round
      numbers, the token counts of a parsed body and their total) are taken
      to have no more, so that rendering them does not raise.
    - Of a JSON body the model keeps the values the clients read, each as the
      service's schema types it, or [null], or missing where the client reads
      it with [.get].
    - Paths are POSIX paths.  The files of the output folder can be opened
      and written: [open] in write mode and [write] of a string do not
      raise.  [extract_images.py] and [join_questions.py] make their output
      folder with its parents, and are taken to succeed in it; the batch of
      [image_text_extractor.py] makes its own without them, which [folder]
      keeps.  What the scripts print is left out.
    - Floats are left out: the temperature of a request, the rendering of
      the success rate (the report keeps the two integers it divides), and
      the configured delay between two images, of which [delay] keeps what
      [time.sleep] does with it.
    - [requests] is taken at a version where [response.json()] raises
      [requests.exceptions.JSONDecodeError], a [RequestException]. *)

From Stdlib Require Import ZArith List String Ascii Lia.
From Stdlib Require Import DecimalString DecimalPos.
From stdpp Require Import base gmap strings list.

Open Scope string_scope.
Open Scope list_scope.
Open Scope Z_scope.

(** ** Python strings *)

Module PyStr.

Definition code (c : ascii) : N := N_of_ascii c.

(** [\d] of the [re] module, on code points below 256: the ten ASCII
    digits. *)
Definition re_digit (c : ascii) : bool :=
  ((48 <=? code c) && (code c <=? 57))%N.

(** [str.isdigit] on one character: the ASCII digits and the three
    superscript digits of Latin-1 (U+00B2, U+00B3, U+00B9). *)
Definition isdigit_char (c : ascii) : bool :=
  re_digit c || (code c =? 178)%N || (code c =? 179)%N || (code c =? 185)%N.

Fixpoint all_chars (f : ascii -> bool) (s : string) : bool :=
  match s with
  | EmptyString => true
  | String c s' => f c && all_chars f s'
  end.

(** [s.isdigit()]: at least one character, all of them digits. *)
Definition isdigit (s : string) : bool :=
  match s with
  | EmptyString => false
  | _ => all_chars isdigit_char s
  end.

(** [str.lower] on one code point below 256: A-Z, and the Latin-1 capitals
    U+00C0..U+00DE except the multiplication sign U+00D7. *)
Definition lower_char (c : ascii) : ascii :=
  let n := code c in
  if ((65 <=? n) && (n <=? 90))%N then ascii_of_N (n + 32)
  else if ((192 <=? n) && (n <=? 222) && negb (n =? 215))%N
       then ascii_of_N (n + 32)
       else c.

Fixpoint lower (s : string) : string :=
  match s with
  | EmptyString => EmptyString
  | String c s' => String (lower_char c) (lower s')
  end.

(** [s.split(sep)] for a one-character separator. *)
Fixpoint split (sep : ascii) (s : string) : list string :=
  match s with
  | EmptyString => [EmptyString]
  | String c s' =>
      if Ascii.eqb c sep then EmptyString :: split sep s'
      else match split sep s' with
           | h :: t => String c h :: t
           | [] => [String c EmptyString]
           end
  end.

(** [s.rfind(c)]: the last index of [c], or [None] for Python's [-1]. *)
Fixpoint rfind (ch : ascii) (s : string) : option nat :=
  match s with
  | EmptyString => None
  | String c s' =>
      match rfind ch s' with
      | Some i => Some (S i)
      | None => if Ascii.eqb c ch then Some O else None
      end
  end.

(** [s[:i]] and [s[i:]] for [0 <= i]. *)
Fixpoint take (i : nat) (s : string) : string :=
  match i, s with
  | S i', String c s' => String c (take i' s')
  | _, _ => EmptyString
  end.

Fixpoint drop (i : nat) (s : string) : string :=
  match i, s with
  | S i', String _ s' => drop i' s'
  | _, _ => s
  end.

(** [s1 < s2] on strings: lexicographic on code points. *)
Definition ltb (s1 s2 : string) : bool :=
  match String.compare s1 s2 with Lt => true | _ => false end.

(** [int(s)] for a string of decimal digits; [None] is Python's
    [ValueError].  Of the characters [isdigit] accepts, [int] reads the
    ASCII digits only, and it refuses more than [int_max_str_digits] of
    them, leading zeros included. *)
Definition int_max_str_digits : Z := 4300.

Fixpoint int_digits (acc : Z) (s : string) : option Z :=
  match s with
  | EmptyString => Some acc
  | String c s' =>
      if re_digit c
      then int_digits (10 * acc + (Z.of_N (code c) - 48)) s'
      else None
  end.

Definition int (s : string) : option Z :=
  match s with
  | EmptyString => None
  | _ =>
      if int_max_str_digits <? Z.of_nat (String.length s) then None
      else int_digits 0 s
  end.

(** [re.split(r'(\d+)', s)]: the runs of [s], alternately a run without
    digits (possibly empty) and a maximal run of digits; it starts and
    ends with a run without digits. *)
Definition starts_with_digit (s : string) : bool :=
  match s with
  | String c _ => re_digit c
  | EmptyString => false
  end.

Fixpoint re_split_digits (s : string) : list string :=
  match s with
  | EmptyString => [EmptyString]
  | String c s' =>
      let r := re_split_digits s' in
      if re_digit c then
        if starts_with_digit s' then
          match r with
          | h :: d :: t => h :: String c d :: t
          | _ => r
          end
        else EmptyString :: String c EmptyString :: r
      else
        match r with
        | h :: t => String c h :: t
        | [] => [String c EmptyString]
        end
  end.

End PyStr.

(** ** Python exceptions and fallible results *)

Inductive pyexn :=
| ValueError
| TypeError
| AttributeError
| ZeroDivisionError
| OverflowError
| OSError.

Inductive pyres (A : Type) :=
| Ret (a : A)
| Exn (e : pyexn).
Arguments Ret {A} a.
Arguments Exn {A} e.

Definition pybind {A B} (m : pyres A) (k : A -> pyres B) : pyres B :=
  match m with
  | Ret a => k a
  | Exn e => Exn e
  end.

Notation "'let!' x ':=' m 'in' k" := (pybind m (fun x => k))
  (at level 10, x name, m at level 100, k at level 200).

Fixpoint pymap {A B} (f : A -> pyres B) (l : list A) : pyres (list B) :=
  match l with
  | [] => Ret []
  | x :: l' => let! y := f x in let! ys := pymap f l' in Ret (y :: ys)
  end.

(** ** pathlib on POSIX *)

Module PyPath.

(** The components of a path: [Path(p)] drops empty components and
    ["."]. *)
Definition components (p : string) : list string :=
  List.filter (fun x => negb (String.eqb x "") && negb (String.eqb x "."))
              (PyStr.split "/" p).

(** [Path(p).name]: the final component, [''] when there is none. *)
Definition name (p : string) : string := List.last (components p) "".

(** [PurePath.suffix] and [PurePath.stem]:
    [i = name.rfind('.')]; the suffix is [name[i:]] and the stem
    [name[:i]] when [0 < i < len(name) - 1]; otherwise the suffix is empty
    and the stem is the name. *)
Definition split_at_suffix (nm : string) : option nat :=
  match PyStr.rfind "." nm with
  | Some i =>
      if (0 <? Z.of_nat i) && (Z.of_nat i <? Z.of_nat (String.length nm) - 1)
      then Some i else None
  | None => None
  end.

Definition suffix (p : string) : string :=
  let nm := name p in
  match split_at_suffix nm with
  | Some i => PyStr.drop i nm
  | None => ""
  end.

Definition stem (p : string) : string :=
  let nm := name p in
  match split_at_suffix nm with
  | Some i => PyStr.take i nm
  | None => nm
  end.

(** [p < q] on paths of one flavour: the lists of components compare as
    Python lists of strings do. *)
Fixpoint parts_ltb (a b : list string) : bool :=
  match a, b with
  | [], [] => false
  | [], _ :: _ => true
  | _ :: _, [] => false
  | x :: a', y :: b' =>
      if String.eqb x y then parts_ltb a' b' else PyStr.ltb x y
  end.

Definition ltb (p q : string) : bool :=
  parts_ltb (PyStr.split "/" p) (PyStr.split "/" q).

End PyPath.

(** ** Sorting as Python's [sorted] does

    [sorted] is stable and uses [<] only.  A stable sort has one result, so
    an insertion from the right end of what is already sorted gives it. *)

Module PySort.

Section Insertion.
Context {A : Type} (lt : A -> A -> pyres bool).

(** Put [x] after every element that is not greater than it. *)
Fixpoint insert (x : A) (l : list A) : pyres (list A) :=
  match l with
  | [] => Ret [x]
  | y :: l' =>
      let! b := lt x y in
      if b then Ret (x :: y :: l')
      else let! r := insert x l' in Ret (y :: r)
  end.

Fixpoint sort_into (acc : list A) (l : list A) : pyres (list A) :=
  match l with
  | [] => Ret acc
  | x :: l' => let! acc' := insert x acc in sort_into acc' l'
  end.

Definition sort (l : list A) : pyres (list A) := sort_into [] l.
End Insertion.

(** [sorted(l)] for a [<] that cannot raise: the insertion sort with a
    comparison that always returns. *)
Fixpoint insert_total {A} (ltb : A -> A -> bool) (x : A) (l : list A)
    : list A :=
  match l with
  | [] => [x]
  | y :: l' => if ltb x y then x :: y :: l' else y :: insert_total ltb x l'
  end.

Definition sorted {A} (ltb : A -> A -> bool) (l : list A) : list A :=
  List.fold_left (fun acc x => insert_total ltb x acc) l [].

(** [sorted(l, key=key)]: the keys are computed first, one per element;
    then the elements are sorted on their keys. *)
Definition sorted_by_key {A K} (key : A -> pyres K)
    (lt : K -> K -> pyres bool) (l : list A) : pyres (list A) :=
  let! ks := pymap (fun x => let! k := key x in Ret (k, x)) l in
  let! r := sort (fun a b => lt (fst a) (fst b)) ks in
  Ret (List.map snd r).

End PySort.

(** ** [natural_sort_key] (extract_images.py, join_questions.py) *)

Module NaturalSort.

(** An element of a key: an [int] or a [str]. *)
Inductive key_part :=
| KInt (n : Z)
| KStr (s : string).

Definition key_part_eqb (a b : key_part) : bool :=
  match a, b with
  | KInt m, KInt n => m =? n
  | KStr s, KStr t => String.eqb s t
  | _, _ => false
  end.

(** [a < b] on two elements; an [int] and a [str] do not compare. *)
Definition key_part_lt (a b : key_part) : pyres bool :=
  match a, b with
  | KInt m, KInt n => Ret (m <? n)
  | KStr s, KStr t => Ret (PyStr.ltb s t)
  | _, _ => Exn TypeError
  end.

(** [a < b] on two lists: the first position where they differ decides;
    a proper prefix is smaller. *)
Fixpoint key_lt (a b : list key_part) : pyres bool :=
  match a, b with
  | [], [] => Ret false
  | [], _ :: _ => Ret true
  | _ :: _, [] => Ret false
  | x :: a', y :: b' =>
      if key_part_eqb x y then key_lt a' b' else key_part_lt x y
  end.

(** [[int(part) if part.isdigit() else part for part in parts]] *)
Definition convert_part (part : string) : pyres key_part :=
  if PyStr.isdigit part then
    match PyStr.int part with
    | Some n => Ret (KInt n)
    | None => Exn ValueError
    end
  else Ret (KStr part).

Definition natural_sort_key (filename : string) : pyres (list key_part) :=
  pymap convert_part (PyStr.re_split_digits filename).

(** [sorted(files, key=natural_sort_key)] *)
Definition natural_sorted (files : list string) : pyres (list string) :=
  PySort.sorted_by_key natural_sort_key key_lt files.

End NaturalSort.

(** ** [get_image_mime_type] *)

Module Mime.

(** The dictionary [mime_types] of [ImageTextExtractor.get_image_mime_type]. *)
Definition mime_types : gmap string string :=
  <[".jpg" := "image/jpeg"]>
  (<[".jpeg" := "image/jpeg"]>
  (<[".png" := "image/png"]>
  (<[".gif" := "image/gif"]>
  (<[".webp" := "image/webp"]>
  (<[".bmp" := "image/bmp"]> ∅))))).

Definition get_image_mime_type (image_path : string) : string :=
  let ext := PyStr.lower (PyPath.suffix image_path) in
  default "image/jpeg" (mime_types !! ext).

(** The dictionary written inline in [extract_images.extract_text_from_image];
    it has no entry for [.bmp]. *)
Definition mime_types_inline : gmap string string :=
  <[".jpg" := "image/jpeg"]>
  (<[".jpeg" := "image/jpeg"]>
  (<[".png" := "image/png"]>
  (<[".gif" := "image/gif"]>
  (<[".webp" := "image/webp"]> ∅)))).

Definition inline_mime_type (image_path : string) : string :=
  let extension := PyStr.lower (PyPath.suffix image_path) in
  default "image/jpeg" (mime_types_inline !! extension).

End Mime.

(** ** The world outside: image files and the completion service *)

(** A JSON value where the schema has an integer: the key may be missing,
    and its value may be [null]. *)
Inductive json_int :=
| JMissing
| JNull
| JInt (n : Z).

(** [usage] of a response: a JSON object. *)
Record usage := { total_tokens : json_int }.

(** What the two clients read from the JSON body of a response:
    [choices[0].message.content], a string or [null] ([None]), and [model]
    and [usage]; the last two are read with [.get], and [None] is a key
    that is missing or [null]. *)
Record completion := {
  content : option string;
  reported_model : option string;
  reported_usage : option usage
}.

(** The body of a response as the clients see it. *)
Inductive parsed :=
| NotJson                       (* [response.json()] raises JSONDecodeError *)
| NoChoices (empty_list : bool) (* no key ['choices'], or an empty list *)
| BadChoice (etype : string)    (* indexing [choices[0]] raises [etype] *)
| Completion (c : completion).

(** What [requests.post] does: it returns a response, or it raises. *)
Inductive reply :=
| Response (status : Z) (body : parsed)
| TimeoutExc (etype msg : string)   (* requests.exceptions.Timeout *)
| RequestExc (etype msg : string)   (* any other RequestException *)
| OtherExc (etype msg : string).    (* any other exception *)

(** The JSON payload of a request.  The temperature, a float, is left out. *)
Record request := {
  req_model : string;
  req_prompt : string;
  req_mime : string;
  req_image : string;
  req_max_tokens : option Z
}.

(** [read_image p]: the base64 text of the file, or the exception
    [(type name, message)] that opening or reading it raises.
    [post p attempt req]: the answer to the request sent for image [p] at
    the given value of the loop variable [attempt]. *)
Record World := {
  read_image : string -> (string * string) + string;
  post : string -> Z -> request -> reply
}.

(** What a run does to the outside, in order. *)
Inductive event :=
| EvRead (image_path : string)
| EvPost (image_path : string) (req : request)
| EvSleep (seconds : Z)
| EvDelay                          (* [time.sleep(delay_seconds)] *)
| EvWrite (file : string).

(** [str(e)] of the exceptions the clients report. *)
Inductive error_text :=
| FailedToRead (msg : string)
| HttpErrorText (status : Z)
| JsonErrorText
| IndexingErrorText
| ExcText (msg : string).

(** The classification the specification uses for an attempt. *)
Module Classify.
Definition rate_limited (r : reply) : bool :=
  match r with Response status _ => status =? 429 | _ => false end.
Definition bad_request (r : reply) : bool :=
  match r with Response status _ => status =? 400 | _ => false end.
Definition server_error (r : reply) : bool :=
  match r with
  | Response status _ => (500 <=? status) && (status <? 600)
  | _ => false
  end.
Definition transient_network (r : reply) : bool :=
  match r with
  | TimeoutExc _ _ | RequestExc _ _ => true
  | _ => false
  end.
End Classify.

(** [response.raise_for_status()] raises HTTPError for 4xx and 5xx. *)
Definition raises_for_status (status : Z) : bool :=
  (400 <=? status) && (status <? 600).

Definition len {A} (l : list A) : Z := Z.of_nat (List.length l).

(** ** image_text_extractor.py: [ImageTextExtractor] *)

Module Extractor.

(** The result dictionaries of [extract_text_from_image];
    [extracted_text] is the content of the completion, [None] for
    [null]. *)
Inductive result :=
| Success (image_path : string) (extracted_text : option string)
          (model : option string) (usage_ : option usage) (attempts : Z)
| Failure (image_path : string) (error : option error_text)
          (error_type : option string).

Definition success (r : result) : bool :=
  match r with Success _ _ _ _ _ => true | Failure _ _ _ => false end.

Definition image_path_of (r : result) : string :=
  match r with Success p _ _ _ _ => p | Failure p _ _ => p end.

Record ImageTextExtractor := {
  api_key : string;
  vision_models : list string
}.

(** What one pass through the body of the loop over the models ends
    with. *)
Inductive step :=
| Return (r : result)
| Continue (pause : Z) (last_error : option error_text)
           (last_error_type : option string)
| Break (last_error : option error_text) (last_error_type : option string).

Section ExtractTextFromImage.
Variable self : ImageTextExtractor.
Variable w : World.
Variable image_path : string.
Variable prompt : string.
Variable max_tokens : Z.
Variable retry_with_other_models : bool.
Variable max_retries : Z.

Definition payload (base64_image mime_type current_model : string) : request :=
  {| req_model := current_model;
     req_prompt := prompt;
     req_mime := mime_type;
     req_image := base64_image;
     req_max_tokens := Some max_tokens |}.

(** The [try] statement inside the loop, for one [attempt] and its
    [current_model]; [n] is [len(models_to_try)]. *)
Definition one_attempt (n : Z) (attempt : Z) (rep : reply) : step :=
  match rep with
  | Response status body =>
      if raises_for_status status then
        let e := Some (HttpErrorText status) in
        let t := Some "HTTPError" in
        if status =? 429 then
          if retry_with_other_models && (attempt <? n)
          then Continue 2 e t else Break e t
        else if status =? 400 then
          if retry_with_other_models && (attempt <? n)
          then Continue 1 e t else Break e t
        else Break e t
      else
        match body with
        | Completion c =>
            Return (Success image_path (content c) (reported_model c)
                            (reported_usage c) attempt)
        | NotJson =>
            if attempt <? max_retries
            then Continue (2 ^ attempt) (Some JsonErrorText) (Some "JSONDecodeError")
            else Break (Some JsonErrorText) (Some "JSONDecodeError")
        | NoChoices empty_list =>
            Break (Some IndexingErrorText)
                  (Some (if empty_list then "IndexError" else "KeyError"))
        | BadChoice etype => Break (Some IndexingErrorText) (Some etype)
        end
  | TimeoutExc etype msg | RequestExc etype msg =>
      if attempt <? max_retries
      then Continue (2 ^ attempt) (Some (ExcText msg)) (Some etype)
      else Break (Some (ExcText msg)) (Some etype)
  | OtherExc etype msg => Break (Some (ExcText msg)) (Some etype)
  end.

(** [for attempt, current_model in enumerate(models_to_try, 1)], from
    the position [attempt] on, and the [return] after the loop. *)
Fixpoint try_models (base64_image mime_type : string) (n : Z)
    (rest : list string) (attempt : Z)
    (last_error : option error_text) (last_error_type : option string)
    : list event * result :=
  match rest with
  | [] => ([], Failure image_path last_error last_error_type)
  | current_model :: rest' =>
      let req := payload base64_image mime_type current_model in
      match one_attempt n attempt (post w image_path attempt req) with
      | Return r => ([EvPost image_path req], r)
      | Continue pause e t =>
          let '(evs, r) :=
            try_models base64_image mime_type n rest' (attempt + 1) e t in
          (EvPost image_path req :: EvSleep pause :: evs, r)
      | Break e t => ([EvPost image_path req], Failure image_path e t)
      end
  end.

(** [models_to_try = [model] if model else self.vision_models.copy()]:
    [None] and the empty string are false. *)
Definition models_to_try (model : option string) : list string :=
  match model with
  | Some m => if String.eqb m "" then vision_models self else [m]
  | None => vision_models self
  end.

Definition extract_text_from_image (model : option string)
    : list event * result :=
  match read_image w image_path with
  | inl (etype, msg) =>
      ([EvRead image_path],
       Failure image_path (Some (FailedToRead msg)) (Some etype))
  | inr base64_image =>
      let mime_type := Mime.get_image_mime_type image_path in
      let ms := models_to_try model in
      let '(evs, r) :=
        try_models base64_image mime_type (len ms) ms 1 None None in
      (EvRead image_path :: evs, r)
  end.
End ExtractTextFromImage.

End Extractor.

(** ** extract_images.py: [extract_text_from_image] *)

Module ExtractImages.

(** The error message of the returned pair. *)
Inductive message :=
| FailedToEncode (msg : string)
| RateLimitExceeded
| ServerErrorAfterRetries (status : Z)
| NoContent
| RequestTimeout
| NetworkError (e : error_text)
| UnexpectedError (e : error_text)
| FailedAfterAllRetries.

Inductive step :=
| Return (r : option string * option message)
| Continue (wait_time : Z).

Definition the_prompt : string :=
  "Extract all text from this exam question image. Include question numbers, question text, and all answer options (A, B, C, D, etc.). Preserve the exact formatting and structure.".

Section ExtractTextFromImage.
Variable w : World.
Variable image_path : string.
Variable model : string.
Variable max_retries : Z.

Definition payload (base64_image mime_type : string) : request :=
  {| req_model := model;
     req_prompt := the_prompt;
     req_mime := mime_type;
     req_image := base64_image;
     req_max_tokens := None |}.

(** The handlers for Timeout and for RequestException. *)
Definition backoff (attempt : Z) (m : message) : step :=
  let wait_time := 2 ^ attempt in
  if attempt <? max_retries - 1 then Continue wait_time
  else Return (None, Some m).

(** The [try] statement inside [for attempt in range(max_retries)]. *)
Definition one_attempt (attempt : Z) (rep : reply) : step :=
  match rep with
  | Response status body =>
      if status =? 429 then
        let wait_time := 60 in
        if attempt <? max_retries - 1 then Continue wait_time
        else Return (None, Some RateLimitExceeded)
      else if status >=? 500 then
        let wait_time := 2 ^ attempt in
        if attempt <? max_retries - 1 then Continue wait_time
        else Return (None, Some (ServerErrorAfterRetries status))
      else if raises_for_status status then
        backoff attempt (NetworkError (HttpErrorText status))
      else
        match body with
        | NotJson => backoff attempt (NetworkError JsonErrorText)
        | NoChoices _ => Return (None, Some NoContent)
        | BadChoice _ => Return (None, Some (UnexpectedError IndexingErrorText))
        | Completion c => Return (content c, None)
        end
  | TimeoutExc _ _ => backoff attempt RequestTimeout
  | RequestExc _ msg => backoff attempt (NetworkError (ExcText msg))
  | OtherExc _ msg => Return (None, Some (UnexpectedError (ExcText msg)))
  end.

(** [range(max_retries)] *)
Definition range (n : Z) : list Z :=
  List.map Z.of_nat (List.seq 0 (Z.to_nat n)).

Fixpoint retry_loop (req : request) (attempts : list Z)
    : list event * (option string * option message) :=
  match attempts with
  | [] => ([], (None, Some FailedAfterAllRetries))
  | attempt :: rest =>
      match one_attempt attempt (post w image_path attempt req) with
      | Return r => ([EvPost image_path req], r)
      | Continue wait_time =>
          let '(evs, r) := retry_loop req rest in
          (EvPost image_path req :: EvSleep wait_time :: evs, r)
      end
  end.

Definition extract_text_from_image
    : list event * (option string * option message) :=
  match read_image w image_path with
  | inl (_, msg) => ([EvRead image_path], (None, Some (FailedToEncode msg)))
  | inr base64_image =>
      let mime_type := Mime.inline_mime_type image_path in
      let '(evs, r) :=
        retry_loop (payload base64_image mime_type) (range max_retries) in
      (EvRead image_path :: evs, r)
  end.
End ExtractTextFromImage.

(** Discovery in [process_images_folder]:
    [sorted(image_files, key=natural_sort_key)]. *)
Definition discover (image_files : list string) : pyres (list string) :=
  NaturalSort.natural_sorted image_files.

End ExtractImages.

(** ** image_text_extractor.py: the batch and its report *)

Module Batch.
Import Extractor.

(** The lines the batch writes to its files, one constructor per
    [f.write] with the values it formats. *)
Inductive line :=
| LImage (name : string)
| LModel (m : option string)
| LRetryRound (n : Z)
| LRule
| LText (s : string)
| LTokensUsed (t : json_int)
| LError (e : option error_text)
| LErrorType (t : option string)
| LRetryRounds (n : Z)
| LTitle
| LTotal (n : Z)
| LSuccessful (n : Z)
| LFailed (n : Z)
| LSuccessRate (success_count total : Z)
| LFailedHeader
| LFailedItem (name : string) (e : option error_text)
| LTotalTokens (n : Z).

(** The output folder and the log of what has been done so far. *)
Record store := {
  fs : gmap string (list line);
  log : list event
}.

Inductive run (A : Type) :=
| Done (s : store) (a : A)
| Raised (s : store) (e : pyexn).
Arguments Done {A} s a.
Arguments Raised {A} s e.

Definition M (A : Type) : Type := store -> run A.

Definition ret {A} (a : A) : M A := fun s => Done s a.

Definition bind {A B} (m : M A) (k : A -> M B) : M B :=
  fun s => match m s with
           | Done s' a => k a s'
           | Raised s' e => Raised s' e
           end.

Notation "'run!' x ':=' m 'in' k" := (bind m (fun x => k))
  (at level 10, x pattern, m at level 100, k at level 200).

Definition final_store {A} (r : run A) : store :=
  match r with Done s _ => s | Raised s _ => s end.

Definition emit (evs : list event) : M unit :=
  fun s => Done {| fs := fs s; log := log s ++ evs |} tt.

(** [with open(file, 'w') as f: ...] that writes [lines] and closes. *)
Definition written (file : string) (lines : list line) (s : store) : store :=
  {| fs := <[file := lines]> (fs s); log := log s ++ [EvWrite file] |}.

Definition write_file (file : string) (lines : list line) : M unit :=
  fun s => Done (written file lines s) tt.

(** The same when an exception leaves the [with] block after [lines]:
    the file is closed with what was written. *)
Definition write_then_raise {A} (file : string) (lines : list line)
    (e : pyexn) : M A :=
  fun s => Raised (written file lines s) e.

Definition output_file_name (image_file : string) : string :=
  PyPath.stem image_file +:+ "_extracted.txt".

Definition error_file_name (image_file : string) : string :=
  PyPath.stem image_file +:+ "_error.txt".

Definition summary_file_name : string := "summary_report.txt".

(** [output_file.exists()] *)
Definition file_exists (s : store) (file : string) : bool :=
  match fs s !! file with Some _ => true | None => false end.

(** *** [_create_summary_report] *)

(** [sum(r.get("usage", {}).get("total_tokens", 0) for r in results if
    r["success"])], from the left: the key ["usage"] is always there, so a
    success whose usage is [None] raises AttributeError; [total_tokens]
    counts as [0] when the key is missing, and a [null] one is [None],
    which [sum] cannot add: TypeError. *)
Fixpoint token_sum (results : list result) : pyres Z :=
  match results with
  | [] => Ret 0
  | Success _ _ _ (Some u) _ :: rest =>
      match total_tokens u with
      | JInt n => let! t := token_sum rest in Ret (n + t)
      | JMissing => let! t := token_sum rest in Ret (0 + t)
      | JNull => Exn TypeError
      end
  | Success _ _ _ None _ :: rest => Exn AttributeError
  | Failure _ _ _ :: rest => token_sum rest
  end.

Definition success_count (results : list result) : Z :=
  len (List.filter success results).

Definition failed_item (r : result) : list line :=
  match r with
  | Failure p e _ => [LFailedItem (PyPath.name p) e]
  | Success _ _ _ _ _ => []
  end.

Definition _create_summary_report (results : list result) : M unit :=
  let success_count := success_count results in
  let fail_count := len results - success_count in
  let counts :=
    [LTitle; LRule; LTotal (len results); LSuccessful success_count;
     LFailed fail_count] in
  if len results =? 0
  then write_then_raise summary_file_name counts ZeroDivisionError
  else
    let listing :=
      if 0 <? fail_count
      then LFailedHeader :: List.flat_map failed_item results
      else [] in
    let body :=
      counts ++ [LSuccessRate success_count (len results); LRule] ++ listing in
    match token_sum results with
    | Exn e => write_then_raise summary_file_name body e
    | Ret total_tokens =>
        write_file summary_file_name (body ++ [LTotalTokens total_tokens])
    end.

(** *** [batch_extract_from_folder] *)

(** What [time.sleep(delay_seconds)] does with the configured delay: it
    pauses, or it raises, ValueError for a negative delay and for a NaN,
    OverflowError for a delay too large. *)
Inductive delay :=
| Pauses
| Refused (e : pyexn).

Definition sleep_delay (delay_seconds : delay) : M unit :=
  match delay_seconds with
  | Pauses => emit [EvDelay]
  | Refused e => fun s => Raised s e
  end.

(** What [output_path.mkdir(exist_ok=True)] does for the configured
    [output_folder]: the folder is there afterwards, or the call raises an
    OSError: FileNotFoundError when the parent of the path is missing, for
    the call does not make the parents, FileExistsError when the path is a
    file, PermissionError. *)
Inductive folder :=
| Made
| NotMade (e : pyexn).

Section BatchExtractFromFolder.
Variable output_folder : folder.
Variable delay_seconds : delay.
Variable self : ImageTextExtractor.
(** The world in each retry round. *)
Variable worlds : Z -> World.
Variable prompt : string.
Variable model : option string.
Variable max_retry_rounds : Z.

(** The call of [extract_text_from_image] in round [retry_round]. *)
Definition extract (retry_round : Z) (image_file : string)
    : list event * result :=
  extract_text_from_image self (worlds retry_round) image_file prompt
                          4000 true 3 model.

(** Writing the text file of a success: [f.write] raises TypeError for a
    text that is [None], after the four lines before it; [.get] on a usage
    that is [None] raises AttributeError, after the text. *)
Definition save_success (retry_round : Z) (image_file : string)
    (extracted_text : option string) (m : option string) (u : option usage)
    : M unit :=
  let header :=
    [LImage (PyPath.name image_file); LModel m;
     LRetryRound (retry_round + 1); LRule] in
  match extracted_text with
  | None => write_then_raise (output_file_name image_file) header TypeError
  | Some text =>
      let written_first := header ++ [LText text; LRule] in
      match u with
      | Some u =>
          write_file (output_file_name image_file)
                     (written_first ++ [LTokensUsed (total_tokens u)])
      | None =>
          write_then_raise (output_file_name image_file) written_first
                           AttributeError
      end
  end.

Definition save_error (retry_round : Z) (image_file : string)
    (e : option error_text) (t : option string) : M unit :=
  write_file (error_file_name image_file)
             [LImage (PyPath.name image_file); LError e; LErrorType t;
              LRetryRounds (retry_round + 1)].

(** The body of [for i, image_file in enumerate(current_batch, 1)];
    [n] is [len(current_batch)]; the state is
    [(retry_queue, all_results)]. *)
Definition process_one (retry_round n i : Z) (image_file : string)
    (st : list string * list result) : M (list string * list result) :=
  let '(retry_queue, all_results) := st in
  let '(evs, result) := extract retry_round image_file in
  run! _ := emit evs in
  run! st' :=
    match result with
    | Success _ extracted_text m u _ =>
        run! _ := save_success retry_round image_file extracted_text m u in
        ret (retry_queue, all_results ++ [result])
    | Failure _ e t =>
        if retry_round <? max_retry_rounds - 1
        then ret (retry_queue ++ [image_file], all_results)
        else
          run! _ := save_error retry_round image_file e t in
          ret (retry_queue, all_results ++ [result])
    end in
  run! _ := (if i <? n then sleep_delay delay_seconds else ret tt) in
  ret st'.

Fixpoint for_batch (retry_round n i : Z) (rest : list string)
    (st : list string * list result) : M (list string * list result) :=
  match rest with
  | [] => ret st
  | image_file :: rest' =>
      run! st' := process_one retry_round n i image_file st in
      for_batch retry_round n (i + 1) rest' st'
  end.

(** [while retry_queue and retry_round < max_retry_rounds].  The
    recursion is on [rounds_left], which starts at [max_retry_rounds]
    and goes down by one as [retry_round] goes up by one; the test of
    the loop is the one of the source.  The value is
    [(all_results, retry_queue, retry_round)] when the loop ends. *)
Fixpoint retry_rounds (rounds_left : nat) (retry_round : Z)
    (retry_queue : list string) (all_results : list result)
    : M (list result * list string * Z) :=
  match rounds_left with
  | O => ret (all_results, retry_queue, retry_round)
  | S rounds_left' =>
      if negb (len retry_queue =? 0) && (retry_round <? max_retry_rounds)
      then
        let current_batch := retry_queue in
        run! st :=
          for_batch retry_round (len current_batch) 1 current_batch
                    ([], all_results) in
        let '(retry_queue, all_results) := st in
        let retry_round := retry_round + 1 in
        run! _ := (if negb (len retry_queue =? 0)
                   then emit [EvSleep (5 * retry_round)] else ret tt) in
        retry_rounds rounds_left' retry_round retry_queue all_results
      else ret (all_results, retry_queue, retry_round)
  end.

(** The files kept when [skip_existing] is set. *)
Definition files_to_process (s : store) (image_files : list string)
    : list string :=
  List.filter (fun image_file =>
                 negb (file_exists s (output_file_name image_file)))
              image_files.

(** The queue of round 0: [sorted(folder.glob(file_pattern))], less the
    files already extracted. *)
Definition discover (globbed : list string) : list string :=
  PySort.sorted PyPath.ltb globbed.

Definition first_queue (s : store) (skip_existing : bool)
    (globbed : list string) : list string :=
  let image_files := discover globbed in
  if skip_existing then files_to_process s image_files else image_files.

(** [globbed] is what [folder.glob(file_pattern)] yields. *)
Definition batch_extract_from_folder (globbed : list string)
    (skip_existing : bool) : M (list result) :=
  fun s =>
    match output_folder with
    | NotMade e => Raised s e
    | Made =>
        match discover globbed with
        | [] => Done s []
        | _ :: _ =>
            match first_queue s skip_existing globbed with
            | [] => Done s []
            | image_files =>
                (run! out :=
                   retry_rounds (Z.to_nat max_retry_rounds) 0 image_files [] in
                 let '(all_results, _, _) := out in
                 run! _ := _create_summary_report all_results in
                 ret all_results) s
            end
        end
    end.
End BatchExtractFromFolder.

End Batch.

(** ** More of Python's strings, and text files *)

Module PyText.

(** The characters ['\n'] and ['\r']. *)
Definition LF : ascii := "010"%char.
Definition CR : ascii := "013"%char.
Definition nl : string := String LF "".

(** [s * n] *)
Fixpoint times (s : string) (n : nat) : string :=
  match n with
  | O => ""
  | S n' => s +:+ times s n'
  end.

(** [pat in s] *)
Fixpoint contains (pat s : string) : bool :=
  String.prefix pat s
  || match s with
     | String _ s' => contains pat s'
     | EmptyString => false
     end.

(** [str.isspace] on one code point below 256: the ASCII white space, the
    four separators U+001C..U+001F, U+0085 and U+00A0. *)
Definition isspace_char (c : ascii) : bool :=
  let n := PyStr.code c in
  ((9 <=? n) && (n <=? 13) || (28 <=? n) && (n <=? 32)
   || (n =? 133) || (n =? 160))%N.

Fixpoint lstrip (s : string) : string :=
  match s with
  | String c s' => if isspace_char c then lstrip s' else s
  | EmptyString => EmptyString
  end.

Fixpoint rstrip (s : string) : string :=
  match s with
  | EmptyString => EmptyString
  | String c s' =>
      match rstrip s' with
      | EmptyString => if isspace_char c then EmptyString
                       else String c EmptyString
      | r => String c r
      end
  end.

(** [s.strip()] *)
Definition strip (s : string) : string := rstrip (lstrip s).

(** [str(n)] of an [int]. *)
Definition str_int (n : Z) : string := NilZero.string_of_int (Z.to_int n).

(** What [f.read()] returns for a file of the characters [s] opened in text
    mode: with universal newlines, ['\r\n'] and ['\r'] are read as
    ['\n'].  Files are written on POSIX, where ['\n'] is written as it
    is. *)
Fixpoint read_text (s : string) : string :=
  match s with
  | EmptyString => EmptyString
  | String c s' =>
      if Ascii.eqb c CR then
        String LF match s' with
                  | String c' s'' =>
                      if Ascii.eqb c' LF then read_text s'' else read_text s'
                  | EmptyString => EmptyString
                  end
      else String c (read_text s')
  end.

End PyText.

(** ** join_questions.py: [extract_text_content] and [create_separate_clean_files] *)

Module JoinQuestions.
Import PyText.

(** ['=' * 40] *)
Definition separator : string := times "=" 40.

(** [for idx, line in enumerate(lines)], from the line [idx] on: the
    indices of the lines that hold the separator, up to the second one. *)
Fixpoint find_separators (separator_indices : list nat) (idx : nat)
    (lines : list string) : list nat :=
  match lines with
  | [] => separator_indices
  | line :: rest =>
      if contains separator line then
        let separator_indices := separator_indices ++ [idx] in
        if (List.length separator_indices =? 2)%nat then separator_indices
        else find_separators separator_indices (S idx) rest
      else find_separators separator_indices (S idx) rest
  end.

Definition extract_text_content (content : string) (include_metadata : bool)
    : string :=
  if include_metadata then content
  else
    let lines := PyStr.split LF content in
    let separator_indices := find_separators [] 0 lines in
    if (2 <=? List.length separator_indices)%nat then
      let text_start := (List.nth 1 separator_indices 0 + 1)%nat in
      strip (String.concat nl (List.skipn text_start lines))
    else strip content.

(** [re.search(r'q(\d+)', name, re.IGNORECASE)]: the first [q] or [Q] that
    a decimal digit follows; [group(1)] is the longest run of digits
    after it.  [None] is no match. *)
Definition is_q (c : ascii) : bool := Ascii.eqb c "q" || Ascii.eqb c "Q".

Fixpoint digit_run (s : string) : string :=
  match s with
  | String c s' => if PyStr.re_digit c then String c (digit_run s') else ""
  | EmptyString => ""
  end.

Fixpoint search_q (name : string) : option string :=
  match name with
  | EmptyString => None
  | String c s' =>
      if is_q c && PyStr.starts_with_digit s' then Some (digit_run s')
      else search_q s'
  end.

(** [match.group(1) if match else str(idx)] *)
Definition question_num (name : string) (idx : Z) : string :=
  match search_q name with
  | Some group => group
  | None => str_int idx
  end.

(** *** [create_separate_clean_files] *)

Section CreateSeparateCleanFiles.
(** [read p] is what [in_f.read()] returns for the file [p], and [None]
    when opening or reading it raises. *)
Variable read : string -> option string.

Definition clean_file_name (question_num : string) : string :=
  "Q" +:+ question_num +:+ "_clean.txt".

(** [for idx, file_path in enumerate(extracted_files, 1)]; a file that
    cannot be read is passed over by [except Exception: continue]. *)
Fixpoint clean_each (idx : Z) (extracted_files : list string)
    (output : gmap string string) : gmap string string :=
  match extracted_files with
  | [] => output
  | file_path :: rest =>
      match read file_path with
      | None => clean_each (idx + 1) rest output
      | Some content =>
          let question_num := question_num (PyPath.name file_path) idx in
          let clean_content := extract_text_content content false in
          clean_each (idx + 1) rest
                     (<[clean_file_name question_num := clean_content]> output)
      end
  end.

(** [globbed] is what [input_path.glob(pattern)] yields; the input folder
    exists.  The emptiness test comes before the sort. *)
Definition create_separate_clean_files (globbed : list string)
    (output : gmap string string) : pyres (gmap string string) :=
  match globbed with
  | [] => Ret output
  | _ :: _ =>
      let! extracted_files := NaturalSort.natural_sorted globbed in
      Ret (clean_each 1 extracted_files output)
  end.

End CreateSeparateCleanFiles.

End JoinQuestions.

(** ** extract_images.py: [save_extracted_text] and [process_images_folder] *)

Module ImagesFolder.
Import PyText.

(** What [save_extracted_text] writes to the file; [metadata] lists the
    items of the dictionary in order, and is empty for [None] and for an
    empty dictionary. *)
Definition metadata_header (metadata : list (string * string)) : string :=
  match metadata with
  | [] => ""
  | _ :: _ =>
      times "=" 80 +:+ nl
      +:+ "EXTRACTED TEXT METADATA" +:+ nl
      +:+ times "=" 80 +:+ nl
      +:+ String.concat ""
            (List.map (fun kv => fst kv +:+ ": " +:+ snd kv +:+ nl) metadata)
      +:+ times "=" 80 +:+ nl +:+ nl
  end.

Definition save_extracted_text (text : string)
    (metadata : list (string * string)) : string :=
  metadata_header metadata +:+ text.

(** The output folder, the log, and the three counters of the summary. *)
Record state := {
  texts : gmap string string;
  events : list event;
  successful : Z;
  failed : Z;
  failed_files : list (string * ExtractImages.message)
}.

Inductive outcome (A : Type) :=
| Returned (s : state) (a : A)
| Raised (s : state) (e : pyexn).
Arguments Returned {A} s a.
Arguments Raised {A} s e.

Definition output_filename (image_file : string) : string :=
  PyPath.stem image_file +:+ "_extracted.txt".

Section ProcessImagesFolder.
Variable w : World.
Variable model : string.
Variable max_retries : Z.
(** [time.strftime("%Y-%m-%d %H:%M:%S")] when the image at position [idx]
    is saved. *)
Variable strftime : Z -> string.

Definition metadata_of (idx : Z) (image_file : string)
    : list (string * string) :=
  [("Image", PyPath.name image_file); ("Model", model);
   ("Timestamp", strftime idx)].

(** The body of [for idx, image_file in enumerate(image_files, 1)].  An
    error message is never the empty string, so [if error] is the test
    that there is one; [f.write(text)] raises TypeError for [None], after
    the header. *)
Definition process_image (idx : Z) (image_file : string) (s : state)
    : outcome unit :=
  let '(evs, (text, error)) :=
    ExtractImages.extract_text_from_image w image_file model max_retries in
  let s := {| texts := texts s; events := events s ++ evs;
              successful := successful s; failed := failed s;
              failed_files := failed_files s |} in
  match error with
  | Some e =>
      Returned {| texts := texts s; events := events s;
                  successful := successful s; failed := failed s + 1;
                  failed_files :=
                    failed_files s ++ [(PyPath.name image_file, e)] |} tt
  | None =>
      let output_filename := output_filename image_file in
      let metadata := metadata_of idx image_file in
      match text with
      | Some text =>
          Returned {| texts := <[output_filename :=
                                   save_extracted_text text metadata]>
                                 (texts s);
                      events := events s ++ [EvWrite output_filename];
                      successful := successful s + 1; failed := failed s;
                      failed_files := failed_files s |} tt
      | None =>
          Raised {| texts := <[output_filename := metadata_header metadata]>
                               (texts s);
                    events := events s ++ [EvWrite output_filename];
                    successful := successful s; failed := failed s;
                    failed_files := failed_files s |} TypeError
      end
  end.

Fixpoint for_images (idx : Z) (image_files : list string) (s : state)
    : outcome unit :=
  match image_files with
  | [] => Returned s tt
  | image_file :: rest =>
      match process_image idx image_file s with
      | Returned s' _ => for_images (idx + 1) rest s'
      | Raised s' e => Raised s' e
      end
  end.

(** [globbed] is what the globs of the extensions yield, one after the
    other; the folder exists.  The value is [true] when the summary is
    printed, with the counters of the state. *)
Definition process_images_folder (globbed : list string) (s : state)
    : outcome bool :=
  match NaturalSort.natural_sorted globbed with
  | Exn e => Raised s e
  | Ret [] => Returned s false
  | Ret image_files =>
      match for_images 1 image_files
                       {| texts := texts s; events := events s;
                          successful := 0; failed := 0;
                          failed_files := [] |} with
      | Returned s' _ => Returned s' true
      | Raised s' e => Raised s' e
      end
  end.

End ProcessImagesFolder.

End ImagesFolder.

(** ** image_text_extractor.py: the characters of the text file of a success *)

Module SuccessFile.
Import PyText.
Import Batch.

(** [f"{value}"] of the model, which may be [None], and of the tokens,
    ['N/A'] when the usage does not name them and [None] when it gives
    [null] for them. *)
Definition str_model (m : option string) : string :=
  match m with Some x => x | None => "None" end.

Definition str_tokens (t : json_int) : string :=
  match t with
  | JInt n => str_int n
  | JNull => "None"
  | JMissing => "N/A"
  end.

(** The characters the [f.write] calls of [batch_extract_from_folder] put
    in the file, for the lines of a success with its usage. *)
Definition characters (lines : list line) : option string :=
  match lines with
  | [LImage name; LModel m; LRetryRound n; LRule; LText extracted_text;
     LRule; LTokensUsed t] =>
      Some ("Image: " +:+ name +:+ nl
            +:+ "Model: " +:+ str_model m +:+ nl
            +:+ "Retry Round: " +:+ str_int n +:+ nl
            +:+ times "=" 80 +:+ nl +:+ nl
            +:+ extracted_text
            +:+ nl +:+ nl +:+ times "=" 80 +:+ nl
            +:+ "Tokens used: " +:+ str_tokens t +:+ nl)
  | _ => None
  end.

End SuccessFile.

(** * The vocabulary of the properties *)

Import Extractor.
Import Batch.

(** ** Media types *)

(** The table of the extensions [get_image_mime_type] knows. *)
Definition known_extensions : list (string * string) :=
  [(".jpg", "image/jpeg"); (".jpeg", "image/jpeg"); (".png", "image/png");
   (".gif", "image/gif"); (".webp", "image/webp"); (".bmp", "image/bmp")].

(** [c] does not occur in [s]. *)
Definition no_char (c : ascii) (s : string) : Prop :=
  PyStr.all_chars (fun x => negb (Ascii.eqb x c)) s = true.

(** ** Results and reports *)

(** The successes and the failures of a list of results, and the tokens a
    result accounts for: those of a success whose usage names them. *)
Definition failure_count (results : list result) : Z :=
  len (List.filter (fun r => negb (success r)) results).

Definition counted (t : json_int) : Z :=
  match t with JInt n => n | JMissing | JNull => 0 end.

Definition tokens_of (r : result) : Z :=
  match r with
  | Success _ _ _ (Some u) _ => counted (total_tokens u)
  | _ => 0
  end.

Definition tokens_over_successes (results : list result) : Z :=
  List.fold_right Z.add 0 (List.map tokens_of (List.filter success results)).

(** A success the report can count: it carries the [usage] object of the
    response, and the [total_tokens] of the usage is not [null]. *)
Definition summable (r : result) : Prop :=
  match r with
  | Success _ _ _ (Some u) _ => total_tokens u <> JNull
  | Success _ _ _ None _ => False
  | Failure _ _ _ => True
  end.

(** A success the batch can save and count: its text is a string, and the
    report can count it. *)
Definition complete (r : result) : Prop :=
  match r with
  | Success _ None _ _ _ => False
  | _ => summable r
  end.

(** The results recorded for the image [j]. *)
Definition results_of (j : string) (rs : list result) : list result :=
  List.filter (fun x => String.eqb (image_path_of x) j) rs.

(** ** Logs *)

Definition is_post (e : event) : bool :=
  match e with EvPost _ _ => true | _ => false end.

(** The requests of a log, in order. *)
Definition posts (evs : list event) : list event := List.filter is_post evs.

(** [about j e]: the event is a read or a request for the image [j], or a
    write of one of its two files. *)
Definition about (j : string) (e : event) : bool :=
  match e with
  | EvRead q | EvPost q _ => String.eqb q j
  | EvWrite f =>
      String.eqb f (output_file_name j) || String.eqb f (error_file_name j)
  | EvSleep _ | EvDelay => false
  end.

Definition job_events (j : string) (evs : list event) : list event :=
  List.filter (about j) evs.

Definition is_error_write (j : string) (e : event) : bool :=
  match e with
  | EvWrite f => String.eqb f (error_file_name j)
  | _ => false
  end.

(** An event of the extraction of [p]: a read of [p], a request for [p] or
    a pause. *)
Definition own_event (p : string) (e : event) : Prop :=
  e = EvRead p \/ (exists req, e = EvPost p req) \/ (exists d, e = EvSleep d).

(** What the loop does while the models answer 429 and others remain. *)
Definition fallback_events (p prompt : string) (max_tokens : Z)
    (b64 : string) (pre : list string) : list event :=
  List.flat_map
    (fun m => [EvPost p (Extractor.payload prompt max_tokens b64
                                            (Mime.get_image_mime_type p) m);
               EvSleep 2])
    pre.

(** The attempt is classified as a transient network error or as a server
    error. *)
Definition transient_or_server (r : reply) : bool :=
  Classify.transient_network r || Classify.server_error r.

Definition backoff_events (p : string) (req : request) (attempts : list Z)
    : list event :=
  List.flat_map (fun a => [EvPost p req; EvSleep (1 * 2 ^ a)]) attempts.

(** The first request of a log is followed by a pause and then by a request
    to the same model. *)
Definition retried_after_first_attempt (evs : list event) : Prop :=
  exists p req d req' rest,
    evs = EvRead p :: EvPost p req :: EvSleep d :: EvPost p req' :: rest /\
    req_model req' = req_model req.

(** ** Stores *)

(** From [s] to [s'] the log grew, and what it gained about [j] is
    [evs_j]. *)
Definition grows (j : string) (evs_j : list event) (s s' : store) : Prop :=
  exists evs, log s' = log s ++ evs /\ job_events j evs = evs_j.

Definition same_files (j : string) (s s' : store) : Prop :=
  fs s' !! output_file_name j = fs s !! output_file_name j /\
  fs s' !! error_file_name j = fs s !! error_file_name j.

(** Nothing happened that concerns [j]. *)
Definition frame (j : string) (s s' : store) : Prop :=
  same_files j s s' /\ grows j [] s s'.

(** [m] relates the store it starts from to the one it ends in by [R],
    whether it returns or raises, and returns values in [Q]. *)
Definition keeps {A} (R : store -> store -> Prop) (m : M A) (Q : A -> Prop)
    : Prop :=
  forall s, match m s with
            | Done s' a => R s s' /\ Q a
            | Raised s' _ => R s s'
            end.

(** ** Rounds of a batch *)

Section Rounds.
Variable self : ImageTextExtractor.
Variable worlds : Z -> World.
Variable prompt : string.
Variable model : option string.
Variable max_retry_rounds : Z.

(** The result of the extraction of [p] in round [r]. *)
Definition res (r : Z) (p : string) : result :=
  snd (Batch.extract self worlds prompt model r p).

Definition failed (r : Z) (p : string) : bool := negb (success (res r p)).

(** Round [r] is the last one the loop can run. *)
Definition final_round (r : Z) : bool := negb (r <? max_retry_rounds - 1).

(** The jobs a round puts back in the queue and the results it records. *)
Definition requeued (r : Z) (batch : list string) : list string :=
  if final_round r then [] else List.filter (failed r) batch.

Definition recorded (r : Z) (batch : list string) : list result :=
  if final_round r then List.map (res r) batch
  else List.filter success (List.map (res r) batch).

(** The lines of the error file of [j] written in round [r]. *)
Definition error_lines (r : Z) (j : string) : list line :=
  match res r j with
  | Failure _ e t =>
      [LImage (PyPath.name j); LError e; LErrorType t; LRetryRounds (r + 1)]
  | Success _ _ _ _ _ => []
  end.

(** What round [r] does about a job [j] that fails in it. *)
Definition round_events (j : string) (r : Z) : list event :=
  job_events j (fst (Batch.extract self worlds prompt model r j))
    ++ (if final_round r then [EvWrite (error_file_name j)] else []).

Fixpoint rounds_events (j : string) (r : Z) (rounds : nat) : list event :=
  match rounds with
  | O => []
  | S rounds' => round_events j r ++ rounds_events j (r + 1) rounds'
  end.

(** The queue of each round as the specification has it: the queue of
    the round after [first + k] holds the jobs of the queue of round
    [first + k] that failed in it. *)
Fixpoint round_queue (first : Z) (queue : list string) (k : nat)
    : list string :=
  match k with
  | O => queue
  | S k' =>
      List.filter (failed (first + Z.of_nat k')) (round_queue first queue k')
  end.

(** The image [j] cannot be read in any of the rounds. *)
Definition unreadable (j : string) : Prop :=
  forall r, 0 <= r < max_retry_rounds ->
            exists etype msg, read_image (worlds r) j = inl (etype, msg).

End Rounds.

(** ** Extractors, worlds and stores of the examples *)

(** The extractor as [__init__] builds it: one model in the roster. *)
Definition default_extractor : ImageTextExtractor :=
  {| api_key := "sk-or-key";
     vision_models := ["google/gemini-2.0-flash-001"] |}.

(** A roster of two models, and a service that limits the first and
    answers for the second. *)
Definition two_models : ImageTextExtractor :=
  {| api_key := "sk-or-key"; vision_models := ["model-a"; "model-b"] |}.

Definition answer_b : completion :=
  {| content := Some "Question 1";
     reported_model := Some "model-b";
     reported_usage := Some {| total_tokens := JInt 57 |} |}.

(** A service that answers every request with status 500. *)
Definition world_500 : World :=
  {| read_image := fun _ => inr "aW1hZ2U=";
     post := fun _ _ _ => Response 500 NotJson |}.

(** A service that answers every request with status 429. *)
Definition world_429 : World :=
  {| read_image := fun _ => inr "aW1hZ2U=";
     post := fun _ _ _ => Response 429 NotJson |}.

(** A folder whose images cannot be read. *)
Definition world_unreadable : World :=
  {| read_image := fun _ => inl ("PermissionError", "Permission denied");
     post := fun _ _ _ => Response 500 NotJson |}.

Definition world_fallback : World :=
  {| read_image := fun _ => inr "aW1hZ2U=";
     post := fun _ _ req =>
               if String.eqb (req_model req) "model-a"
               then Response 429 NotJson
               else Response 200 (Completion answer_b) |}.

(** A service that times out, then answers 503, then answers. *)
Definition world_flaky : World :=
  {| read_image := fun _ => inr "aW1hZ2U=";
     post := fun _ attempt _ =>
               if attempt =? 0 then TimeoutExc "ReadTimeout" "timed out"
               else if attempt =? 1 then Response 503 NotJson
               else Response 200 (Completion answer_b) |}.

(** A service whose completions give [null] for their content. *)
Definition world_null_content : World :=
  {| read_image := fun _ => inr "aW1hZ2U=";
     post := fun _ _ _ =>
               Response 200
                 (Completion {| content := None;
                                reported_model := Some "model-b";
                                reported_usage :=
                                  Some {| total_tokens := JInt 57 |} |}) |}.

(** The service answers for [q1] without a usage object, and fails with
    status 500 for the other images. *)
Definition world_without_usage : World :=
  {| read_image := fun _ => inr "aW1hZ2U=";
     post := fun p _ _ =>
               if String.eqb p "imgs/q1.jpeg"
               then Response 200
                      (Completion {| content := Some "Question 1";
                                     reported_model := Some "model-b";
                                     reported_usage := None |})
               else Response 500 NotJson |}.

(** The service answers for [q1] and fails with status 500 for the other
    images, in every round. *)
Definition world_q1_only : World :=
  {| read_image := fun _ => inr "aW1hZ2U=";
     post := fun p _ _ =>
               if String.eqb p "imgs/q1.jpeg"
               then Response 200 (Completion answer_b)
               else Response 500 NotJson |}.

(** The scenario of three images and two rounds: [q1] is answered at
    once, [q2] is limited in round 0 and answered in round 1, [q3] is
    limited in both rounds. *)
Definition worlds_scenario (r : Z) : World :=
  {| read_image := fun _ => inr "aW1hZ2U=";
     post := fun p _ _ =>
               if String.eqb p "imgs/q1.jpeg"
               then Response 200 (Completion answer_b)
               else if String.eqb p "imgs/q2.jpeg" && negb (r =? 0)
                    then Response 200 (Completion answer_b)
                    else Response 429 NotJson |}.

Definition empty_store : store := {| fs := ∅; log := [] |}.

(** An output folder that holds the text of [q1] already. *)
Definition store_with_q1 : store :=
  {| fs := {[ "q1_extracted.txt" := [LText "Question 1"] ]}; log := [] |}.

Definition sample_results : list result :=
  [Success "imgs/q1.jpeg" (Some "Question 1") (Some "google/gemini-2.0-flash-001")
           (Some {| total_tokens := JInt 30 |}) 1;
   Failure "imgs/q2.jpeg" (Some (HttpErrorText 429)) (Some "HTTPError");
   Success "imgs/q3.jpeg" (Some "Question 3") None
           (Some {| total_tokens := JMissing |}) 1;
   Success "imgs/q4.jpeg" (Some "Question 4") (Some "google/gemini-2.0-flash-001")
           (Some {| total_tokens := JInt 12 |}) 2].

(** ** More about logs and replies *)

(** The model a request names. *)
Definition requested_model (e : event) : string :=
  match e with EvPost _ req => req_model req | _ => "" end.

(** The replies after which [extract_images.extract_text_from_image] tries
    again when attempts remain: 429, a status of 500 or more, any other 4xx
    (raised by [raise_for_status] and caught as a [RequestException]), a
    body that is not JSON, a timeout and any other request exception. *)
Definition tried_again (r : reply) : bool :=
  match r with
  | Response status body =>
      (status =? 429) || (status >=? 500) || raises_for_status status
      || match body with NotJson => true | _ => false end
  | TimeoutExc _ _ | RequestExc _ _ => true
  | OtherExc _ _ => false
  end.

(** The pause before the next attempt: a minute after a 429, and
    [2 ** attempt] seconds otherwise. *)
Definition wait_after (attempt : Z) (r : reply) : Z :=
  match r with
  | Response 429 _ => 60
  | _ => 2 ^ attempt
  end.

(** ** Runs and keys of the natural order *)

(** One of the three superscript digits of Latin-1, which [str.isdigit]
    accepts and [int] and [\d] do not. *)
Definition superscript (c : ascii) : bool :=
  (PyStr.code c =? 178)%N || (PyStr.code c =? 179)%N
  || (PyStr.code c =? 185)%N.

(** A non-empty string of superscript digits. *)
Definition superscript_run (s : string) : bool :=
  negb (String.eqb s "") && PyStr.all_chars superscript s.

(** A run of decimal digits longer than [int] accepts. *)
Definition long_digit_run (s : string) : bool :=
  PyStr.all_chars PyStr.re_digit s
  && (PyStr.int_max_str_digits <? Z.of_nat (String.length s)).

(** A part of a split that [isdigit] accepts and [int] refuses: a
    non-empty string of superscript digits, or more than 4300 decimal
    digits. *)
Definition refused_part (s : string) : bool :=
  superscript_run s || long_digit_run s.

(** One of the parts of the name is refused. *)
Definition has_refused_part (filename : string) : bool :=
  List.existsb refused_part (PyStr.re_split_digits filename).

(** The runs of a split alternate: text without decimal digits, then a
    non-empty run of decimal digits, and so on, ending with text. *)
Fixpoint runs (want_text : bool) (l : list string) : Prop :=
  match l with
  | [] => want_text = false
  | x :: rest =>
      (if want_text
       then PyStr.all_chars (fun c => negb (PyStr.re_digit c)) x = true
       else x <> "" /\ PyStr.all_chars PyStr.re_digit x = true)
      /\ runs (negb want_text) rest
  end.

(** The elements of a key alternate likewise: [str], [int], ..., [str]. *)
Fixpoint key_shape (want_str : bool) (k : list NaturalSort.key_part) : Prop :=
  match k with
  | [] => want_str = false
  | NaturalSort.KStr _ :: rest => want_str = true /\ key_shape false rest
  | NaturalSort.KInt _ :: rest => want_str = false /\ key_shape true rest
  end.

(** ** More about stores and reports *)

(** No file of [s] is missing from [s']. *)
Definition keeps_files (s s' : store) : Prop :=
  forall f, is_Some (fs s !! f) -> is_Some (fs s' !! f).

(** Every success among the results has its text file in the store. *)
Definition successes_saved (rs : list result) (s : store) : Prop :=
  Forall (fun x => success x = true ->
                   is_Some (fs s !! output_file_name (image_path_of x)))
         rs.

Definition error_of (r : result) : option error_text :=
  match r with Failure _ e _ => e | Success _ _ _ _ _ => None end.

Definition is_failed_item (l : line) : bool :=
  match l with LFailedItem _ _ => true | _ => false end.

(** ** A job that ends in a success *)

Section SuccessRounds.
Variable self : ImageTextExtractor.
Variable worlds : Z -> World.
Variable prompt : string.
Variable model : option string.

(** The lines of the text file of [j] written in round [r]. *)
Definition success_lines (r : Z) (j : string) : list line :=
  match res self worlds prompt model r j with
  | Success _ (Some extracted_text) m (Some u) _ =>
      [LImage (PyPath.name j); LModel m; LRetryRound (r + 1); LRule;
       LText extracted_text; LRule; LTokensUsed (total_tokens u)]
  | _ => []
  end.

End SuccessRounds.

(** ** Lines of text files *)

(** The line holds the separator of [extract_text_content]. *)
Definition has_separator (line : string) : bool :=
  PyText.contains JoinQuestions.separator line.

(** A string that stays one line of a file without a separator: it has no
    line feed and no carriage return, and does not hold the separator. *)
Definition plain_line (s : string) : Prop :=
  no_char PyText.LF s /\ no_char PyText.CR s /\ has_separator s = false.

(** A character of [str(n)]: a decimal digit or the minus sign. *)
Definition int_char (c : ascii) : bool :=
  PyStr.re_digit c || Ascii.eqb c "-".

(** The lines of the metadata dictionary as [save_extracted_text] writes
    them. *)
Definition metadata_lines (metadata : list (string * string)) : string :=
  String.concat ""
    (List.map (fun kv => fst kv +:+ ": " +:+ snd kv +:+ PyText.nl) metadata).

(** The images a log reads, in order. *)
Definition is_read (e : event) : bool :=
  match e with EvRead _ => true | _ => false end.

Definition reads (evs : list event) : list event := List.filter is_read evs.

(** ** The state of [process_images_folder] *)

(** The image [p] is accounted for in [s]: its extraction returned an
    error, listed with its name among the failed files, or it returned a
    text, and the text file of the image is there. *)
Definition settled (w : World) (model : string) (max_retries : Z)
    (p : string) (s : ImagesFolder.state) : Prop :=
  let outcome :=
    snd (ExtractImages.extract_text_from_image w p model max_retries) in
  (exists msg, outcome = (None, Some msg) /\
               In (PyPath.name p, msg) (ImagesFolder.failed_files s)) \/
  (exists text, outcome = (Some text, None) /\
                is_Some (ImagesFolder.texts s
                           !! ImagesFolder.output_filename p)).

(** The extraction of [p] returned neither a text nor an error: a
    completion answered whose content is [null]. *)
Definition answered_null (w : World) (model : string) (max_retries : Z)
    (p : string) : Prop :=
  snd (ExtractImages.extract_text_from_image w p model max_retries)
  = (None, None).

(** From [s] to [s'] no text file and no failed file is lost, and the
    counter of the failures grows with their list. *)
Definition extends (s s' : ImagesFolder.state) : Prop :=
  (forall f, is_Some (ImagesFolder.texts s !! f) ->
             is_Some (ImagesFolder.texts s' !! f)) /\
  (forall x, In x (ImagesFolder.failed_files s) ->
             In x (ImagesFolder.failed_files s')) /\
  len (ImagesFolder.failed_files s') - ImagesFolder.failed s'
  = len (ImagesFolder.failed_files s) - ImagesFolder.failed s.

(** What [process_images_folder] saves for the image [file_path] at position
    [i] of a loop whose counter starts at [idx], when its text is [text]. *)
Definition saved_text (model : string) (strftime : Z -> string) (idx : Z)
    (i : nat) (file_path text : string) : string :=
  ImagesFolder.save_extracted_text text
    [("Image", PyPath.name file_path); ("Model", model);
     ("Timestamp", strftime (idx + Z.of_nat i))].

(** An output folder with nothing in it, and counters at zero. *)
Definition empty_folder : ImagesFolder.state :=
  {| ImagesFolder.texts := ∅; ImagesFolder.events := [];
     ImagesFolder.successful := 0; ImagesFolder.failed := 0;
     ImagesFolder.failed_files := [] |}.

(** ** Clean files *)

(** The name of the clean file of [file_path], the file at position [i] of
    a loop whose counter starts at [idx]. *)
Definition clean_name_at (idx : Z) (i : nat) (file_path : string) : string :=
  JoinQuestions.clean_file_name
    (JoinQuestions.question_num (PyPath.name file_path) (idx + Z.of_nat i)).

(** ** Reads and pauses of a batch *)

(** The reads of the rounds [first, first + 1, ...] of a batch, [rounds] of
    them: in each round the images of its queue, in order. *)
Definition rounds_reads (self : ImageTextExtractor) (worlds : Z -> World)
    (prompt : string) (model : option string) (first : Z)
    (queue : list string) (rounds : nat) : list event :=
  List.flat_map
    (fun k =>
       List.map EvRead (round_queue self worlds prompt model first queue k))
    (List.seq 0 rounds).

(** The pauses between two images of a round. *)
Definition is_delay (e : event) : bool :=
  match e with EvDelay => true | _ => false end.

Definition delays (evs : list event) : Z := len (List.filter is_delay evs).


(** * Properties *)

(** ** Sorting *)

(** The sort with a comparison that always returns is the sort with the
    fallible comparison. *)
Lemma insert_total_spec {A} (ltb : A -> A -> bool) x l :
  PySort.insert (fun a b => Ret (ltb a b)) x l
  = Ret (PySort.insert_total ltb x l).
Proof.
  induction l as [|y l IH]; simpl; [reflexivity|].
  destruct (ltb x y); [reflexivity|]. rewrite IH. reflexivity.
Qed.

Lemma sorted_spec {A} (ltb : A -> A -> bool) l :
  PySort.sort (fun a b => Ret (ltb a b)) l = Ret (PySort.sorted ltb l).
Proof.
  unfold PySort.sort, PySort.sorted. generalize (@nil A).
  induction l as [|x l IH]; intros acc; simpl; [reflexivity|].
  rewrite insert_total_spec. simpl. apply IH.
Qed.

(** ** Paths *)

(** *** The suffix of a file [base.ext] in any folder *)

Lemma split_nonempty sep s : PyStr.split sep s <> [].
Proof.
  destruct s as [|c s]; simpl; [discriminate|].
  destruct (Ascii.eqb c sep); [discriminate|].
  destruct (PyStr.split sep s); discriminate.
Qed.

Lemma split_no_sep sep s : no_char sep s -> PyStr.split sep s = [s].
Proof.
  unfold no_char. induction s as [|c s IH]; simpl; intros H; [reflexivity|].
  apply andb_true_iff in H as [Hc Hs]. apply negb_true_iff in Hc.
  rewrite Hc, (IH Hs). reflexivity.
Qed.

Lemma split_app sep a b :
  PyStr.split sep (a +:+ String sep b)
  = PyStr.split sep a ++ PyStr.split sep b.
Proof.
  induction a as [|c a IH].
  - change ("" +:+ String sep b) with (String sep b). simpl.
    rewrite Ascii.eqb_refl. reflexivity.
  - change (String c a +:+ String sep b) with (String c (a +:+ String sep b)).
    simpl. rewrite IH. destruct (Ascii.eqb c sep); [reflexivity|].
    pose proof (split_nonempty sep a) as Hne.
    destruct (PyStr.split sep a); [contradiction|reflexivity].
Qed.

Lemma rfind_absent ch s : no_char ch s -> PyStr.rfind ch s = None.
Proof.
  unfold no_char. induction s as [|c s IH]; simpl; intros H; [reflexivity|].
  apply andb_true_iff in H as [Hc Hs]. apply negb_true_iff in Hc.
  rewrite (IH Hs), Hc. reflexivity.
Qed.

Lemma rfind_last ch base ext :
  no_char ch ext ->
  PyStr.rfind ch (base +:+ String ch ext) = Some (String.length base).
Proof.
  intros Hext. induction base as [|c base IH].
  - change ("" +:+ String ch ext) with (String ch ext). simpl.
    rewrite (rfind_absent _ _ Hext), Ascii.eqb_refl. reflexivity.
  - change (String c base +:+ String ch ext)
      with (String c (base +:+ String ch ext)).
    simpl. rewrite IH. reflexivity.
Qed.

Lemma drop_length_app base x :
  PyStr.drop (String.length base) (base +:+ x) = x.
Proof.
  induction base as [|c base IH]; [destruct x; reflexivity|].
  change (String c base +:+ x) with (String c (base +:+ x)). simpl. exact IH.
Qed.

Lemma length_append_string a b :
  String.length (a +:+ b) = (String.length a + String.length b)%nat.
Proof.
  induction a as [|c a IH]; [reflexivity|].
  change (String c a +:+ b) with (String c (a +:+ b)). simpl. rewrite IH.
  reflexivity.
Qed.

Lemma name_of_file dir nm :
  nm <> "" -> nm <> "." -> no_char "/" nm ->
  PyPath.name (dir +:+ String "/" nm) = nm.
Proof.
  intros H1 H2 Hns. unfold PyPath.name, PyPath.components.
  rewrite split_app, List.filter_app, (split_no_sep _ _ Hns). simpl.
  apply String.eqb_neq in H1, H2. rewrite H1, H2. simpl.
  apply last_last.
Qed.

Lemma no_char_append c a b :
  no_char c a -> no_char c b -> no_char c (a +:+ b).
Proof.
  unfold no_char. induction a as [|x a IH]; intros Ha Hb; [exact Hb|].
  change (String x a +:+ b) with (String x (a +:+ b)). simpl in *.
  apply andb_true_iff in Ha as [Hx Ha]. rewrite Hx. simpl.
  apply IH; assumption.
Qed.

Lemma suffix_of_file dir base ext :
  base <> "" -> ext <> "" ->
  no_char "/" base -> no_char "/" ext -> no_char "." ext ->
  PyPath.suffix (dir +:+ String "/" (base +:+ String "." ext))
  = String "." ext.
Proof.
  intros Hb He Hsb Hse Hde. unfold PyPath.suffix.
  rewrite name_of_file.
  - unfold PyPath.split_at_suffix. rewrite (rfind_last _ _ _ Hde).
    rewrite length_append_string. simpl String.length.
    assert (Hlb : (0 < String.length base)%nat)
      by (destruct base; [contradiction|simpl; lia]).
    assert (Hle : (0 < String.length ext)%nat)
      by (destruct ext; [contradiction|simpl; lia]).
    replace (0 <? Z.of_nat (String.length base)) with true
      by (symmetry; apply Z.ltb_lt; lia).
    replace (Z.of_nat (String.length base)
             <? Z.of_nat (String.length base + S (String.length ext)) - 1)
      with true by (symmetry; apply Z.ltb_lt; lia).
    simpl. apply drop_length_app.
  - destruct base; [contradiction|discriminate].
  - destruct base as [|c base]; [contradiction|].
    change (String c base +:+ String "." ext)
      with (String c (base +:+ String "." ext)).
    destruct base as [|c' base]; [|discriminate].
    change ("" +:+ String "." ext) with (String "." ext).
    destruct ext; [contradiction|discriminate].
  - apply no_char_append; [exact Hsb|].
    unfold no_char. simpl. exact Hse.
Qed.

(** ** The media-type lookup *)

Lemma mime_types_lookup ext mime :
  Mime.mime_types !! ext = Some mime <-> In (ext, mime) known_extensions.
Proof.
  unfold Mime.mime_types, known_extensions. split.
  - intros E.
    repeat (apply lookup_insert_Some in E as [[<- <-]|[_ E]];
            [simpl; tauto|]).
    rewrite lookup_empty in E. discriminate.
  - simpl. intros H.
    repeat (destruct H as [H|H]; [inversion H; subst; reflexivity|]).
    contradiction.
Qed.

Lemma lower_upper_ascii_examples :
  PyStr.lower ".JPG" = ".jpg" /\ PyStr.lower ".Jpeg" = ".jpeg" /\
  PyStr.lower ".pNg" = ".png" /\ PyStr.lower ".WEBP" = ".webp".
Proof. repeat split; reflexivity. Qed.

(** C10.  [get_image_mime_type] is total: whatever the path, it returns one
    of five MIME strings.  When the lower-cased suffix of the path is one of
    [.jpg .jpeg .png .gif .webp .bmp] the result is the type of that
    extension, and for every other suffix it is ['image/jpeg'].  In
    particular a file [base.ext] of any folder gets the type of [ext]
    whatever the case of its letters. *)
Theorem get_image_mime_type_total :
  (forall p, In (Mime.get_image_mime_type p)
                ["image/jpeg"; "image/png"; "image/gif"; "image/webp";
                 "image/bmp"]) /\
  (forall p ext mime,
      In (ext, mime) known_extensions ->
      PyStr.lower (PyPath.suffix p) = ext ->
      Mime.get_image_mime_type p = mime) /\
  (forall p,
      (forall mime, ~ In (PyStr.lower (PyPath.suffix p), mime) known_extensions) ->
      Mime.get_image_mime_type p = "image/jpeg") /\
  (forall dir base ext mime,
      base <> "" -> ext <> "" ->
      no_char "/" base -> no_char "/" ext -> no_char "." ext ->
      In ("." +:+ PyStr.lower ext, mime) known_extensions ->
      Mime.get_image_mime_type (dir +:+ "/" +:+ base +:+ "." +:+ ext) = mime).
Proof.
  split; [|split; [|split]].
  - intros p. unfold Mime.get_image_mime_type.
    destruct (Mime.mime_types !! _) as [m|] eqn:E; simpl; [|tauto].
    apply mime_types_lookup in E. simpl in E.
    repeat (destruct E as [E|E]; [inversion E; subst; tauto|]).
    contradiction.
  - intros p ext mime Hin Hext. unfold Mime.get_image_mime_type.
    rewrite Hext. apply mime_types_lookup in Hin. rewrite Hin. reflexivity.
  - intros p Hnot. unfold Mime.get_image_mime_type.
    destruct (Mime.mime_types !! _) as [m|] eqn:E; [|reflexivity].
    apply mime_types_lookup in E. exfalso. exact (Hnot m E).
  - intros dir base ext mime Hb He Hsb Hse Hde Hin.
    change (dir +:+ "/" +:+ base +:+ "." +:+ ext)
      with (dir +:+ String "/" (base +:+ String "." ext)).
    unfold Mime.get_image_mime_type.
    rewrite (suffix_of_file dir base ext Hb He Hsb Hse Hde).
    apply mime_types_lookup in Hin.
    change (PyStr.lower (String "." ext)) with ("." +:+ PyStr.lower ext).
    rewrite Hin. reflexivity.
Qed.

Lemma get_image_mime_type_total_witness :
  Mime.get_image_mime_type "scans/Q10.PNG" = "image/png" /\
  Mime.get_image_mime_type "scans/q3.Jpeg" = "image/jpeg" /\
  Mime.get_image_mime_type "q4.bmp" = "image/bmp" /\
  Mime.get_image_mime_type "scans/notes.txt" = "image/jpeg" /\
  Mime.get_image_mime_type "scans/README" = "image/jpeg".
Proof.
  destruct get_image_mime_type_total as (_ & Hknown & Hother & Hfile).
  split; [|split; [|split; [|split]]].
  - apply (Hfile "scans" "Q10" "PNG" "image/png");
      try discriminate; try reflexivity.
    vm_compute. tauto.
  - apply (Hknown "scans/q3.Jpeg" ".jpeg" "image/jpeg");
      [simpl; tauto | reflexivity].
  - apply (Hknown "q4.bmp" ".bmp" "image/bmp"); [simpl; tauto | reflexivity].
  - apply (Hother "scans/notes.txt"). intros mime H. vm_compute in H.
    repeat (destruct H as [H|H]; [discriminate H|]). exact H.
  - apply (Hother "scans/README"). intros mime H. vm_compute in H.
    repeat (destruct H as [H|H]; [discriminate H|]). exact H.
Defined.

(** The table written inline in extract_images.py sends [.bmp] to the
    default. *)
Lemma inline_mime_type_bmp :
  Mime.inline_mime_type "q4.bmp" = "image/jpeg" /\
  Mime.inline_mime_type "q4.PNG" = "image/png".
Proof. split; reflexivity. Qed.

(** ** Discovery order *)

(** Natural order on the example of the specification, as
    [process_images_folder] and [join_extracted_files] sort. *)
Lemma natural_sorted_example :
  NaturalSort.natural_sorted ["q1"; "q10"; "q2"] = Ret ["q1"; "q2"; "q10"].
Proof. reflexivity. Qed.

Lemma natural_sort_key_example :
  NaturalSort.natural_sort_key "imgs/q10.jpeg"
  = Ret [NaturalSort.KStr "imgs/q"; NaturalSort.KInt 10;
         NaturalSort.KStr ".jpeg"].
Proof. reflexivity. Qed.

(** Digit runs compare as integers, so leading zeros do not count and the
    sort, being stable, keeps such names in the order they came in. *)
Lemma natural_sorted_leading_zeros :
  NaturalSort.natural_sorted ["q2"; "q01"; "q1"; "q"] = Ret ["q"; "q01"; "q1"; "q2"].
Proof. reflexivity. Qed.

Lemma key_part_eqb_refl x : NaturalSort.key_part_eqb x x = true.
Proof. destruct x; simpl; [apply Z.eqb_refl|apply String.eqb_refl]. Qed.

(** A key that is a proper prefix of another is the smaller one, and no key
    is smaller than itself. *)
Lemma key_lt_prefix k x rest :
  NaturalSort.key_lt k (k ++ x :: rest) = Ret true.
Proof.
  induction k as [|y k IH]; simpl; [reflexivity|].
  rewrite key_part_eqb_refl. exact IH.
Qed.

Lemma key_lt_irrefl k : NaturalSort.key_lt k k = Ret false.
Proof.
  induction k as [|y k IH]; simpl; [reflexivity|].
  rewrite key_part_eqb_refl. exact IH.
Qed.

(** After a common prefix, two digit runs compare as integers and two other
    runs as strings. *)
Lemma key_lt_digits k m n rest1 rest2 :
  m <> n ->
  NaturalSort.key_lt (k ++ NaturalSort.KInt m :: rest1)
                     (k ++ NaturalSort.KInt n :: rest2)
  = Ret (m <? n).
Proof.
  intros Hne. induction k as [|y k IH]; simpl.
  - apply Z.eqb_neq in Hne. rewrite Hne. reflexivity.
  - rewrite key_part_eqb_refl. exact IH.
Qed.

Lemma key_lt_text k a b rest1 rest2 :
  a <> b ->
  NaturalSort.key_lt (k ++ NaturalSort.KStr a :: rest1)
                     (k ++ NaturalSort.KStr b :: rest2)
  = Ret (PyStr.ltb a b).
Proof.
  intros Hne. induction k as [|y k IH]; simpl.
  - apply String.eqb_neq in Hne. rewrite Hne. reflexivity.
  - rewrite key_part_eqb_refl. exact IH.
Qed.

(** C1.  On the files [q1.jpeg], [q10.jpeg], [q2.jpeg] the batch of
    image_text_extractor.py, which sorts the paths themselves, puts [q10]
    before [q2] and reads the images in that order, whereas the natural
    order, which [process_images_folder] of extract_images.py applies to
    the same files, is [q1], [q2], [q10]. *)
Theorem batch_discovery_is_not_natural :
  let globbed := ["imgs/q2.jpeg"; "imgs/q10.jpeg"; "imgs/q1.jpeg"] in
  Batch.discover globbed = ["imgs/q1.jpeg"; "imgs/q10.jpeg"; "imgs/q2.jpeg"] /\
  (forall s, Batch.first_queue s false globbed
             = ["imgs/q1.jpeg"; "imgs/q10.jpeg"; "imgs/q2.jpeg"]) /\
  ExtractImages.discover globbed
  = Ret ["imgs/q1.jpeg"; "imgs/q2.jpeg"; "imgs/q10.jpeg"] /\
  NaturalSort.natural_sorted ["q1"; "q10"; "q2"] = Ret ["q1"; "q2"; "q10"].
Proof.
  cbv zeta. split; [|split; [|split]].
  - vm_compute. reflexivity.
  - intros s. unfold Batch.first_queue. vm_compute. reflexivity.
  - vm_compute. reflexivity.
  - vm_compute. reflexivity.
Qed.

(** ** The summary report *)

Lemma success_failure_count results :
  success_count results + failure_count results = len results.
Proof.
  unfold success_count, failure_count, len.
  induction results as [|r rs IH]; simpl; [reflexivity|].
  destruct (success r); simpl; lia.
Qed.

Lemma complete_summable r : complete r -> summable r.
Proof. destruct r as [p [t|] m u a|p e t]; simpl; tauto. Qed.

Lemma token_sum_present results :
  Forall summable results ->
  token_sum results = Ret (tokens_over_successes results).
Proof.
  unfold tokens_over_successes.
  induction 1 as [|r rs Hr _ IH]; simpl; [reflexivity|].
  destruct r as [p t m [[tk]|] a | p e t]; simpl in *.
  - destruct tk; simpl; [rewrite IH; reflexivity|congruence|].
    rewrite IH. reflexivity.
  - contradiction.
  - exact IH.
Qed.

(** The sum raises for the first success that has no usage or whose usage
    gives [null] for the tokens. *)
Lemma token_sum_returns results n :
  token_sum results = Ret n -> Forall summable results.
Proof.
  revert n. induction results as [|r rs IH]; intros n H; [constructor|].
  destruct r as [p t m [[tk]|] a | p e t]; simpl in H.
  - destruct tk; try discriminate;
      (destruct (token_sum rs) as [k|] eqn:E; [|discriminate]);
      (constructor; [simpl; discriminate|exact (IH k eq_refl)]).
  - discriminate.
  - constructor; [exact I|exact (IH n H)].
Qed.

Lemma token_sum_raises results e :
  token_sum results = Exn e -> e = AttributeError \/ e = TypeError.
Proof.
  induction results as [|r rs IH]; intros H; [discriminate|].
  destruct r as [p t m [[tk]|] a | p e' t]; simpl in H.
  - destruct tk.
    + destruct (token_sum rs); [discriminate|]. inversion H. subst. auto.
    + inversion H. auto.
    + destruct (token_sum rs); [discriminate|]. inversion H. subst. auto.
  - inversion H. auto.
  - auto.
Qed.

Lemma len_nil_iff {A} (l : list A) : len l = 0 <-> l = [].
Proof.
  unfold len. destruct l; simpl; split; intros H; try reflexivity;
    try discriminate; lia.
Qed.

(** C8.  On the empty list of results [_create_summary_report] divides by
    [len(results)], which is zero: ZeroDivisionError leaves the function
    after the three counts were written, and no complete report exists.  A
    batch whose output folder is made reaches this with
    [max_retry_rounds = 0] and one image to process. *)
Theorem summary_of_no_results_raises :
  (forall s,
      _create_summary_report [] s
      = Raised (written summary_file_name
                        [LTitle; LRule; LTotal 0; LSuccessful 0; LFailed 0] s)
               ZeroDivisionError) /\
  (forall delay_seconds self worlds prompt model s,
      exists s',
        batch_extract_from_folder Made delay_seconds self worlds prompt
                                  model 0 ["imgs/q1.jpeg"] false s
        = Raised s' ZeroDivisionError).
Proof.
  split.
  - intros s. reflexivity.
  - intros delay_seconds self worlds prompt model s. eexists.
    unfold batch_extract_from_folder.
    replace (discover ["imgs/q1.jpeg"]) with ["imgs/q1.jpeg"]
      by (vm_compute; reflexivity).
    unfold first_queue.
    replace (discover ["imgs/q1.jpeg"]) with ["imgs/q1.jpeg"]
      by (vm_compute; reflexivity).
    reflexivity.
Qed.

(** The report is written in full when there is a result and the report
    can count every success. *)
Lemma summary_report_written (results : list result) (s : store) :
  results <> [] ->
  Forall summable results ->
  exists body,
    _create_summary_report results s
    = Done (written summary_file_name
                    (body ++ [LTotalTokens (tokens_over_successes results)]) s)
           tt /\
    body = [LTitle; LRule; LTotal (len results);
            LSuccessful (success_count results);
            LFailed (failure_count results)]
           ++ [LSuccessRate (success_count results) (len results); LRule]
           ++ (if 0 <? failure_count results
               then LFailedHeader :: List.flat_map failed_item results
               else []).
Proof.
  intros Hne Hus. unfold _create_summary_report.
  destruct (len results =? 0) eqn:E.
  { apply Z.eqb_eq, len_nil_iff in E. contradiction. }
  rewrite (token_sum_present _ Hus).
  assert (Hf : len results - success_count results = failure_count results)
    by (pose proof (success_failure_count results); lia).
  rewrite Hf. eexists. split; reflexivity.
Qed.

(** No line of the report before the token total is a token total. *)
Lemma report_body_has_no_total (results : list result) (n : Z) :
  ~ In (LTotalTokens n)
       ([LTitle; LRule; LTotal (len results);
         LSuccessful (success_count results);
         LFailed (failure_count results)]
        ++ [LSuccessRate (success_count results) (len results); LRule]
        ++ (if 0 <? failure_count results
            then LFailedHeader :: List.flat_map failed_item results
            else [])).
Proof.
  intros Hin. simpl in Hin.
  repeat (destruct Hin as [Hin|Hin]; [discriminate Hin|]).
  destruct (0 <? failure_count results).
  - destruct Hin as [Hin|Hin]; [discriminate Hin|].
    apply in_flat_map in Hin as (r & _ & Hin).
    destruct r; simpl in Hin; [contradiction|].
    destruct Hin as [Hin|[]]. discriminate Hin.
  - contradiction.
Qed.



(** ** One image, image_text_extractor.py *)

Section ExtractorFacts.
Variable self : ImageTextExtractor.
Variable w : World.
Variable p : string.
Variable prompt : string.
Variable max_tokens : Z.
Variable max_retries : Z.

Local Abbreviation req_for b64 m :=
  (Extractor.payload prompt max_tokens b64 (Mime.get_image_mime_type p) m).
Local Abbreviation try_models retry b64 :=
  (Extractor.try_models w p prompt max_tokens retry max_retries b64
                        (Mime.get_image_mime_type p)).
Local Abbreviation extract retry model :=
  (extract_text_from_image self w p prompt max_tokens retry max_retries model).

Lemma try_models_rate_limited b64 n pre :
  forall rest attempt e t,
    (forall i m, pre !! i = Some m ->
                 Classify.rate_limited
                   (post w p (attempt + Z.of_nat i) (req_for b64 m)) = true) ->
    attempt + len pre <= n ->
    exists e' t',
      try_models true b64 n (pre ++ rest) attempt e t
      = (fallback_events p prompt max_tokens b64 pre
           ++ fst (try_models true b64 n rest (attempt + len pre) e' t'),
         snd (try_models true b64 n rest (attempt + len pre) e' t')) /\
      (pre = [] -> e' = e /\ t' = t).
Proof.
  induction pre as [|m0 pre IH]; intros rest attempt e t Hlim Hn.
  - exists e, t. unfold len; simpl. rewrite Z.add_0_r.
    split; [|tauto]. destruct (try_models true b64 n rest attempt e t).
    reflexivity.
  - simpl.
    pose proof (Hlim O m0 eq_refl) as H0. simpl in H0.
    rewrite Z.add_0_r in H0.
    destruct (post w p attempt (req_for b64 m0)) as [status body| | |];
      try discriminate H0.
    simpl in H0. apply Z.eqb_eq in H0. subst status.
    unfold len in Hn; simpl length in Hn.
    unfold one_attempt. change (raises_for_status 429) with true.
    change (429 =? 429) with true. cbv iota.
    replace (attempt <? n) with true by (symmetry; apply Z.ltb_lt; lia).
    simpl andb. cbv iota.
    destruct (IH rest (attempt + 1) (Some (HttpErrorText 429)) (Some "HTTPError"))
      as (e' & t' & Heq & _).
    + intros i m Hi. specialize (Hlim (S i) m Hi).
      replace (attempt + 1 + Z.of_nat i) with (attempt + Z.of_nat (S i)) by lia.
      exact Hlim.
    + unfold len. lia.
    + exists e', t'. rewrite Heq.
      replace (attempt + 1 + len pre) with (attempt + len (m0 :: pre))
        by (unfold len; simpl length; lia).
      split; [reflexivity|discriminate].
Qed.

(** A model that is given by name is the only one tried. *)
Lemma models_to_try_explicit m :
  m <> "" -> models_to_try self (Some m) = [m].
Proof.
  intros Hm. unfold models_to_try.
  destruct (String.eqb m "") eqn:E; [|reflexivity].
  apply String.eqb_eq in E. contradiction.
Qed.

Lemma try_models_single retry b64 n m attempt e t :
  exists tail r,
    try_models retry b64 n [m] attempt e t
    = (EvPost p (req_for b64 m) :: tail, r) /\
    (tail = [] \/ exists d, tail = [EvSleep d]).
Proof.
  simpl.
  destruct (one_attempt p retry max_retries n attempt _) as [r|d e' t'|e' t'].
  - exists [], r. split; [reflexivity|left; reflexivity].
  - exists [EvSleep d], (Failure p e' t'). split; [reflexivity|].
    right. exists d. reflexivity.
  - exists [], (Failure p e' t'). split; [reflexivity|left; reflexivity].
Qed.

End ExtractorFacts.

(** C9.  With a model given by name (a non-empty string), whatever the
    roster and whether or not retrying with other models is enabled, every
    request of the extraction names that model and there is at most one
    request; on a 429 or a 400 the extraction ends after that one request
    with a failure. *)
Theorem explicit_model_bypasses_roster
    (self : ImageTextExtractor) (w : World) (p prompt : string)
    (max_tokens : Z) (retry : bool) (max_retries : Z) (m : string) :
  m <> "" ->
  let run := extract_text_from_image self w p prompt max_tokens retry
                                     max_retries (Some m) in
  (forall q req, In (EvPost q req) (fst run) -> q = p /\ req_model req = m) /\
  (List.length (posts (fst run)) <= 1)%nat /\
  (forall b64,
      read_image w p = inr b64 ->
      let req := Extractor.payload prompt max_tokens b64
                                   (Mime.get_image_mime_type p) m in
      Classify.rate_limited (post w p 1 req) = true \/
      Classify.bad_request (post w p 1 req) = true ->
      fst run = [EvRead p; EvPost p req] /\ success (snd run) = false).
Proof.
  intros Hm run. subst run. unfold extract_text_from_image.
  rewrite (models_to_try_explicit self m Hm).
  destruct (read_image w p) as [[etype msg]|b64] eqn:Hread.
  - simpl. split; [|split].
    + intros q req [H|[]]. discriminate H.
    + lia.
    + intros b64 H. discriminate H.
  - destruct (try_models_single w p prompt max_tokens max_retries retry b64
                                (len [m]) m 1 None None)
      as (tail & r & Heq & Htail).
    rewrite Heq. simpl fst. simpl snd. split; [|split].
    + intros q req [H|[H|H]]; [discriminate H| |].
      * inversion H; subst. split; reflexivity.
      * destruct Htail as [->|[d ->]]; [destruct H|].
        destruct H as [H|[]]. discriminate H.
    + destruct Htail as [->|[d ->]]; simpl; lia.
    + intros b64' Hb64. cbv zeta. intros Hcls. inversion Hb64; subst b64'.
      simpl in Heq. unfold one_attempt in Heq.
      destruct (post w p 1 _) as [status body| | |];
        try (destruct Hcls as [Hcls|Hcls]; discriminate Hcls).
      assert (Hs : status = 429 \/ status = 400).
      { destruct Hcls as [Hcls|Hcls]; simpl in Hcls; apply Z.eqb_eq in Hcls;
          [left|right]; exact Hcls. }
      assert (Hlt : (1 <? len [m]) = false) by reflexivity.
      rewrite Hlt, andb_false_r in Heq.
      destruct Hs as [-> | ->]; simpl in Heq; inversion Heq; subst;
        split; reflexivity.
Qed.

(** C4.  With no model given by name and retrying with other models
    enabled, while the models of the roster answer 429 the client goes on to
    the next one, two seconds later; when the model after them answers with
    a completion the result is a success whose [attempts] is its position in
    the roster and whose [model] is the one the response reports.  For the
    roster [[A; B]] with 429 from [A] and a completion from [B] that reports
    [B]: a success with [attempts = 2] and [model = B], after one request to
    [A] and one to [B]. *)
Theorem rate_limit_falls_back :
  (forall (self : ImageTextExtractor) (w : World) (p prompt : string)
          (max_tokens max_retries : Z) (b64 : string)
          (pre : list string) (m : string) (rest : list string)
          (status : Z) (c : completion),
      let req := Extractor.payload prompt max_tokens b64
                                   (Mime.get_image_mime_type p) in
      vision_models self = pre ++ m :: rest ->
      read_image w p = inr b64 ->
      (forall i mi, pre !! i = Some mi ->
                    Classify.rate_limited
                      (post w p (1 + Z.of_nat i) (req mi)) = true) ->
      post w p (1 + len pre) (req m) = Response status (Completion c) ->
      raises_for_status status = false ->
      extract_text_from_image self w p prompt max_tokens true max_retries None
      = (EvRead p :: fallback_events p prompt max_tokens b64 pre
                ++ [EvPost p (req m)],
         Success p (content c) (reported_model c) (reported_usage c)
                 (1 + len pre))) /\
  (forall (self : ImageTextExtractor) (w : World) (p prompt : string)
          (max_tokens max_retries : Z) (b64 A B : string)
          (body : parsed) (c : completion),
      let req := Extractor.payload prompt max_tokens b64
                                   (Mime.get_image_mime_type p) in
      vision_models self = [A; B] ->
      read_image w p = inr b64 ->
      post w p 1 (req A) = Response 429 body ->
      post w p 2 (req B) = Response 200 (Completion c) ->
      reported_model c = Some B ->
      let run := extract_text_from_image self w p prompt max_tokens true
                                         max_retries None in
      snd run = Success p (content c) (Some B) (reported_usage c) 2 /\
      posts (fst run) = [EvPost p (req A); EvPost p (req B)]).
Proof.
  assert (General :
    forall self w p prompt max_tokens max_retries b64 pre m rest status c,
      let req := Extractor.payload prompt max_tokens b64
                                   (Mime.get_image_mime_type p) in
      vision_models self = pre ++ m :: rest ->
      read_image w p = inr b64 ->
      (forall i mi, pre !! i = Some mi ->
                    Classify.rate_limited
                      (post w p (1 + Z.of_nat i) (req mi)) = true) ->
      post w p (1 + len pre) (req m) = Response status (Completion c) ->
      raises_for_status status = false ->
      extract_text_from_image self w p prompt max_tokens true max_retries None
      = (EvRead p :: fallback_events p prompt max_tokens b64 pre
                ++ [EvPost p (req m)],
         Success p (content c) (reported_model c) (reported_usage c)
                 (1 + len pre))).
  { intros self w p prompt max_tokens max_retries b64 pre m rest status c req
           Hroster Hread Hpre Hm Hok.
    unfold extract_text_from_image. rewrite Hread.
    unfold models_to_try. rewrite Hroster.
    destruct (try_models_rate_limited w p prompt max_tokens max_retries b64
                (len (pre ++ m :: rest)) pre (m :: rest) 1 None None Hpre)
      as (e' & t' & Heq & _).
    { unfold len. rewrite length_app. simpl. lia. }
    rewrite Heq. simpl. fold req. rewrite Hm.
    unfold one_attempt. rewrite Hok. reflexivity. }
  split; [exact General|].
  intros self w p prompt max_tokens max_retries b64 A B body c req
         Hroster Hread HA HB Hrep run.
  assert (Heq : run = (EvRead p :: fallback_events p prompt max_tokens b64 [A]
                              ++ [EvPost p (req B)],
                       Success p (content c) (reported_model c)
                               (reported_usage c) (1 + len [A]))).
  { apply (General self w p prompt max_tokens max_retries b64 [A] B [] 200 c);
      try assumption; try reflexivity.
    intros i mi Hi. destruct i as [|i]; simpl in Hi.
    - inversion Hi; subst. change (1 + Z.of_nat 0) with 1. fold req.
      rewrite HA. reflexivity.
    - destruct i; discriminate Hi. }
  rewrite Heq, Hrep. split; reflexivity.
Qed.

(** ** One image, extract_images.py *)

Section ExtractImagesFacts.
Variable w : World.
Variable p : string.
Variable model : string.
Variable max_retries : Z.
Variable req : request.

Local Abbreviation one_attempt := (ExtractImages.one_attempt max_retries).
Local Abbreviation retry_loop := (ExtractImages.retry_loop w p max_retries req).

Lemma one_attempt_backs_off a r :
  transient_or_server r = true ->
  a < max_retries - 1 ->
  one_attempt a r = ExtractImages.Continue (2 ^ a).
Proof.
  intros Hc Ha. apply Z.ltb_lt in Ha.
  destruct r as [status body| | |]; simpl in Hc; try discriminate Hc.
  - apply andb_true_iff in Hc as [H1 H2].
    apply Z.leb_le in H1. apply Z.ltb_lt in H2.
    unfold ExtractImages.one_attempt.
    replace (status =? 429) with false by (symmetry; apply Z.eqb_neq; lia).
    replace (status >=? 500) with true by (symmetry; apply Z.geb_le; lia).
    rewrite Ha. reflexivity.
  - unfold ExtractImages.one_attempt, ExtractImages.backoff. rewrite Ha.
    reflexivity.
  - unfold ExtractImages.one_attempt, ExtractImages.backoff. rewrite Ha.
    reflexivity.
Qed.

Lemma one_attempt_gives_up a r :
  transient_or_server r = true ->
  max_retries - 1 <= a ->
  exists msg, one_attempt a r = ExtractImages.Return (None, Some msg).
Proof.
  intros Hc Ha.
  assert (Hlt : (a <? max_retries - 1) = false) by (apply Z.ltb_ge; lia).
  destruct r as [status body| | |]; simpl in Hc; try discriminate Hc.
  - apply andb_true_iff in Hc as [H1 H2].
    apply Z.leb_le in H1. apply Z.ltb_lt in H2.
    unfold ExtractImages.one_attempt.
    replace (status =? 429) with false by (symmetry; apply Z.eqb_neq; lia).
    replace (status >=? 500) with true by (symmetry; apply Z.geb_le; lia).
    rewrite Hlt. eexists. reflexivity.
  - unfold ExtractImages.one_attempt, ExtractImages.backoff. rewrite Hlt.
    eexists. reflexivity.
  - unfold ExtractImages.one_attempt, ExtractImages.backoff. rewrite Hlt.
    eexists. reflexivity.
Qed.

Lemma retry_loop_backs_off pre :
  forall rest,
    (forall a, In a pre ->
               transient_or_server (post w p a req) = true /\
               a < max_retries - 1) ->
    retry_loop (pre ++ rest)
    = (backoff_events p req pre ++ fst (retry_loop rest), snd (retry_loop rest)).
Proof.
  induction pre as [|a pre IH]; intros rest H.
  - simpl. destruct (retry_loop rest). reflexivity.
  - simpl. destruct (H a (or_introl eq_refl)) as [Hc Ha].
    rewrite (one_attempt_backs_off _ _ Hc Ha).
    rewrite IH by (intros b Hb; apply H; right; exact Hb).
    simpl. rewrite Z.mul_1_l. reflexivity.
Qed.

Lemma retry_loop_posts attempts :
  (List.length (posts (fst (retry_loop attempts))) <= List.length attempts)%nat /\
  (forall q r, In (EvPost q r) (fst (retry_loop attempts)) -> q = p /\ r = req).
Proof.
  induction attempts as [|a rest [IHn IHin]]; simpl.
  - split; [lia|]. intros q r [].
  - destruct (one_attempt a _) as [r0|d]; simpl.
    + split; [lia|]. intros q r [H|[]]. inversion H. split; reflexivity.
    + destruct (retry_loop rest) as [evs r0]. simpl in *. split; [lia|].
      intros q r [H|[H|H]]; [inversion H; split; reflexivity|discriminate H|].
      apply IHin. exact H.
Qed.

Lemma retry_loop_head a rest :
  exists tail, fst (retry_loop (a :: rest)) = EvPost p req :: tail.
Proof.
  simpl. destruct (one_attempt a _) as [r0|d]; simpl.
  - eexists. reflexivity.
  - destruct (retry_loop rest). simpl. eexists. reflexivity.
Qed.

End ExtractImagesFacts.

Lemma range_split (k : nat) (n : Z) :
  (k <= Z.to_nat n)%nat ->
  ExtractImages.range n
  = ExtractImages.range (Z.of_nat k)
      ++ List.map Z.of_nat (List.seq k (Z.to_nat n - k)).
Proof.
  intros H. unfold ExtractImages.range. rewrite Nat2Z.id.
  replace (Z.to_nat n) with (k + (Z.to_nat n - k))%nat at 1 by lia.
  rewrite seq_app, map_app. reflexivity.
Qed.

Lemma in_range a n : In a (ExtractImages.range n) <-> 0 <= a < n.
Proof.
  unfold ExtractImages.range. rewrite in_map_iff. split.
  - intros (i & <- & Hi). apply in_seq in Hi. lia.
  - intros H. exists (Z.to_nat a). split; [lia|]. apply in_seq. lia.
Qed.



(** ** File names of the output folder *)

Lemma list_ascii_of_string_app (a b : string) :
  list_ascii_of_string (a +:+ b)
  = list_ascii_of_string a ++ list_ascii_of_string b.
Proof.
  induction a as [|c a IH]; [reflexivity|].
  change (String c a +:+ b) with (String c (a +:+ b)).
  simpl. rewrite IH. reflexivity.
Qed.

(** Two names with tails of equal length are equal only if the tails
    are. *)
Lemma append_tail_eq (a b x y : string) :
  String.length x = String.length y ->
  a +:+ x = b +:+ y -> a = b /\ x = y.
Proof.
  intros Hlen Heq.
  apply (f_equal list_ascii_of_string) in Heq.
  rewrite !list_ascii_of_string_app in Heq.
  apply app_inj_2 in Heq.
  - destruct Heq as [Ha Hx].
    apply (f_equal string_of_list_ascii) in Ha, Hx.
    rewrite !string_of_list_ascii_of_string in Ha, Hx. split; assumption.
  - rewrite <- (string_of_list_ascii_of_string x) in Hlen.
    rewrite <- (string_of_list_ascii_of_string y) in Hlen.
    revert Hlen. generalize (list_ascii_of_string x) (list_ascii_of_string y).
    intros l1. induction l1 as [|c l1 IH]; intros [|d l2]; simpl; intros H;
      try reflexivity; try discriminate. f_equal. apply IH. lia.
Qed.

Lemma append_assoc (a b c : string) : (a +:+ b) +:+ c = a +:+ (b +:+ c).
Proof.
  induction a as [|ch a IH]; [reflexivity|].
  change (String ch a +:+ b) with (String ch (a +:+ b)).
  change (String ch (a +:+ b) +:+ c) with (String ch ((a +:+ b) +:+ c)).
  change (String ch a +:+ (b +:+ c)) with (String ch (a +:+ (b +:+ c))).
  rewrite IH. reflexivity.
Qed.

Lemma output_file_name_inj p q :
  output_file_name p = output_file_name q -> PyPath.stem p = PyPath.stem q.
Proof.
  unfold output_file_name. intros H.
  apply append_tail_eq in H; [tauto|reflexivity].
Qed.

Lemma error_file_name_inj p q :
  error_file_name p = error_file_name q -> PyPath.stem p = PyPath.stem q.
Proof.
  unfold error_file_name. intros H.
  apply append_tail_eq in H; [tauto|reflexivity].
Qed.

Lemma output_is_not_error p q : output_file_name p <> error_file_name q.
Proof.
  unfold output_file_name, error_file_name. intros H.
  change "_extracted.txt" with ("_ext" +:+ "racted.txt") in H.
  rewrite <- append_assoc in H.
  apply append_tail_eq in H; [|reflexivity].
  destruct H as [_ H]. discriminate H.
Qed.

Lemma summary_is_not_output p : summary_file_name <> output_file_name p.
Proof.
  unfold output_file_name, summary_file_name. intros H.
  change "summary_report.txt" with ("summ" +:+ "ary_report.txt") in H.
  apply append_tail_eq in H; [|reflexivity].
  destruct H as [_ H]. discriminate H.
Qed.

Lemma summary_is_not_error p : summary_file_name <> error_file_name p.
Proof.
  unfold error_file_name, summary_file_name. intros H.
  change "summary_report.txt" with ("summary_" +:+ "report.txt") in H.
  apply append_tail_eq in H; [|reflexivity].
  destruct H as [_ H]. discriminate H.
Qed.

(** ** Reasoning about runs *)

Lemma job_events_app j a b :
  job_events j (a ++ b) = job_events j a ++ job_events j b.
Proof. unfold job_events. apply List.filter_app. Qed.

Lemma grows_refl j s : grows j [] s s.
Proof. exists []. rewrite app_nil_r. split; reflexivity. Qed.

Lemma grows_trans j a b s1 s2 s3 :
  grows j a s1 s2 -> grows j b s2 s3 -> grows j (a ++ b) s1 s3.
Proof.
  intros (e1 & H1 & F1) (e2 & H2 & F2). exists (e1 ++ e2).
  rewrite H2, H1, <- app_assoc, job_events_app, F1, F2.
  split; reflexivity.
Qed.

Lemma same_files_refl j s : same_files j s s.
Proof. split; reflexivity. Qed.

Lemma same_files_trans j s1 s2 s3 :
  same_files j s1 s2 -> same_files j s2 s3 -> same_files j s1 s3.
Proof. intros [A1 A2] [B1 B2]. split; congruence. Qed.

Lemma frame_refl j s : frame j s s.
Proof. split; [apply same_files_refl|apply grows_refl]. Qed.

Lemma frame_trans j s1 s2 s3 : frame j s1 s2 -> frame j s2 s3 -> frame j s1 s3.
Proof.
  intros [A1 A2] [B1 B2]. split.
  - eapply same_files_trans; eassumption.
  - apply (grows_trans j [] [] s1 s2 s3); assumption.
Qed.

Lemma frame_emit j evs s :
  job_events j evs = [] -> frame j s {| fs := fs s; log := log s ++ evs |}.
Proof.
  intros H. split; [split; reflexivity|]. exists evs. split; [reflexivity|exact H].
Qed.

Lemma frame_written j f lines s :
  f <> output_file_name j -> f <> error_file_name j ->
  frame j s (written f lines s).
Proof.
  intros H1 H2. split; [split|].
  - simpl. apply lookup_insert_ne. exact H1.
  - simpl. apply lookup_insert_ne. exact H2.
  - exists [EvWrite f]. split; [reflexivity|]. simpl.
    apply String.eqb_neq in H1, H2. rewrite H1, H2. reflexivity.
Qed.

Lemma keeps_ret {A} (R : store -> store -> Prop) (a : A) (Q : A -> Prop) :
  (forall s, R s s) -> Q a -> keeps R (ret a) Q.
Proof. intros HR HQ s. simpl. split; [apply HR|exact HQ]. Qed.

Lemma keeps_bind {A B} (R : store -> store -> Prop) (m : M A) (k : A -> M B)
    (Q : A -> Prop) (Q' : B -> Prop) :
  (forall s1 s2 s3, R s1 s2 -> R s2 s3 -> R s1 s3) ->
  keeps R m Q ->
  (forall a, Q a -> keeps R (k a) Q') ->
  keeps R (bind m k) Q'.
Proof.
  intros Htrans Hm Hk s. unfold bind. specialize (Hm s).
  destruct (m s) as [s1 a|s1 e]; [|exact Hm].
  destruct Hm as [HR HQ]. specialize (Hk a HQ s1).
  destruct (k a s1) as [s2 b|s2 e].
  - destruct Hk as [HR2 HQ2]. split; [eapply Htrans; eassumption|exact HQ2].
  - eapply Htrans; eassumption.
Qed.

Lemma keeps_weaken {A} (R : store -> store -> Prop) (m : M A)
    (Q Q' : A -> Prop) :
  keeps R m Q -> (forall a, Q a -> Q' a) -> keeps R m Q'.
Proof.
  intros Hm HQ s. specialize (Hm s). destruct (m s); [|exact Hm].
  destruct Hm. split; [assumption|apply HQ; assumption].
Qed.

Lemma keeps_emit j evs (Q : unit -> Prop) :
  job_events j evs = [] -> Q tt -> keeps (frame j) (emit evs) Q.
Proof. intros H HQ s. simpl. split; [apply frame_emit; exact H|exact HQ]. Qed.

Lemma keeps_sleep_delay j d (Q : unit -> Prop) :
  Q tt -> keeps (frame j) (sleep_delay d) Q.
Proof.
  intros HQ. destruct d as [|e]; simpl.
  - apply keeps_emit; [reflexivity|exact HQ].
  - intros s. apply frame_refl.
Qed.

Lemma keeps_write_file j f lines (Q : unit -> Prop) :
  f <> output_file_name j -> f <> error_file_name j -> Q tt ->
  keeps (frame j) (write_file f lines) Q.
Proof.
  intros H1 H2 HQ s. simpl. split; [apply frame_written; assumption|exact HQ].
Qed.

Lemma keeps_write_then_raise {A} j f lines e (Q : A -> Prop) :
  f <> output_file_name j -> f <> error_file_name j ->
  keeps (frame j) (write_then_raise f lines e) Q.
Proof. intros H1 H2 s. simpl. apply frame_written; assumption. Qed.

(** The report touches the file of the report only. *)
Lemma summary_report_frame j results :
  keeps (frame j) (_create_summary_report results) (fun _ => True).
Proof.
  unfold _create_summary_report.
  destruct (len results =? 0).
  - apply keeps_write_then_raise;
      [apply summary_is_not_output|apply summary_is_not_error].
  - destruct (token_sum results).
    + apply keeps_write_file;
        [apply summary_is_not_output|apply summary_is_not_error|exact I].
    + apply keeps_write_then_raise;
        [apply summary_is_not_output|apply summary_is_not_error].
Qed.

(** *** What one extraction logs and returns *)

Section ExtractShape.
Variable self : ImageTextExtractor.
Variable w : World.
Variable p : string.
Variable prompt : string.
Variable max_tokens : Z.
Variable retry : bool.
Variable max_retries : Z.

Lemma one_attempt_returns n attempt rep r :
  one_attempt p retry max_retries n attempt rep = Return r ->
  image_path_of r = p.
Proof.
  unfold one_attempt. intros H.
  destruct rep as [status body|et msg|et msg|et msg];
    repeat match type of H with
           | context [if ?c then _ else _] => destruct c
           | context [match ?b with NotJson => _ | _ => _ end] => destruct b
           end;
    try discriminate H; inversion H; reflexivity.
Qed.

Lemma try_models_shape b64 mime n rest :
  forall attempt e t,
    let run := Extractor.try_models w p prompt max_tokens retry max_retries
                 b64 mime n rest attempt e t in
    Forall (own_event p) (fst run) /\ image_path_of (snd run) = p.
Proof.
  induction rest as [|m rest IH]; intros attempt e t; simpl.
  - split; [constructor|reflexivity].
  - destruct (one_attempt p retry max_retries n attempt _)
      as [r|d e' t'|e' t'] eqn:E; simpl.
    + split; [|eapply one_attempt_returns; exact E].
      constructor; [right; left; eexists; reflexivity|constructor].
    + specialize (IH (attempt + 1) e' t'). simpl in IH.
      destruct (Extractor.try_models w p prompt max_tokens retry max_retries
                  b64 mime n rest (attempt + 1) e' t') as [evs r].
      destruct IH as [IH1 IH2]. simpl. split; [|exact IH2].
      constructor; [right; left; eexists; reflexivity|].
      constructor; [right; right; eexists; reflexivity|exact IH1].
    + split; [|reflexivity].
      constructor; [right; left; eexists; reflexivity|constructor].
Qed.

Lemma extract_shape model :
  let run := extract_text_from_image self w p prompt max_tokens retry
                                     max_retries model in
  Forall (own_event p) (fst run) /\ image_path_of (snd run) = p.
Proof.
  unfold extract_text_from_image.
  destruct (read_image w p) as [[etype msg]|b64]; simpl.
  - split; [|reflexivity].
    constructor; [left; reflexivity|constructor].
  - pose proof (try_models_shape b64 (Mime.get_image_mime_type p)
                  (len (models_to_try self model)) (models_to_try self model)
                  1 None None) as H.
    simpl in H. destruct (Extractor.try_models _ _ _ _ _ _ _ _ _ _ _ _ _).
    destruct H as [H1 H2]. simpl. split; [|exact H2].
    constructor; [left; reflexivity|exact H1].
Qed.

End ExtractShape.

Lemma own_events_of_other j p evs :
  p <> j -> Forall (own_event p) evs -> job_events j evs = [].
Proof.
  intros Hne H. induction H as [|e evs He _ IH]; [reflexivity|].
  simpl. rewrite IH.
  apply String.eqb_neq in Hne.
  destruct He as [->|[[req ->]|[d ->]]]; simpl; try rewrite Hne; reflexivity.
Qed.

(** ** The batch *)

Section BatchFacts.
Variable output_folder : folder.
Variable delay_seconds : delay.
Variable self : ImageTextExtractor.
Variable worlds : Z -> World.
Variable prompt : string.
Variable model : option string.
Variable max_retry_rounds : Z.

Local Abbreviation extract := (Batch.extract self worlds prompt model).
Local Abbreviation process_one :=
  (Batch.process_one delay_seconds self worlds prompt model max_retry_rounds).
Local Abbreviation for_batch :=
  (Batch.for_batch delay_seconds self worlds prompt model max_retry_rounds).
Local Abbreviation retry_rounds :=
  (Batch.retry_rounds delay_seconds self worlds prompt model max_retry_rounds).
Local Abbreviation batch_extract_from_folder :=
  (Batch.batch_extract_from_folder output_folder delay_seconds self worlds
                                   prompt model max_retry_rounds).
Local Abbreviation result_of := (res self worlds prompt model).

Lemma extract_events_of_other j r p :
  p <> j -> job_events j (fst (extract r p)) = [].
Proof.
  intros Hne. apply (own_events_of_other j p); [exact Hne|].
  apply extract_shape.
Qed.

Lemma res_path r p : image_path_of (result_of r p) = p.
Proof. apply extract_shape. Qed.

Lemma process_one_frame j r n i p st :
  PyPath.stem p <> PyPath.stem j ->
  keeps (frame j) (process_one r n i p st)
        (fun st' => forall q, In q (fst st') -> In q (fst st) \/ q = p).
Proof.
  intros Hstem.
  assert (Hne : p <> j) by congruence.
  assert (Hout : output_file_name p <> output_file_name j)
    by (intros H; apply Hstem, output_file_name_inj, H).
  assert (Herr : error_file_name p <> error_file_name j)
    by (intros H; apply Hstem, error_file_name_inj, H).
  assert (Hoe : output_file_name p <> error_file_name j)
    by apply output_is_not_error.
  assert (Heo : error_file_name p <> output_file_name j)
    by (intros H; symmetry in H; revert H; apply output_is_not_error).
  unfold Batch.process_one. destruct st as [q rs].
  pose proof (extract_events_of_other j r p Hne) as Hevs.
  destruct (extract r p) as [evs outcome]. simpl in Hevs.
  apply keeps_bind with (Q := fun _ => True);
    [apply frame_trans|apply keeps_emit; [exact Hevs|exact I]|].
  intros _ _.
  apply keeps_bind
    with (Q := fun st' : list string * list result =>
                 forall x, In x (fst st') -> In x q \/ x = p);
    [apply frame_trans| |].
  - destruct outcome as [ip text m u a|ip e t].
    + apply keeps_bind with (Q := fun _ => True); [apply frame_trans| |].
      * unfold save_success. destruct text; [destruct u|].
        -- apply keeps_write_file; [exact Hout|exact Hoe|exact I].
        -- apply keeps_write_then_raise; [exact Hout|exact Hoe].
        -- apply keeps_write_then_raise; [exact Hout|exact Hoe].
      * intros _ _. apply keeps_ret; [apply frame_refl|]. simpl. tauto.
    + destruct (r <? max_retry_rounds - 1).
      * apply keeps_ret; [apply frame_refl|]. simpl. intros x Hx.
        apply in_app_or in Hx as [Hx|[Hx|[]]]; [left; exact Hx|right; congruence].
      * apply keeps_bind with (Q := fun _ => True); [apply frame_trans| |].
        -- unfold save_error. apply keeps_write_file; [exact Heo|exact Herr|exact I].
        -- intros _ _. apply keeps_ret; [apply frame_refl|]. simpl. tauto.
  - intros st' Hst'.
    apply keeps_bind with (Q := fun _ => True); [apply frame_trans| |].
    + destruct (i <? n).
      * apply keeps_sleep_delay. exact I.
      * apply keeps_ret; [apply frame_refl|exact I].
    + intros _ _. apply keeps_ret; [apply frame_refl|exact Hst'].
Qed.

Lemma for_batch_frame j r n rest :
  forall i st,
    Forall (fun p => PyPath.stem p <> PyPath.stem j) rest ->
    keeps (frame j) (for_batch r n i rest st)
          (fun st' => forall q, In q (fst st') -> In q (fst st) \/ In q rest).
Proof.
  induction rest as [|p rest IH]; intros i st Hall; simpl.
  - apply keeps_ret; [apply frame_refl|]. tauto.
  - inversion Hall as [|? ? Hp Hrest]; subst.
    eapply keeps_bind; [apply frame_trans|apply process_one_frame; exact Hp|].
    intros st' Hst'. simpl in Hst'.
    eapply keeps_weaken; [apply IH; exact Hrest|].
    intros st'' Hst'' x Hx. simpl.
    destruct (Hst'' x Hx) as [H|H]; [|tauto].
    destruct (Hst' x H) as [H'|H']; [tauto|]. subst. tauto.
Qed.

Lemma retry_rounds_frame j rounds_left :
  forall r queue rs,
    Forall (fun p => PyPath.stem p <> PyPath.stem j) queue ->
    keeps (frame j) (retry_rounds rounds_left r queue rs) (fun _ => True).
Proof.
  induction rounds_left as [|left' IH]; intros r queue rs Hall; simpl.
  - apply keeps_ret; [apply frame_refl|exact I].
  - destruct (negb (len queue =? 0) && (r <? max_retry_rounds)).
    + eapply keeps_bind;
        [apply frame_trans|apply (for_batch_frame j); exact Hall|].
      intros [queue' rs'] Hq. simpl in Hq.
      apply keeps_bind with (Q := fun _ => True); [apply frame_trans| |].
      * destruct (negb (len queue' =? 0)).
        -- apply keeps_emit; [reflexivity|exact I].
        -- apply keeps_ret; [apply frame_refl|exact I].
      * intros _ _. apply IH. apply List.Forall_forall. intros x Hx.
        destruct (Hq x Hx) as [[]|Hx'].
        rewrite List.Forall_forall in Hall. apply Hall. exact Hx'.
    + apply keeps_ret; [apply frame_refl|exact I].
Qed.

Lemma files_to_process_spec s image_files p :
  In p (files_to_process s image_files) <->
  In p image_files /\ fs s !! output_file_name p = None.
Proof.
  unfold files_to_process, file_exists. rewrite List.filter_In.
  destruct (fs s !! output_file_name p); simpl; split; intros [H1 H2];
    split; try assumption; try reflexivity; discriminate.
Qed.

Lemma batch_frame j globbed s :
  is_Some (fs s !! output_file_name j) ->
  frame j s (final_store (batch_extract_from_folder globbed true s)).
Proof.
  intros Hsome. unfold Batch.batch_extract_from_folder.
  destruct output_folder as [|e]; [|apply frame_refl].
  destruct (discover globbed) as [|f0 fl] eqn:Ed; [apply frame_refl|].
  unfold first_queue. rewrite Ed.
  destruct (files_to_process s (f0 :: fl)) as [|g0 gl] eqn:Eq;
    [apply frame_refl|].
  assert (Hall : Forall (fun p => PyPath.stem p <> PyPath.stem j) (g0 :: gl)).
  { apply List.Forall_forall. intros x Hx. rewrite <- Eq in Hx.
    apply files_to_process_spec in Hx as [_ Hnone].
    intros Hst. unfold output_file_name in *. rewrite Hst in Hnone.
    rewrite Hnone in Hsome. destruct Hsome as [? H]. discriminate H. }
  pose proof (keeps_bind (frame j)
                (retry_rounds (Z.to_nat max_retry_rounds) 0 (g0 :: gl) [])
                (fun out => let '(all_results, _, _) := out in
                            run! _ := _create_summary_report all_results in
                            ret all_results)
                (fun _ => True) (fun _ => True) (frame_trans j)
                (retry_rounds_frame j _ 0 (g0 :: gl) [] Hall)) as H.
  specialize (H (fun out _ =>
    match out with
    | (all_results, _, _) =>
        keeps_bind (frame j) _ _ (fun _ => True) (fun _ => True)
                   (frame_trans j) (summary_report_frame j all_results)
                   (fun _ _ => keeps_ret (frame j) all_results (fun _ => True)
                                         (frame_refl j) I)
    end) s).
  destruct (bind _ _ s); [apply H|exact H].
Qed.

End BatchFacts.

(** C6.  With [skip_existing] set, an image whose text file is already in
    the output folder is not in the queue of round 0; whatever the service
    answers for the other images, and whether the batch returns or raises,
    the batch neither reads that image nor sends a request for it nor writes
    its text file, and the file is in the end what it was. *)
Theorem rerun_skips_extracted
    (output_folder : folder) (delay_seconds : delay)
    (self : ImageTextExtractor) (worlds : Z -> World) (prompt : string)
    (model : option string) (max_retry_rounds : Z)
    (globbed : list string) (s : store) (j : string) (lines : list line) :
  fs s !! output_file_name j = Some lines ->
  let outcome := batch_extract_from_folder output_folder delay_seconds self
                   worlds prompt model max_retry_rounds globbed true s in
  ~ In j (first_queue s true globbed) /\
  fs (final_store outcome) !! output_file_name j = Some lines /\
  exists evs,
    log (final_store outcome) = log s ++ evs /\
    ~ In (EvRead j) evs /\
    (forall req, ~ In (EvPost j req) evs) /\
    ~ In (EvWrite (output_file_name j)) evs.
Proof.
  intros Hfile outcome. split; [|split].
  - unfold first_queue. intros Hin.
    apply files_to_process_spec in Hin as [_ Hnone]. congruence.
  - destruct (batch_frame output_folder delay_seconds self worlds prompt
                          model max_retry_rounds j globbed s)
      as [[Hout _] _]; [eexists; exact Hfile|].
    subst outcome. rewrite Hout. exact Hfile.
  - destruct (batch_frame output_folder delay_seconds self worlds prompt
                          model max_retry_rounds j globbed s)
      as [_ (evs & Hlog & Hevs)]; [eexists; exact Hfile|].
    exists evs. split; [exact Hlog|].
    assert (Hno : forall e, In e evs -> about j e = false).
    { intros e He. destruct (about j e) eqn:E; [|reflexivity].
      assert (Hin : In e (job_events j evs))
        by (apply List.filter_In; split; assumption).
      rewrite Hevs in Hin. destruct Hin. }
    split; [|split].
    + intros H. apply Hno in H. simpl in H. rewrite String.eqb_refl in H.
      discriminate H.
    + intros req H. apply Hno in H. simpl in H. rewrite String.eqb_refl in H.
      discriminate H.
    + intros H. apply Hno in H. simpl in H. rewrite String.eqb_refl in H.
      discriminate H.
Qed.

(** *** Rounds, job by job *)

Lemma bind_done {A B} (m : M A) (k : A -> M B) s s' b :
  bind m k s = Done s' b ->
  exists s1 a, m s = Done s1 a /\ k a s1 = Done s' b.
Proof.
  unfold bind. destruct (m s) as [s1 a|s1 e]; intros H; [|discriminate H].
  exists s1, a. split; [reflexivity|exact H].
Qed.

Lemma keeps_done {A} (R : store -> store -> Prop) (m : M A) (Q : A -> Prop)
    s s' a :
  keeps R m Q -> m s = Done s' a -> R s s' /\ Q a.
Proof. intros H E. specialize (H s). rewrite E in H. exact H. Qed.

Lemma NoDup_map_filter {A B} (f : A -> B) (g : A -> bool) (l : list A) :
  List.NoDup (List.map f l) -> List.NoDup (List.map f (List.filter g l)).
Proof.
  induction l as [|x l IH]; simpl; intros H; [constructor|].
  apply List.NoDup_cons_iff in H as [Hx Hl].
  destruct (g x); simpl; [|apply IH; exact Hl].
  apply List.NoDup_cons_iff. split; [|apply IH; exact Hl].
  intros Hin. apply Hx. apply in_map_iff in Hin as (y & Hy & Hin).
  apply in_map_iff. exists y. split; [exact Hy|].
  apply List.filter_In in Hin. tauto.
Qed.

Lemma NoDup_map_inv {A B} (f : A -> B) (l : list A) :
  List.NoDup (List.map f l) -> List.NoDup l.
Proof.
  induction l as [|x l IH]; simpl; intros H; [constructor|].
  apply List.NoDup_cons_iff in H as [Hx Hl].
  apply List.NoDup_cons_iff. split; [|apply IH; exact Hl].
  intros Hin. apply Hx. apply in_map. exact Hin.
Qed.

Section BatchRuns.
Variable delay_seconds : delay.
Variable self : ImageTextExtractor.
Variable worlds : Z -> World.
Variable prompt : string.
Variable model : option string.
Variable max_retry_rounds : Z.

Local Abbreviation extract := (Batch.extract self worlds prompt model).
Local Abbreviation process_one :=
  (Batch.process_one delay_seconds self worlds prompt model max_retry_rounds).
Local Abbreviation for_batch :=
  (Batch.for_batch delay_seconds self worlds prompt model max_retry_rounds).
Local Abbreviation retry_rounds :=
  (Batch.retry_rounds delay_seconds self worlds prompt model max_retry_rounds).
Local Abbreviation result_of := (res self worlds prompt model).
Local Abbreviation fails := (failed self worlds prompt model).
Local Abbreviation is_final := (final_round max_retry_rounds).
Local Abbreviation requeued_in :=
  (requeued self worlds prompt model max_retry_rounds).
Local Abbreviation recorded_in :=
  (recorded self worlds prompt model max_retry_rounds).
Local Abbreviation round_events_of :=
  (round_events self worlds prompt model max_retry_rounds).
Local Abbreviation error_lines_of := (error_lines self worlds prompt model).

Lemma process_one_value r n i p q rs s s' v :
  process_one r n i p (q, rs) s = Done s' v ->
  v = if fails r p
      then if is_final r then (q, rs ++ [result_of r p]) else (q ++ [p], rs)
      else (q, rs ++ [result_of r p]).
Proof.
  unfold Batch.process_one, failed, res,
    final_round, bind, emit, ret, save_success, save_error,
    write_file, write_then_raise, sleep_delay.
  destruct (extract r p) as [evs [ip [text|] m [u|] a|ip e t]]; simpl;
    destruct (r <? max_retry_rounds - 1); destruct (i <? n);
    destruct delay_seconds; simpl;
    intros H; inversion H; reflexivity.
Qed.

(** With a delay that pauses, the body of the loop returns for an image
    whose result is complete. *)
Lemma process_one_done r n i p st s :
  complete (result_of r p) ->
  exists s' v,
    Batch.process_one Pauses self worlds prompt model max_retry_rounds
                      r n i p st s
    = Done s' v.
Proof.
  unfold Batch.process_one, res, bind, emit, ret, save_success,
    save_error, write_file, write_then_raise, sleep_delay.
  destruct st as [q rs].
  destruct (extract r p) as [evs [ip [text|] m [u|] a|ip e t]]; simpl;
    intros Hu; try contradiction;
    destruct (r <? max_retry_rounds - 1); destruct (i <? n); simpl;
    eexists; eexists; reflexivity.
Qed.

Lemma process_one_job j r n i st s s' v :
  fails r j = true ->
  process_one r n i j st s = Done s' v ->
  grows j (round_events_of j r) s s' /\
  fs s' !! output_file_name j = fs s !! output_file_name j /\
  fs s' !! error_file_name j
  = if is_final r then Some (error_lines_of r j)
    else fs s !! error_file_name j.
Proof.
  unfold Batch.process_one, failed, round_events, error_lines,
    res, final_round, bind, emit, ret, save_success,
    save_error, write_file, write_then_raise, sleep_delay.
  destruct st as [q rs].
  destruct (extract r j) as [evs [ip text m u a|ip e t]]; simpl;
    intros Hf; [discriminate Hf|].
  assert (Hw : job_events j [EvWrite (error_file_name j)]
               = [EvWrite (error_file_name j)]).
  { unfold job_events. simpl. rewrite String.eqb_refl, orb_true_r.
    reflexivity. }
  assert (Hd : job_events j [EvDelay] = []) by reflexivity.
  destruct (r <? max_retry_rounds - 1);
    (destruct (i <? n); [destruct delay_seconds|]); simpl;
    intros H; inversion H; subst; simpl; (split; [|split]);
    try reflexivity;
    try (apply lookup_insert_eq);
    try (apply lookup_insert_ne; intros E; symmetry in E; revert E;
         apply output_is_not_error).
  - exists (evs ++ [EvDelay]).
    split; [simpl; rewrite <- ?app_assoc; reflexivity|].
    rewrite job_events_app, Hd. reflexivity.
  - exists evs. split; [reflexivity|]. rewrite app_nil_r. reflexivity.
  - exists (evs ++ [EvWrite (error_file_name j)] ++ [EvDelay]).
    split; [simpl; rewrite <- ?app_assoc; reflexivity|].
    rewrite !job_events_app, Hw, Hd. reflexivity.
  - exists (evs ++ [EvWrite (error_file_name j)]).
    split; [simpl; rewrite <- ?app_assoc; reflexivity|].
    rewrite !job_events_app, Hw. reflexivity.
Qed.

Lemma for_batch_app r n l1 :
  forall l2 i st s,
    for_batch r n i (l1 ++ l2) st s
    = bind (for_batch r n i l1 st)
           (fun st' => for_batch r n (i + len l1) l2 st') s.
Proof.
  induction l1 as [|p l1 IH]; intros l2 i st s.
  - simpl. unfold bind, ret, len. simpl. rewrite Z.add_0_r. reflexivity.
  - simpl. unfold bind. destruct (process_one r n i p st s) as [s1 st1|];
      [|reflexivity].
    rewrite IH. unfold bind.
    replace (i + 1 + len l1) with (i + len (p :: l1))
      by (unfold len; simpl length; lia).
    reflexivity.
Qed.

Lemma for_batch_value r n rest :
  forall i q rs s s' v,
    for_batch r n i rest (q, rs) s = Done s' v ->
    v = (q ++ requeued_in r rest, rs ++ recorded_in r rest).
Proof.
  unfold requeued, recorded.
  induction rest as [|p rest IH]; intros i q rs s s' v H; simpl in H.
  - inversion H. simpl. destruct (is_final r); simpl;
      rewrite !app_nil_r; reflexivity.
  - apply bind_done in H as (s1 & st1 & H1 & H2).
    apply process_one_value in H1. subst st1.
    unfold failed in *. simpl.
    destruct (success (result_of r p)) eqn:Es; simpl in *.
    + apply IH in H2. subst v. destruct (is_final r); simpl;
        rewrite <- ?app_assoc; try rewrite Es; reflexivity.
    + destruct (is_final r); simpl in *; apply IH in H2; subst v;
        rewrite <- ?app_assoc; try rewrite Es; reflexivity.
Qed.

Lemma for_batch_done r n rest :
  forall i st s,
    Forall (fun p => complete (result_of r p)) rest ->
    exists s' v,
      Batch.for_batch Pauses self worlds prompt model max_retry_rounds
                      r n i rest st s
      = Done s' v.
Proof.
  induction rest as [|p rest IH]; intros i st s Hall; simpl.
  - eexists; eexists; reflexivity.
  - inversion Hall as [|? ? Hp Hrest]; subst.
    destruct (process_one_done r n i p st s Hp) as (s1 & st1 & H1).
    unfold bind. rewrite H1. apply IH. exact Hrest.
Qed.

Lemma for_batch_job j r n batch :
  forall i st s s' v,
    List.NoDup (List.map PyPath.stem batch) ->
    In j batch ->
    fails r j = true ->
    for_batch r n i batch st s = Done s' v ->
    grows j (round_events_of j r) s s' /\
    fs s' !! output_file_name j = fs s !! output_file_name j /\
    fs s' !! error_file_name j
    = if is_final r then Some (error_lines_of r j)
      else fs s !! error_file_name j.
Proof.
  intros i st s s' v Hnd Hin Hf H.
  apply in_split in Hin as (l1 & l2 & ->).
  rewrite map_app in Hnd. simpl in Hnd.
  assert (H1 : Forall (fun p => PyPath.stem p <> PyPath.stem j) l1).
  { apply List.Forall_forall. intros x Hx Hst.
    apply List.NoDup_remove_2 in Hnd. apply Hnd. apply in_or_app. left.
    rewrite <- Hst. apply in_map. exact Hx. }
  assert (H2 : Forall (fun p => PyPath.stem p <> PyPath.stem j) l2).
  { apply List.Forall_forall. intros x Hx Hst.
    apply List.NoDup_remove_2 in Hnd. apply Hnd. apply in_or_app. right.
    rewrite <- Hst. apply in_map. exact Hx. }
  rewrite for_batch_app in H.
  apply bind_done in H as (s1 & st1 & Ha & Hb).
  simpl in Hb. apply bind_done in Hb as (s2 & st2 & Hb & Hc).
  destruct (keeps_done _ _ _ _ _ _
              (for_batch_frame delay_seconds self worlds prompt model max_retry_rounds
                 j r n l1 i st H1) Ha) as [[[Fo1 Fe1] G1] _].
  destruct (keeps_done _ _ _ _ _ _
              (for_batch_frame delay_seconds self worlds prompt model max_retry_rounds
                 j r n l2 _ st2 H2) Hc) as [[[Fo3 Fe3] G3] _].
  destruct (process_one_job j r n _ st1 s1 s2 st2 Hf Hb) as (G2 & Fo2 & Fe2).
  split; [|split].
  - pose proof (grows_trans _ _ _ _ _ _ (grows_trans _ _ _ _ _ _ G1 G2) G3)
      as G.
    simpl in G. rewrite app_nil_r in G. exact G.
  - congruence.
  - rewrite Fe3, Fe2. destruct (is_final r); [reflexivity|exact Fe1].
Qed.

End BatchRuns.

(** *** The loop over the rounds *)

Lemma results_of_app j a b :
  results_of j (a ++ b) = results_of j a ++ results_of j b.
Proof. unfold results_of. apply List.filter_app. Qed.

Lemma error_writes_of_job_events j evs :
  List.filter (is_error_write j) (job_events j evs)
  = List.filter (is_error_write j) evs.
Proof.
  unfold job_events. induction evs as [|e evs IH]; [reflexivity|].
  simpl. destruct (about j e) eqn:Ea; simpl; rewrite IH.
  - reflexivity.
  - destruct e; simpl in *; try reflexivity.
    apply orb_false_iff in Ea as [_ Ea]. rewrite Ea. reflexivity.
Qed.

Lemma error_writes_of_own j p evs :
  Forall (own_event p) evs -> List.filter (is_error_write j) evs = [].
Proof.
  induction 1 as [|e evs He _ IH]; [reflexivity|].
  simpl. rewrite IH.
  destruct He as [->|[[req ->]|[d ->]]]; reflexivity.
Qed.

Section RoundFacts.
Variable delay_seconds : delay.
Variable self : ImageTextExtractor.
Variable worlds : Z -> World.
Variable prompt : string.
Variable model : option string.
Variable max_retry_rounds : Z.

Local Abbreviation extract := (Batch.extract self worlds prompt model).
Local Abbreviation for_batch :=
  (Batch.for_batch delay_seconds self worlds prompt model max_retry_rounds).
Local Abbreviation retry_rounds :=
  (Batch.retry_rounds delay_seconds self worlds prompt model max_retry_rounds).
Local Abbreviation result_of := (res self worlds prompt model).
Local Abbreviation fails := (failed self worlds prompt model).
Local Abbreviation is_final := (final_round max_retry_rounds).
Local Abbreviation requeued_in :=
  (requeued self worlds prompt model max_retry_rounds).
Local Abbreviation recorded_in :=
  (recorded self worlds prompt model max_retry_rounds).
Local Abbreviation round_events_of :=
  (round_events self worlds prompt model max_retry_rounds).
Local Abbreviation rounds_events_of :=
  (rounds_events self worlds prompt model max_retry_rounds).
Local Abbreviation error_lines_of := (error_lines self worlds prompt model).
Local Abbreviation round_queue_of := (round_queue self worlds prompt model).

Lemma round_queue_shift first queue k :
  round_queue_of first queue (S k)
  = round_queue_of (first + 1) (List.filter (fails first) queue) k.
Proof.
  induction k as [|k IH].
  - simpl. rewrite Z.add_0_r. reflexivity.
  - change (round_queue_of first queue (S (S k)))
      with (List.filter (fails (first + Z.of_nat (S k)))
                        (round_queue_of first queue (S k))).
    rewrite IH. simpl.
    replace (first + 1 + Z.of_nat k) with (first + Z.of_nat (S k)) by lia.
    reflexivity.
Qed.

Lemma results_of_others j r l :
  ~ In j l -> results_of j (List.map (result_of r) l) = [].
Proof.
  induction l as [|x l IH]; intros Hn; [reflexivity|].
  simpl. rewrite res_path.
  destruct (String.eqb x j) eqn:E.
  - apply String.eqb_eq in E. exfalso. apply Hn. left. exact E.
  - apply IH. intros H. apply Hn. right. exact H.
Qed.

Lemma results_of_job j r l :
  List.NoDup l -> In j l ->
  results_of j (List.map (result_of r) l) = [result_of r j].
Proof.
  induction l as [|x l IH]; intros Hnd Hin; [destruct Hin|].
  apply List.NoDup_cons_iff in Hnd as [Hx Hl].
  simpl. rewrite res_path.
  destruct (String.eqb x j) eqn:E.
  - apply String.eqb_eq in E. subst x.
    fold (results_of j (List.map (result_of r) l)).
    rewrite results_of_others by exact Hx. reflexivity.
  - apply String.eqb_neq in E. destruct Hin as [Hin|Hin]; [contradiction|].
    apply IH; assumption.
Qed.

Lemma results_of_successes j r l :
  fails r j = true ->
  results_of j (List.filter success (List.map (result_of r) l)) = [].
Proof.
  intros Hf. induction l as [|x l IH]; [reflexivity|].
  simpl. destruct (success (result_of r x)) eqn:Es; [|exact IH].
  simpl. rewrite res_path.
  destruct (String.eqb x j) eqn:E; [|exact IH].
  apply String.eqb_eq in E. subst x.
  unfold failed in Hf. rewrite Es in Hf. discriminate Hf.
Qed.

Lemma pause_frame j (b : bool) d s s' v :
  (if b then emit [EvSleep d] else ret tt) s = Done s' v -> frame j s s'.
Proof.
  destruct b; simpl; intros H; inversion H; subst.
  - apply frame_emit. reflexivity.
  - apply frame_refl.
Qed.

Lemma len_cons_nonzero {A} (x : A) l : (len (x :: l) =? 0) = false.
Proof. apply Z.eqb_neq. unfold len. simpl length. lia. Qed.

Lemma retry_rounds_job j rounds_left :
  forall r queue rs s s' out,
    Z.of_nat rounds_left = max_retry_rounds - r ->
    rounds_left <> O ->
    List.NoDup (List.map PyPath.stem queue) ->
    In j queue ->
    (forall k, r <= k < max_retry_rounds -> fails k j = true) ->
    retry_rounds rounds_left r queue rs s = Done s' out ->
    grows j (rounds_events_of j r rounds_left) s s' /\
    fs s' !! error_file_name j
    = Some (error_lines_of (max_retry_rounds - 1) j) /\
    fs s' !! output_file_name j = fs s !! output_file_name j /\
    results_of j (fst (fst out))
    = results_of j rs ++ [result_of (max_retry_rounds - 1) j] /\
    snd (fst out) = [] /\
    snd out = max_retry_rounds.
Proof.
  induction rounds_left as [|left' IH];
    intros r queue rs s s' out Hleft Hnz Hnd Hin Hfail H; [contradiction|].
  simpl in H.
  assert (Hq : (len queue =? 0) = false)
    by (destruct queue; [destruct Hin|apply len_cons_nonzero]).
  assert (Hr : (r <? max_retry_rounds) = true) by (apply Z.ltb_lt; lia).
  rewrite Hq, Hr in H. simpl in H.
  apply bind_done in H as (s1 & [q1 rs1] & Hfor & H).
  pose proof Hfor as Hv. apply for_batch_value in Hv.
  simpl in Hv. inversion Hv; subst q1 rs1. clear Hv.
  assert (Hf : fails r j = true) by (apply Hfail; lia).
  destruct (for_batch_job delay_seconds self worlds prompt model
              max_retry_rounds j r _ queue _ _ _ _ _ Hnd Hin Hf Hfor)
    as (G1 & Fo1 & Fe1).
  apply bind_done in H as (s2 & u & Hp & H).
  apply (pause_frame j) in Hp. destruct Hp as [[Fo2 Fe2] G2].
  assert (Hndq : List.NoDup queue) by (eapply NoDup_map_inv; exact Hnd).
  destruct left' as [|left''].
  - assert (Efin : is_final r = true).
    { unfold final_round. apply negb_true_iff, Z.ltb_ge. lia. }
    simpl in H. inversion H; subst s' out. clear H. simpl.
    unfold requeued, recorded. rewrite Efin. rewrite Efin in Fe1.
    rewrite app_nil_r.
    pose proof (grows_trans _ _ _ _ _ _ G1 G2) as G.
    rewrite app_nil_r in G.
    replace (max_retry_rounds - 1) with r by lia.
    split; [exact G|].
    split; [congruence|]. split; [congruence|].
    split; [|split; [reflexivity|lia]].
    rewrite results_of_app, results_of_job by assumption. reflexivity.
  - assert (Efin : is_final r = false).
    { unfold final_round. apply negb_false_iff, Z.ltb_lt. lia. }
    revert H. unfold requeued, recorded. rewrite Efin. intros H.
    rewrite Efin in Fe1.
    apply IH in H.
    + destruct H as (G3 & Fe3 & Fo3 & Hres & Hqe & Hre).
      split; [|split; [exact Fe3|split; [congruence|split; [|tauto]]]].
      * pose proof (grows_trans _ _ _ _ _ _
                      (grows_trans _ _ _ _ _ _ G1 G2) G3) as G.
        rewrite app_nil_r in G. exact G.
      * rewrite Hres, results_of_app, results_of_successes by exact Hf.
        rewrite app_nil_r. reflexivity.
    + lia.
    + discriminate.
    + apply NoDup_map_filter. exact Hnd.
    + apply List.filter_In. split; [exact Hin|exact Hf].
    + intros k Hk. apply Hfail. lia.
Qed.

Lemma requeued_subset r queue x :
  In x (requeued_in r queue) -> In x queue.
Proof.
  unfold requeued. destruct (is_final r); [intros []|].
  intros H. apply List.filter_In in H. tauto.
Qed.

(** The loop returns when the delay pauses and the successes are
    complete. *)
Lemma retry_rounds_done rounds_left :
  forall r queue rs s,
    (forall k p, r <= k < max_retry_rounds -> In p queue ->
                 complete (result_of k p)) ->
    exists s' out,
      Batch.retry_rounds Pauses self worlds prompt model max_retry_rounds
                         rounds_left r queue rs s
      = Done s' out.
Proof.
  induction rounds_left as [|left' IH]; intros r queue rs s Hu; simpl.
  - eexists; eexists; reflexivity.
  - destruct (negb (len queue =? 0) && (r <? max_retry_rounds)) eqn:Ec;
      [|eexists; eexists; reflexivity].
    apply andb_true_iff in Ec as [_ Hr]. apply Z.ltb_lt in Hr.
    destruct (for_batch_done self worlds prompt model max_retry_rounds r
                (len queue) queue 1 ([], rs) s) as (s1 & [q1 rs1] & H1).
    { apply List.Forall_forall. intros x Hx. apply Hu; [lia|exact Hx]. }
    unfold bind at 1. rewrite H1. unfold bind at 1.
    apply for_batch_value in H1. inversion H1; subst q1 rs1.
    assert (Hu' : forall k p,
               r + 1 <= k < max_retry_rounds ->
               In p (requeued_in r queue) ->
               complete (result_of k p)).
    { intros k p Hk Hp. apply Hu; [lia|]. eapply requeued_subset. exact Hp. }
    simpl app.
    destruct (negb (len (requeued_in r queue) =? 0)); simpl;
      apply IH; exact Hu'.
Qed.

(** Every result of the loop is one it started with or the result of an
    extraction of a job of the queue. *)
Lemma retry_rounds_results (P : result -> Prop) rounds_left :
  forall r queue rs s s' out,
    (forall k p, r <= k < max_retry_rounds -> In p queue ->
                 P (result_of k p)) ->
    Forall P rs ->
    retry_rounds rounds_left r queue rs s = Done s' out ->
    Forall P (fst (fst out)).
Proof.
  induction rounds_left as [|left' IH]; intros r queue rs s s' out HP Hrs H;
    simpl in H.
  - inversion H. exact Hrs.
  - destruct (negb (len queue =? 0) && (r <? max_retry_rounds)) eqn:Ec;
      [|inversion H; exact Hrs].
    apply andb_true_iff in Ec as [_ Hr]. apply Z.ltb_lt in Hr.
    apply bind_done in H as (s1 & [q1 rs1] & Hfor & H).
    apply for_batch_value in Hfor. inversion Hfor; subst q1 rs1.
    apply bind_done in H as (s2 & u & _ & H).
    eapply IH; [| |exact H].
    + intros k p Hk Hp. apply HP; [lia|]. eapply requeued_subset. exact Hp.
    + apply Forall_app. split; [exact Hrs|].
      unfold recorded. destruct (is_final r); apply List.Forall_forall;
        intros x Hx.
      * apply in_map_iff in Hx as (y & <- & Hy). apply HP; [lia|exact Hy].
      * apply List.filter_In in Hx as [Hx _].
        apply in_map_iff in Hx as (y & <- & Hy). apply HP; [lia|exact Hy].
Qed.

(** The report can count the results of a loop whose successes are
    complete. *)
Lemma retry_rounds_summable rounds_left :
  forall r queue s s' out,
    (forall k p, r <= k < max_retry_rounds -> In p queue ->
                 complete (result_of k p)) ->
    retry_rounds rounds_left r queue [] s = Done s' out ->
    Forall summable (fst (fst out)).
Proof.
  intros r queue s s' out Hc H.
  apply (retry_rounds_results summable) in H; [exact H| |constructor].
  intros k p Hk Hp. apply complete_summable. apply Hc; assumption.
Qed.

(** When the loop ends: after [n] rounds, where [n] is the first number
    of rounds at which the queue is empty or [max_retry_rounds] is
    reached. *)
Lemma retry_rounds_halts rounds_left :
  forall r queue rs s s' out,
    rounds_left = Z.to_nat (max_retry_rounds - r) ->
    retry_rounds rounds_left r queue rs s = Done s' out ->
    exists n : nat,
      snd out = r + Z.of_nat n /\
      (snd (fst out) = [] \/ max_retry_rounds <= snd out) /\
      (round_queue_of r queue n = [] \/ max_retry_rounds <= r + Z.of_nat n) /\
      (forall k, (k < n)%nat ->
                 round_queue_of r queue k <> [] /\
                 r + Z.of_nat k < max_retry_rounds).
Proof.
  induction rounds_left as [|left' IH]; intros r queue rs s s' out Hleft H;
    simpl in H.
  - inversion H; subst. exists O. simpl.
    split; [lia|]. split; [right; lia|]. split; [right; lia|]. intros k Hk. lia.
  - destruct queue as [|x queue].
    + simpl in H. inversion H; subst. exists O. simpl.
      split; [lia|]. split; [left; reflexivity|]. split; [left; reflexivity|].
      intros k Hk. lia.
    + rewrite len_cons_nonzero in H.
      assert (Hr : (r <? max_retry_rounds) = true) by (apply Z.ltb_lt; lia).
      rewrite Hr in H. simpl negb in H. simpl andb in H. cbv iota in H.
      apply bind_done in H as (s1 & [q1 rs1] & Hfor & H).
      apply for_batch_value in Hfor. inversion Hfor; subst q1 rs1.
      apply bind_done in H as (s2 & u & _ & H).
      apply IH in H; [|lia].
      destruct H as (n & Hn & Hexit & Hstop & Hrun).
      exists (S n). split; [lia|]. split; [exact Hexit|].
      unfold requeued in Hstop, Hrun.
      destruct (is_final r) eqn:Efin.
      * assert (n = O).
        { destruct n; [reflexivity|]. destruct (Hrun O) as [_ Hlt]; [lia|].
          unfold final_round in Efin. apply negb_true_iff, Z.ltb_ge in Efin.
          lia. }
        subst n. split.
        -- right. unfold final_round in Efin.
           apply negb_true_iff, Z.ltb_ge in Efin. lia.
        -- intros k Hk. assert (k = O) by lia. subst k. simpl.
           split; [discriminate|lia].
      * split.
        -- rewrite round_queue_shift.
           destruct Hstop as [Hs|Hs]; [left; exact Hs|right; lia].
        -- intros k Hk. destruct k as [|k].
           ++ simpl. split; [discriminate|lia].
           ++ rewrite round_queue_shift. destruct (Hrun k) as [H1 H2]; [lia|].
              split; [exact H1|lia].
Qed.

(** The error file of [j] is written once in the rounds [r ..]. *)
Lemma rounds_events_error_write j rounds_left :
  forall r,
    Z.of_nat rounds_left = max_retry_rounds - r ->
    rounds_left <> O ->
    List.filter (is_error_write j) (rounds_events_of j r rounds_left)
    = [EvWrite (error_file_name j)].
Proof.
  induction rounds_left as [|left' IH]; intros r Hleft Hnz; [contradiction|].
  simpl. rewrite List.filter_app. unfold round_events at 1.
  rewrite List.filter_app, error_writes_of_job_events.
  rewrite (error_writes_of_own j j) by apply extract_shape.
  destruct left' as [|left''].
  - assert (Efin : is_final r = true).
    { unfold final_round. apply negb_true_iff, Z.ltb_ge. lia. }
    rewrite Efin. simpl. rewrite String.eqb_refl. reflexivity.
  - assert (Efin : is_final r = false).
    { unfold final_round. apply negb_false_iff, Z.ltb_lt. lia. }
    rewrite Efin. simpl List.filter at 1. rewrite app_nil_l.
    apply IH; [lia|discriminate].
Qed.

End RoundFacts.

(** *** A job that fails in every round *)

Section FailingJob.
Variable self : ImageTextExtractor.
Variable worlds : Z -> World.
Variable prompt : string.
Variable model : option string.
Variable max_retry_rounds : Z.
Variable globbed : list string.
Variable skip_existing : bool.
Variable s : store.
Variable j : string.

Local Abbreviation result_of := (res self worlds prompt model).
Local Abbreviation fails := (failed self worlds prompt model).
Local Abbreviation queue0 := (first_queue s skip_existing globbed).

Hypothesis rounds_exist : 1 <= max_retry_rounds.
Hypothesis successes_complete :
  forall r p, 0 <= r < max_retry_rounds -> In p queue0 ->
              complete (result_of r p).
Hypothesis stems_differ : List.NoDup (List.map PyPath.stem queue0).
Hypothesis queued : In j queue0.
Hypothesis always_fails :
  forall r, 0 <= r < max_retry_rounds -> fails r j = true.

Lemma batch_failing_job :
  exists s' results evs,
    batch_extract_from_folder Made Pauses self worlds prompt model
                              max_retry_rounds globbed skip_existing s
    = Done s' results /\
    log s' = log s ++ evs /\
    job_events j evs
    = rounds_events self worlds prompt model max_retry_rounds j 0
                    (Z.to_nat max_retry_rounds) /\
    results_of j results = [result_of (max_retry_rounds - 1) j] /\
    fs s' !! error_file_name j
    = Some (error_lines self worlds prompt model (max_retry_rounds - 1) j).
Proof.
  unfold batch_extract_from_folder.
  destruct (discover globbed) as [|f0 fl] eqn:Ed.
  { exfalso. revert queued. unfold first_queue. rewrite Ed.
    destruct skip_existing; simpl; tauto. }
  revert successes_complete stems_differ queued.
  destruct queue0 as [|g0 gl] eqn:Eq;
    intros successes_complete stems_differ queued; [destruct queued|].
  destruct (retry_rounds_done self worlds prompt model max_retry_rounds
              (Z.to_nat max_retry_rounds) 0 (g0 :: gl) [] s
              successes_complete)
    as (s1 & out & Hloop).
  pose proof Hloop as Hjob.
  apply (retry_rounds_job Pauses self worlds prompt model max_retry_rounds j)
    in Hjob;
    [|lia|lia|exact stems_differ|exact queued|exact always_fails].
  destruct Hjob as ((evs1 & Hlog1 & Hevs1) & Herr & _ & Hres & _ & _).
  pose proof (retry_rounds_summable Pauses self worlds prompt model
                max_retry_rounds _ _ _ _ _ _ successes_complete Hloop)
    as Hus.
  destruct out as [[all_results q] R]. simpl in Hres, Hus.
  assert (Hne : all_results <> []).
  { intros ->. discriminate Hres. }
  destruct (summary_report_written all_results s1 Hne Hus)
    as (body & Hsum & _).
  unfold bind. rewrite Hloop. rewrite Hsum. simpl.
  eexists. exists all_results.
  exists (evs1 ++ [EvWrite summary_file_name]).
  split; [reflexivity|]. split; [|split; [|split]].
  - simpl. rewrite Hlog1, <- app_assoc. reflexivity.
  - assert (Hsm : job_events j [EvWrite summary_file_name] = []).
    { pose proof (summary_is_not_output j) as H1.
      pose proof (summary_is_not_error j) as H2.
      apply String.eqb_neq in H1, H2.
      unfold job_events, List.filter, about. rewrite H1, H2. reflexivity. }
    rewrite job_events_app, Hevs1, Hsm. apply app_nil_r.
  - exact Hres.
  - simpl. rewrite lookup_insert_ne by apply summary_is_not_error.
    exact Herr.
Qed.

End FailingJob.

Section Unreadable.
Variable self : ImageTextExtractor.
Variable worlds : Z -> World.
Variable prompt : string.
Variable model : option string.
Variable max_retry_rounds : Z.
Variable j : string.

Local Abbreviation cannot_read := (unreadable worlds max_retry_rounds j).

Lemma unreadable_fails r :
  cannot_read -> 0 <= r < max_retry_rounds ->
  fst (Batch.extract self worlds prompt model r j) = [EvRead j] /\
  failed self worlds prompt model r j = true.
Proof.
  intros Hu Hr. destruct (Hu r Hr) as (etype & msg & Hread).
  unfold failed, res, Batch.extract, extract_text_from_image.
  rewrite Hread. split; reflexivity.
Qed.

Lemma rounds_events_unreadable rounds_left :
  forall r,
    cannot_read ->
    0 <= r ->
    Z.of_nat rounds_left = max_retry_rounds - r ->
    rounds_left <> O ->
    rounds_events self worlds prompt model max_retry_rounds j r rounds_left
    = List.repeat (EvRead j) rounds_left ++ [EvWrite (error_file_name j)].
Proof.
  induction rounds_left as [|left' IH]; intros r Hu H0 Hleft Hnz;
    [contradiction|].
  simpl. unfold round_events at 1.
  destruct (unreadable_fails r Hu) as [Hev _]; [lia|]. rewrite Hev.
  unfold job_events. simpl. rewrite String.eqb_refl. simpl.
  destruct left' as [|left''].
  - assert (Efin : final_round max_retry_rounds r = true).
    { unfold final_round. apply negb_true_iff, Z.ltb_ge. lia. }
    rewrite Efin. reflexivity.
  - assert (Efin : final_round max_retry_rounds r = false).
    { unfold final_round. apply negb_false_iff, Z.ltb_lt. lia. }
    rewrite Efin. simpl app at 1. f_equal.
    apply IH; [exact Hu|lia|lia|discriminate].
Qed.

End Unreadable.





(** ** The theorems at concrete inputs *)


Lemma explicit_model_bypasses_roster_witness :
  let run := extract_text_from_image default_extractor world_429
               "imgs/q1.jpeg" "Extract all text from this image." 4000 true 3
               (Some "openai/gpt-4o-mini") in
  List.length (posts (fst run)) = 1%nat /\
  (forall q req, In (EvPost q req) (fst run) ->
                 req_model req = "openai/gpt-4o-mini") /\
  success (snd run) = false.
Proof.
  assert (Hm : "openai/gpt-4o-mini" <> "") by discriminate.
  destruct (explicit_model_bypasses_roster default_extractor world_429
              "imgs/q1.jpeg" "Extract all text from this image." 4000 true 3
              "openai/gpt-4o-mini" Hm) as (Hposts & _ & Hlimited).
  destruct (Hlimited "aW1hZ2U=" eq_refl (or_introl eq_refl)) as [Hlog Hfail].
  cbv zeta. split; [|split].
  - rewrite Hlog. reflexivity.
  - intros q req Hin. apply (Hposts q req Hin).
  - exact Hfail.
Defined.

Lemma rate_limit_falls_back_witness :
  let run := extract_text_from_image two_models world_fallback "imgs/q1.jpeg"
               "Extract all text from this image." 4000 true 3 None in
  snd run
  = Success "imgs/q1.jpeg" (Some "Question 1") (Some "model-b")
            (Some {| total_tokens := JInt 57 |}) 2 /\
  List.map (fun e => match e with EvPost _ req => req_model req | _ => "" end)
           (posts (fst run))
  = ["model-a"; "model-b"].
Proof.
  destruct rate_limit_falls_back as [_ Hab].
  destruct (Hab two_models world_fallback "imgs/q1.jpeg"
                "Extract all text from this image." 4000 3 "aW1hZ2U="
                "model-a" "model-b" NotJson answer_b
                eq_refl eq_refl eq_refl eq_refl eq_refl) as [Hres Hposts].
  cbv zeta. split.
  - rewrite Hres. reflexivity.
  - rewrite Hposts. reflexivity.
Defined.


Lemma rerun_skips_extracted_witness :
  let outcome :=
    batch_extract_from_folder Made Pauses default_extractor (fun _ => world_fallback)
      "Extract all text from this image." None 3
      ["imgs/q2.jpeg"; "imgs/q1.jpeg"] true store_with_q1 in
  fs (final_store outcome) !! "q1_extracted.txt" = Some [LText "Question 1"] /\
  ~ In (EvRead "imgs/q1.jpeg") (log (final_store outcome)).
Proof.
  assert (Hfile : fs store_with_q1 !! output_file_name "imgs/q1.jpeg"
                  = Some [LText "Question 1"]) by reflexivity.
  destruct (rerun_skips_extracted Made Pauses default_extractor
              (fun _ => world_fallback)
              "Extract all text from this image." None 3
              ["imgs/q2.jpeg"; "imgs/q1.jpeg"] store_with_q1 "imgs/q1.jpeg"
              [LText "Question 1"] Hfile)
    as (_ & Hkept & evs & Hlog & Hread & _).
  cbv zeta. split; [exact Hkept|].
  rewrite Hlog. simpl. exact Hread.
Defined.

Lemma world_q1_only_complete r p :
  complete (res default_extractor (fun _ => world_q1_only)
                "Extract all text from this image." None r p).
Proof.
  unfold res, Batch.extract, extract_text_from_image. simpl.
  unfold one_attempt. destruct (String.eqb p "imgs/q1.jpeg"); simpl;
    [discriminate|exact I].
Qed.



(** ** The scenario of three images and two rounds *)

Example end_to_end_scenario :
  exists s' r1 r2 r3,
    batch_extract_from_folder Made Pauses default_extractor worlds_scenario
      "Extract all text from this image." None 2
      ["imgs/q3.jpeg"; "imgs/q1.jpeg"; "imgs/q2.jpeg"] true empty_store
    = Done s' [r1; r2; r3] /\
    (image_path_of r1, success r1) = ("imgs/q1.jpeg", true) /\
    (image_path_of r2, success r2) = ("imgs/q2.jpeg", true) /\
    (image_path_of r3, success r3) = ("imgs/q3.jpeg", false) /\
    is_Some (fs s' !! "q1_extracted.txt") /\
    is_Some (fs s' !! "q2_extracted.txt") /\
    is_Some (fs s' !! "q3_error.txt") /\
    fs s' !! "q2_error.txt" = None /\
    fs s' !! "q3_extracted.txt" = None /\
    (exists report,
        fs s' !! "summary_report.txt" = Some report /\
        In (LTotal 3) report /\ In (LSuccessful 2) report /\
        In (LFailed 1) report /\ In (LTotalTokens 114) report).
Proof.
  eexists. eexists. eexists. eexists.
  split; [vm_compute; reflexivity|].
  split; [reflexivity|]. split; [reflexivity|]. split; [reflexivity|].
  split; [eexists; vm_compute; reflexivity|].
  split; [eexists; vm_compute; reflexivity|].
  split; [eexists; vm_compute; reflexivity|].
  split; [vm_compute; reflexivity|].
  split; [vm_compute; reflexivity|].
  eexists. split; [vm_compute; reflexivity|]. simpl. tauto.
Qed.

(** * Further properties of the code *)

(** ** One image, image_text_extractor.py: the requests follow the roster *)

Section RosterOrder.
Variable self : ImageTextExtractor.
Variable w : World.
Variable p : string.
Variable prompt : string.
Variable max_tokens : Z.
Variable retry : bool.
Variable max_retries : Z.

Lemma one_attempt_success n attempt rep r :
  one_attempt p retry max_retries n attempt rep = Return r ->
  exists text m u, r = Success p text m u attempt.
Proof.
  unfold one_attempt. intros H.
  destruct rep as [status body|et msg|et msg|et msg];
    repeat match type of H with
           | context [if ?c then _ else _] => destruct c
           | context [match ?b with NotJson => _ | _ => _ end] => destruct b
           end;
    try discriminate H; inversion H; eexists; eexists; eexists; reflexivity.
Qed.

Lemma try_models_follow b64 mime n rest :
  forall attempt e t,
    let run := Extractor.try_models w p prompt max_tokens retry max_retries
                 b64 mime n rest attempt e t in
    exists k : nat,
      (k <= List.length rest)%nat /\
      posts (fst run)
      = List.map (fun m => EvPost p (Extractor.payload prompt max_tokens b64
                                                       mime m))
                 (List.firstn k rest) /\
      (rest <> [] -> (1 <= k)%nat) /\
      (forall ip text m u a,
          snd run = Success ip text m u a ->
          a = attempt + Z.of_nat k - 1 /\ (1 <= k)%nat).
Proof.
  induction rest as [|m0 rest IH]; intros attempt e t; simpl.
  - exists O. simpl. split; [lia|]. split; [reflexivity|].
    split; [intros H; contradiction|]. intros ip text m u a H. discriminate H.
  - destruct (one_attempt p retry max_retries n attempt _)
      as [r|d e' t'|e' t'] eqn:E; simpl.
    + exists 1%nat. simpl. split; [lia|]. split; [reflexivity|].
      split; [lia|]. intros ip text m u a H. subst r.
      apply one_attempt_success in E as (text' & m' & u' & E).
      inversion E; subst. lia.
    + specialize (IH (attempt + 1) e' t'). simpl in IH.
      destruct (Extractor.try_models w p prompt max_tokens retry max_retries
                  b64 mime n rest (attempt + 1) e' t') as [evs r].
      destruct IH as (k & Hk & Hposts & _ & Hsucc). simpl in *.
      exists (S k). split; [lia|]. split; [|split; [lia|]].
      * simpl. rewrite Hposts. reflexivity.
      * intros ip text m u a H. destruct (Hsucc ip text m u a H). lia.
    + exists 1%nat. simpl. split; [lia|]. split; [reflexivity|].
      split; [lia|]. intros ip text m u a H. discriminate H.
Qed.

End RosterOrder.

(** X1.  Whatever the service answers, the requests of one extraction go to
    the first [k] models of the list to try, one request per model and in the
    order of the list; there is a request as soon as the image can be read
    and the list is not empty; and a success reports [attempts = k], the
    number of requests sent. *)
Theorem requests_follow_roster
    (self : ImageTextExtractor) (w : World) (p prompt : string)
    (max_tokens : Z) (retry : bool) (max_retries : Z)
    (model : option string) :
  let run := extract_text_from_image self w p prompt max_tokens retry
                                     max_retries model in
  exists k : nat,
    (k <= List.length (models_to_try self model))%nat /\
    List.map requested_model (posts (fst run))
    = List.firstn k (models_to_try self model) /\
    List.length (posts (fst run)) = k /\
    (forall b64, read_image w p = inr b64 ->
                 models_to_try self model <> [] -> (1 <= k)%nat) /\
    (forall ip text m u a,
        snd run = Success ip text m u a ->
        a = Z.of_nat k /\ (1 <= k)%nat).
Proof.
  intros run. subst run. unfold extract_text_from_image.
  destruct (read_image w p) as [[etype msg]|b64] eqn:Hread.
  - exists O. simpl. split; [lia|]. split; [reflexivity|].
    split; [reflexivity|]. split; [intros b64 H; discriminate H|].
    intros ip text m u a H. discriminate H.
  - pose proof (try_models_follow w p prompt max_tokens retry max_retries b64
                  (Mime.get_image_mime_type p)
                  (len (models_to_try self model)) (models_to_try self model)
                  1 None None) as H.
    simpl in H. destruct (Extractor.try_models _ _ _ _ _ _ _ _ _ _ _ _ _)
      as [evs r].
    destruct H as (k & Hk & Hposts & Hne & Hsucc). simpl in *.
    exists k. split; [exact Hk|]. split; [|split; [|split]].
    + rewrite Hposts, List.map_map. simpl. apply List.map_id.
    + rewrite Hposts, length_map. apply List.firstn_length_le. exact Hk.
    + intros b64' _ Hms. apply Hne. exact Hms.
    + intros ip text m u a H. destruct (Hsucc ip text m u a H). split; lia.
Qed.

(** ** One image, extract_images.py *)

Section ExtractImagesMore.
Variable w : World.
Variable p : string.
Variable max_retries : Z.
Variable req : request.

Local Abbreviation one_attempt := (ExtractImages.one_attempt max_retries).
Local Abbreviation retry_loop := (ExtractImages.retry_loop w p max_retries req).

Lemma one_attempt_return_shape a rep r :
  one_attempt a rep = ExtractImages.Return r ->
  (exists status c,
      rep = Response status (Completion c) /\ r = (content c, None)) \/
  (exists msg, r = (None, Some msg)).
Proof.
  unfold ExtractImages.one_attempt, ExtractImages.backoff. intros H.
  destruct rep as [status body|et msg|et msg|et msg];
    repeat match type of H with
           | context [if ?c then _ else _] => destruct c
           | context [match ?b with NotJson => _ | _ => _ end] => destruct b
           end;
    try discriminate H; inversion H;
    first [right; eexists; reflexivity
          |left; eexists; eexists; split; reflexivity].
Qed.

Lemma retry_loop_shape attempts :
  (exists status c a,
      In a attempts /\
      post w p a req = Response status (Completion c) /\
      snd (retry_loop attempts) = (content c, None)) \/
  (exists msg, snd (retry_loop attempts) = (None, Some msg)).
Proof.
  induction attempts as [|a rest IH]; simpl.
  - right. eexists. reflexivity.
  - destruct (one_attempt a _) as [r|d] eqn:E; simpl.
    + apply one_attempt_return_shape in E as [(status & c & Hrep & ->)|[msg ->]].
      * left. exists status, c, a. split; [left; reflexivity|].
        split; [exact Hrep|reflexivity].
      * right. exists msg. reflexivity.
    + destruct (retry_loop rest) as [evs r]. simpl in *.
      destruct IH as [(status & c & a' & Hin & Hrep & Hr)|[msg Hr]].
      * left. exists status, c, a'. split; [right; exact Hin|].
        split; assumption.
      * right. exists msg. exact Hr.
Qed.

Lemma one_attempt_tried_again a rep :
  tried_again rep = true ->
  a < max_retries - 1 ->
  one_attempt a rep = ExtractImages.Continue (wait_after a rep).
Proof.
  intros Hc Ha. apply Z.ltb_lt in Ha.
  unfold ExtractImages.one_attempt, ExtractImages.backoff, wait_after.
  destruct rep as [status body|et msg|et msg|et msg]; simpl in Hc;
    try discriminate Hc; try (rewrite Ha; reflexivity).
  destruct (status =? 429) eqn:E429.
  - apply Z.eqb_eq in E429. subst status. rewrite Ha. reflexivity.
  - assert (Hw : match status with 429 => 60 | _ => 2 ^ a end = 2 ^ a).
    { apply Z.eqb_neq in E429.
      destruct status as [|s|s]; try reflexivity.
      repeat (destruct s as [s|s|]; try reflexivity).
      contradiction. }
    rewrite Hw. simpl in Hc.
    destruct (status >=? 500); [rewrite Ha; reflexivity|].
    destruct (raises_for_status status); [rewrite Ha; reflexivity|].
    destruct body; simpl in Hc; try discriminate Hc. rewrite Ha. reflexivity.
Qed.

Lemma one_attempt_last_try a rep :
  tried_again rep = true ->
  max_retries - 1 <= a ->
  exists msg, one_attempt a rep = ExtractImages.Return (None, Some msg).
Proof.
  intros Hc Ha.
  assert (Hlt : (a <? max_retries - 1) = false) by (apply Z.ltb_ge; lia).
  unfold ExtractImages.one_attempt, ExtractImages.backoff.
  destruct rep as [status body|et msg|et msg|et msg]; simpl in Hc;
    try discriminate Hc; try (rewrite Hlt; eexists; reflexivity).
  destruct (status =? 429); [rewrite Hlt; eexists; reflexivity|].
  simpl in Hc.
  destruct (status >=? 500); [rewrite Hlt; eexists; reflexivity|].
  destruct (raises_for_status status); [rewrite Hlt; eexists; reflexivity|].
  destruct body; simpl in Hc; try discriminate Hc.
  rewrite Hlt. eexists. reflexivity.
Qed.

Lemma retry_loop_tries_again pre :
  forall rest,
    (forall a, In a pre ->
               tried_again (post w p a req) = true /\ a < max_retries - 1) ->
    retry_loop (pre ++ rest)
    = (List.flat_map
         (fun a => [EvPost p req; EvSleep (wait_after a (post w p a req))]) pre
         ++ fst (retry_loop rest),
       snd (retry_loop rest)).
Proof.
  induction pre as [|a pre IH]; intros rest H.
  - simpl. destruct (retry_loop rest). reflexivity.
  - simpl. destruct (H a (or_introl eq_refl)) as [Hc Ha].
    rewrite (one_attempt_tried_again _ _ Hc Ha).
    rewrite IH by (intros b Hb; apply H; right; exact Hb).
    reflexivity.
Qed.

End ExtractImagesMore.




(** X4.  With [max_retries] zero or negative extract_images.py sends no
    request at all: it reads the image and returns the error
    [Failed after all retries]. *)
Theorem extract_images_no_attempts
    (w : World) (p model : string) (max_retries : Z) (b64 : string) :
  read_image w p = inr b64 ->
  max_retries <= 0 ->
  ExtractImages.extract_text_from_image w p model max_retries
  = ([EvRead p], (None, Some ExtractImages.FailedAfterAllRetries)).
Proof.
  intros Hread Hmax. unfold ExtractImages.extract_text_from_image.
  rewrite Hread. unfold ExtractImages.range.
  replace (Z.to_nat max_retries) with O by lia. reflexivity.
Qed.

Lemma extract_images_no_attempts_witness :
  ExtractImages.extract_text_from_image world_fallback "imgs/q1.png"
                                        "model-b" 0
  = ([EvRead "imgs/q1.png"], (None, Some ExtractImages.FailedAfterAllRetries)).
Proof.
  apply (extract_images_no_attempts world_fallback "imgs/q1.png" "model-b" 0
                                    "aW1hZ2U=" eq_refl).
  lia.
Defined.

(** ** [natural_sort_key]: the split and the key *)

Lemma requests_follow_roster_witness :
  exists k : nat,
    List.map requested_model
      (posts (fst (extract_text_from_image two_models world_fallback
                     "imgs/q1.jpeg" "Extract all text from this image."
                     4000 true 3 None)))
    = List.firstn k ["model-a"; "model-b"] /\
    (forall ip text m u a,
        snd (extract_text_from_image two_models world_fallback
               "imgs/q1.jpeg" "Extract all text from this image."
               4000 true 3 None)
        = Success ip text m u a -> a = Z.of_nat k).
Proof.
  destruct (requests_follow_roster two_models world_fallback "imgs/q1.jpeg"
              "Extract all text from this image." 4000 true 3 None)
    as (k & _ & Hposts & _ & _ & Hsucc).
  exists k. split; [exact Hposts|].
  intros ip text m u a H. apply (Hsucc ip text m u a H).
Defined.


Lemma re_split_digits_start s :
  PyStr.starts_with_digit s = true ->
  exists d t, PyStr.re_split_digits s = "" :: d :: t.
Proof.
  destruct s as [|c s]; simpl; [discriminate|]. intros Hc. rewrite Hc.
  destruct (PyStr.starts_with_digit s) eqn:Es.
  - destruct s as [|c' s]; [discriminate Es|].
    simpl in Es.
    assert (H : exists d t, PyStr.re_split_digits (String c' s) = "" :: d :: t).
    { clear c Hc. revert c' Es. induction s as [|c'' s IH]; intros c' Es.
      - simpl. rewrite Es. eexists. eexists. reflexivity.
      - simpl. rewrite Es. simpl in IH.
        destruct (PyStr.re_digit c'') eqn:E''.
        + destruct (IH c'' E'') as (d & t & Hr). rewrite E'' in Hr.
          rewrite Hr. eexists. eexists. reflexivity.
        + eexists. eexists. reflexivity. }
    destruct H as (d & t & Hr). rewrite Hr. eexists. eexists. reflexivity.
  - eexists. eexists. reflexivity.
Qed.

Lemma re_split_digits_parts (s : string) :
  String.concat "" (PyStr.re_split_digits s) = s /\
  runs true (PyStr.re_split_digits s).
Proof.
  induction s as [|c s [IHc IHr]]; [split; [reflexivity|simpl; tauto]|].
  simpl. destruct (PyStr.re_digit c) eqn:Ec.
  - destruct (PyStr.starts_with_digit s) eqn:Es.
    + destruct (re_split_digits_start s Es) as (d & t & Hr).
      rewrite Hr in *. split.
      * rewrite <- IHc. destruct t; reflexivity.
      * simpl in *. destruct IHr as (_ & (Hd & Hall) & Ht).
        split; [reflexivity|]. split; [|exact Ht].
        split; [discriminate|]. rewrite Ec. exact Hall.
    + split.
      * rewrite <- IHc at 2.
        destruct (PyStr.re_split_digits s) as [|h t]; [reflexivity|].
        destruct t; reflexivity.
      * simpl. split; [reflexivity|]. split; [|exact IHr].
        split; [discriminate|]. rewrite Ec. reflexivity.
  - destruct (PyStr.re_split_digits s) as [|h t] eqn:Hr.
    + simpl in IHr. discriminate IHr.
    + split.
      * rewrite <- IHc. destruct t; reflexivity.
      * simpl in *. destruct IHr as [Hh Ht]. split; [|exact Ht].
        rewrite Ec. simpl. exact Hh.
Qed.

(** X5.  Joining the parts that [re.split(r'(\d+)', s)] returns gives [s]
    back, and the parts alternate between text without decimal digits and
    non-empty runs of decimal digits, beginning and ending with text. *)
Theorem re_split_digits_round_trip (s : string) :
  String.concat "" (PyStr.re_split_digits s) = s /\
  runs true (PyStr.re_split_digits s).
Proof. apply re_split_digits_parts. Qed.

Lemma int_digits_some s :
  forall acc, PyStr.all_chars PyStr.re_digit s = true ->
              exists n, PyStr.int_digits acc s = Some n.
Proof.
  induction s as [|c s IH]; intros acc H; simpl.
  - eexists. reflexivity.
  - simpl in H. apply andb_true_iff in H as [Hc Hs]. rewrite Hc.
    apply IH. exact Hs.
Qed.

Lemma digit_run_not_superscript d :
  d <> "" -> PyStr.all_chars PyStr.re_digit d = true ->
  superscript_run d = false.
Proof.
  intros Hne Hall.
  unfold superscript_run. destruct d as [|c d]; [contradiction|].
  simpl in Hall. apply andb_true_iff in Hall as [Hc _].
  simpl. unfold superscript, PyStr.re_digit in *.
  apply andb_true_iff in Hc as [H1 H2].
  apply N.leb_le in H1, H2.
  replace (PyStr.code c =? 178)%N with false
    by (symmetry; apply N.eqb_neq; lia).
  replace (PyStr.code c =? 179)%N with false
    by (symmetry; apply N.eqb_neq; lia).
  replace (PyStr.code c =? 185)%N with false
    by (symmetry; apply N.eqb_neq; lia).
  reflexivity.
Qed.

Lemma convert_digit_run d :
  d <> "" -> PyStr.all_chars PyStr.re_digit d = true ->
  refused_part d = long_digit_run d /\
  exists n, NaturalSort.convert_part d
            = if long_digit_run d then Exn ValueError
              else Ret (NaturalSort.KInt n).
Proof.
  intros Hne Hall. unfold NaturalSort.convert_part.
  split.
  { unfold refused_part. rewrite (digit_run_not_superscript d Hne Hall).
    reflexivity. }
  assert (Hd : PyStr.isdigit d = true).
  { destruct d as [|c d]; [contradiction|]. unfold PyStr.isdigit.
    revert Hall. generalize (String c d). intros s.
    induction s as [|c' s IH]; simpl; [reflexivity|]. intros H.
    apply andb_true_iff in H as [Hc Hs]. unfold PyStr.isdigit_char.
    rewrite Hc. simpl. apply IH. exact Hs. }
  rewrite Hd. unfold PyStr.int, long_digit_run. rewrite Hall.
  destruct (int_digits_some d 0 Hall) as (n & Hn).
  destruct d as [|c d]; [contradiction|]. rewrite Hn. exists n.
  match goal with
  | |- context [PyStr.int_max_str_digits <? ?x] =>
      destruct (PyStr.int_max_str_digits <? x)
  end; reflexivity.
Qed.

Lemma text_run_not_long x :
  PyStr.all_chars (fun c => negb (PyStr.re_digit c)) x = true ->
  long_digit_run x = false.
Proof.
  unfold long_digit_run. destruct x as [|c x]; [reflexivity|].
  simpl. intros H. apply andb_true_iff in H as [Hc _].
  apply negb_true_iff in Hc. rewrite Hc. reflexivity.
Qed.

Lemma isdigit_chars_text_run s :
  PyStr.all_chars (fun c => negb (PyStr.re_digit c)) s = true ->
  PyStr.all_chars PyStr.isdigit_char s = PyStr.all_chars superscript s.
Proof.
  induction s as [|c s IH]; simpl; [reflexivity|]. intros H.
  apply andb_true_iff in H as [Hc Hs]. apply negb_true_iff in Hc.
  rewrite (IH Hs). f_equal.
  unfold PyStr.isdigit_char, superscript. rewrite Hc. reflexivity.
Qed.

Lemma isdigit_text_run x :
  PyStr.all_chars (fun c => negb (PyStr.re_digit c)) x = true ->
  PyStr.isdigit x = superscript_run x.
Proof.
  intros Hx. unfold PyStr.isdigit, superscript_run.
  destruct x as [|c x]; [reflexivity|].
  rewrite (isdigit_chars_text_run _ Hx). reflexivity.
Qed.

Lemma convert_text_run x :
  PyStr.all_chars (fun c => negb (PyStr.re_digit c)) x = true ->
  NaturalSort.convert_part x
  = if superscript_run x then Exn ValueError else Ret (NaturalSort.KStr x).
Proof.
  intros Hx. unfold NaturalSort.convert_part.
  rewrite (isdigit_text_run x Hx).
  destruct (superscript_run x) eqn:Es; [|reflexivity].
  destruct x as [|c x]; [discriminate Es|].
  simpl in Hx. apply andb_true_iff in Hx as [Hc _].
  apply negb_true_iff in Hc. unfold PyStr.int.
  destruct (PyStr.int_max_str_digits <? Z.of_nat (String.length (String c x)));
    [reflexivity|].
  simpl. rewrite Hc. reflexivity.
Qed.

Lemma pymap_convert_runs l :
  forall want_text,
    runs want_text l ->
    (List.existsb refused_part l = true /\
     pymap NaturalSort.convert_part l = Exn ValueError) \/
    (List.existsb refused_part l = false /\
     exists k, pymap NaturalSort.convert_part l = Ret k /\
               key_shape want_text k /\
               List.length k = List.length l).
Proof.
  induction l as [|x l IH]; intros want_text Hr; simpl in *.
  - right. split; [reflexivity|]. exists []. simpl. tauto.
  - destruct Hr as [Hx Hl]. specialize (IH _ Hl).
    destruct want_text.
    + rewrite (convert_text_run x Hx). unfold refused_part at 1 3.
      rewrite (text_run_not_long x Hx), orb_false_r.
      destruct (superscript_run x) eqn:Es; simpl.
      * left. split; reflexivity.
      * destruct IH as [[He Hp]|(He & k & Hp & Hk & Hlen)].
        -- left. rewrite Hp. split; [exact He|reflexivity].
        -- right. rewrite Hp. split; [exact He|].
           eexists. split; [reflexivity|]. simpl. split; [tauto|lia].
    + destruct Hx as [Hne Hall].
      destruct (convert_digit_run x Hne Hall) as (Hs & n & Hn).
      rewrite Hn, Hs.
      destruct (long_digit_run x); simpl.
      * left. split; reflexivity.
      * destruct IH as [[He Hp]|(He & k & Hp & Hk & Hlen)].
        -- left. rewrite Hp. split; [exact He|reflexivity].
        -- right. rewrite Hp. split; [exact He|].
           eexists. split; [reflexivity|]. simpl. split; [tauto|lia].
Qed.

Lemma natural_sort_key_cases (filename : string) :
  (has_refused_part filename = true /\
   NaturalSort.natural_sort_key filename = Exn ValueError) \/
  (has_refused_part filename = false /\
   exists k,
     NaturalSort.natural_sort_key filename = Ret k /\
     key_shape true k /\
     List.length k = List.length (PyStr.re_split_digits filename)).
Proof.
  unfold NaturalSort.natural_sort_key, has_refused_part.
  apply pymap_convert_runs. apply re_split_digits_parts.
Qed.


(** A name with 4301 digits: the key raises. *)
Lemma natural_sort_key_long_number_example :
  NaturalSort.natural_sort_key ("q" +:+ PyText.times "1" 4301)
  = Exn ValueError.
Proof. vm_compute. reflexivity. Qed.

(** A digit above the line between two digits makes the key fail. *)
Lemma natural_sort_key_superscript_example :
  NaturalSort.natural_sort_key
    ("imgs/q1" +:+ String (ascii_of_N 178) "2.png")
  = Exn ValueError.
Proof. reflexivity. Qed.

(** Two keys that [natural_sort_key] returned always compare. *)
Lemma key_lt_returns a :
  forall b want_str,
    key_shape want_str a -> key_shape want_str b ->
    exists r, NaturalSort.key_lt a b = Ret r.
Proof.
  induction a as [|x a IH]; intros b want_str Ha Hb.
  - destruct b; simpl; eexists; reflexivity.
  - destruct b as [|y b]; simpl; [eexists; reflexivity|].
    destruct x as [m|s], y as [n|t]; simpl in *.
    + destruct (m =? n); [|eexists; reflexivity].
      eapply IH; [apply Ha|apply Hb].
    + destruct Ha as [-> _], Hb as [Hb _]. discriminate Hb.
    + destruct Ha as [-> _], Hb as [Hb _]. discriminate Hb.
    + destruct (String.eqb s t); [|eexists; reflexivity].
      eapply IH; [apply Ha|apply Hb].
Qed.

Section SortPermutes.
Context {A : Type} (lt : A -> A -> pyres bool) (P : A -> Prop).
Hypothesis lt_returns : forall x y, P x -> P y -> exists r, lt x y = Ret r.

Lemma insert_permutes x l :
  P x -> Forall P l ->
  exists l', PySort.insert lt x l = Ret l' /\
             Permutation (x :: l) l' /\ Forall P l'.
Proof.
  intros Hx Hl. induction Hl as [|y l Hy Hl IH]; simpl.
  - exists [x]. split; [reflexivity|]. split; [reflexivity|].
    constructor; [exact Hx|constructor].
  - destruct (lt_returns x y Hx Hy) as (r & Hr). rewrite Hr. simpl.
    destruct r.
    + eexists. split; [reflexivity|]. split; [reflexivity|].
      constructor; [exact Hx|]. constructor; assumption.
    + destruct IH as (l' & Hi & Hp & HP). rewrite Hi. simpl.
      eexists. split; [reflexivity|]. split.
      * rewrite <- Hp. apply perm_swap.
      * constructor; assumption.
Qed.

Lemma sort_into_permutes l :
  forall acc,
    Forall P acc -> Forall P l ->
    exists l', PySort.sort_into lt acc l = Ret l' /\
               Permutation (acc ++ l) l' /\ Forall P l'.
Proof.
  induction l as [|x l IH]; intros acc Hacc Hl; simpl.
  - exists acc. rewrite app_nil_r. split; [reflexivity|].
    split; [reflexivity|exact Hacc].
  - inversion Hl as [|? ? Hx Hl']; subst.
    destruct (insert_permutes x acc Hx Hacc) as (acc' & Hi & Hp & HP).
    rewrite Hi. simpl.
    destruct (IH acc' HP Hl') as (l' & Hs & Hp' & HP').
    exists l'. split; [exact Hs|]. split; [|exact HP'].
    rewrite <- Hp', <- Hp. symmetry. apply Permutation_middle.
Qed.

End SortPermutes.

Lemma natural_sorted_cases (files : list string) :
  (Forall (fun f => has_refused_part f = false) files ->
   exists sorted_files,
     NaturalSort.natural_sorted files = Ret sorted_files /\
     Permutation files sorted_files) /\
  (Exists (fun f => has_refused_part f = true) files ->
   NaturalSort.natural_sorted files = Exn ValueError).
Proof.
  unfold NaturalSort.natural_sorted, PySort.sorted_by_key. split.
  - intros Hall.
    assert (Hks : exists ks,
               pymap (fun x => let! k := NaturalSort.natural_sort_key x in
                               Ret (k, x)) files = Ret ks /\
               List.map snd ks = files /\
               Forall (fun kx => key_shape true (fst kx)) ks).
    { induction Hall as [|f files Hf _ IH]; simpl.
      - exists []. split; [reflexivity|]. split; [reflexivity|constructor].
      - destruct (natural_sort_key_cases f)
          as [[He _]|(_ & k & Hk & Hshape & _)]; [congruence|].
        rewrite Hk. simpl. destruct IH as (ks & Hp & Hm & HF). rewrite Hp.
        simpl. eexists. split; [reflexivity|]. simpl.
        split; [rewrite Hm; reflexivity|]. constructor; assumption. }
    destruct Hks as (ks & Hp & Hm & HF). rewrite Hp. simpl.
    destruct (sort_into_permutes
                (fun a b => NaturalSort.key_lt (fst a) (fst b))
                (fun kx => key_shape true (fst kx))
                (fun x y Hx Hy => key_lt_returns (fst x) (fst y) true Hx Hy)
                ks [] (List.Forall_nil _) HF) as (r & Hs & Hperm & _).
    unfold PySort.sort. rewrite Hs. simpl. eexists. split; [reflexivity|].
    rewrite <- Hm. apply Permutation_map. exact Hperm.
  - intros Hex.
    assert (Hks : pymap (fun x => let! k := NaturalSort.natural_sort_key x in
                                  Ret (k, x)) files = Exn ValueError).
    { induction Hex as [f files Hf|f files _ IH]; simpl.
      - destruct (natural_sort_key_cases f) as [[_ Hk]|[He _]];
          [|congruence].
        rewrite Hk. reflexivity.
      - destruct (natural_sort_key_cases f)
          as [[_ Hk]|(_ & k & Hk & _)]; rewrite Hk; simpl; [reflexivity|].
        rewrite IH. reflexivity. }
    rewrite Hks. reflexivity.
Qed.



(** ** The batch: what a run returns *)

(** What [sorted] returns is a rearrangement of what it is given. *)
Lemma sorted_permutes {A} (ltb : A -> A -> bool) (l : list A) :
  Permutation l (PySort.sorted ltb l).
Proof.
  destruct (sort_into_permutes (fun a b => Ret (ltb a b)) (fun _ => True)
              (fun x y _ _ => ex_intro _ (ltb x y) eq_refl) l []
              (List.Forall_nil _))
    as (l' & Hs & Hp & _).
  { apply List.Forall_forall. intros x _. exact I. }
  pose proof (sorted_spec ltb l) as Hspec. unfold PySort.sort in Hspec.
  rewrite Hs in Hspec. inversion Hspec. subst l'. exact Hp.
Qed.

Lemma filter_split_permutes {A} (f : A -> bool) (l : list A) :
  Permutation (List.filter f l ++ List.filter (fun x => negb (f x)) l) l.
Proof.
  induction l as [|x l IH]; simpl; [constructor|].
  destruct (f x); simpl.
  - constructor. exact IH.
  - rewrite <- Permutation_middle. constructor. exact IH.
Qed.

Section BatchResults.
Variable delay_seconds : delay.
Variable self : ImageTextExtractor.
Variable worlds : Z -> World.
Variable prompt : string.
Variable model : option string.
Variable max_retry_rounds : Z.

Local Abbreviation retry_rounds :=
  (Batch.retry_rounds delay_seconds self worlds prompt model max_retry_rounds).
Local Abbreviation result_of := (res self worlds prompt model).
Local Abbreviation fails := (failed self worlds prompt model).
Local Abbreviation is_final := (final_round max_retry_rounds).
Local Abbreviation requeued_in :=
  (requeued self worlds prompt model max_retry_rounds).
Local Abbreviation recorded_in :=
  (recorded self worlds prompt model max_retry_rounds).

Lemma paths_of_results r queue :
  List.map image_path_of (List.map (result_of r) queue) = queue.
Proof.
  induction queue as [|x queue IH]; simpl; [reflexivity|].
  rewrite res_path, IH. reflexivity.
Qed.

Lemma paths_of_successes r queue :
  List.map image_path_of (List.filter success (List.map (result_of r) queue))
  = List.filter (fun p => success (result_of r p)) queue.
Proof.
  induction queue as [|x queue IH]; simpl; [reflexivity|].
  destruct (success (result_of r x)); simpl; rewrite ?res_path, IH;
    reflexivity.
Qed.

(** A round shares the jobs of its queue between the results it records
    and the queue it leaves. *)
Lemma round_shares_queue r queue :
  Permutation (List.map image_path_of (recorded_in r queue)
                 ++ requeued_in r queue)
              queue.
Proof.
  unfold recorded, requeued. destruct (is_final r).
  - rewrite paths_of_results, app_nil_r. reflexivity.
  - rewrite paths_of_successes. unfold failed. apply filter_split_permutes.
Qed.

Lemma retry_rounds_paths rounds_left :
  forall r queue rs s s' out,
    Z.of_nat rounds_left = max_retry_rounds - r ->
    (rounds_left = O -> queue = []) ->
    retry_rounds rounds_left r queue rs s = Done s' out ->
    Permutation (List.map image_path_of (fst (fst out)))
                (List.map image_path_of rs ++ queue).
Proof.
  induction rounds_left as [|left' IH]; intros r queue rs s s' out Hleft Hq H;
    simpl in H.
  - inversion H; subst. simpl. rewrite (Hq eq_refl), app_nil_r. reflexivity.
  - destruct queue as [|x queue].
    + simpl in H. inversion H; subst. simpl. rewrite app_nil_r. reflexivity.
    + rewrite len_cons_nonzero in H.
      assert (Hr : (r <? max_retry_rounds) = true) by (apply Z.ltb_lt; lia).
      rewrite Hr in H. simpl negb in H. simpl andb in H. cbv iota in H.
      apply bind_done in H as (s1 & [q1 rs1] & Hfor & H).
      apply for_batch_value in Hfor. inversion Hfor; subst q1 rs1.
      apply bind_done in H as (s2 & u & _ & H).
      apply IH in H.
      * rewrite H, map_app, <- app_assoc.
        apply Permutation_app_head. apply round_shares_queue.
      * lia.
      * intros ->. unfold requeued.
        assert (Efin : is_final r = true).
        { unfold final_round. apply negb_true_iff, Z.ltb_ge. lia. }
        rewrite Efin. reflexivity.
Qed.

End BatchResults.



(** X9.  With the output folder made, [max_retry_rounds] zero or negative and an
    image to process, the batch reads no image and sends no request: it goes
    straight to the report, which raises ZeroDivisionError after writing its
    three counts, all zero. *)
Theorem batch_of_no_rounds
    (delay_seconds : delay) (self : ImageTextExtractor)
    (worlds : Z -> World) (prompt : string)
    (model : option string) (max_retry_rounds : Z)
    (globbed : list string) (skip_existing : bool) (s : store) :
  first_queue s skip_existing globbed <> [] ->
  max_retry_rounds <= 0 ->
  batch_extract_from_folder Made delay_seconds self worlds prompt model
                            max_retry_rounds globbed skip_existing s
  = Raised {| fs := <[summary_file_name :=
                        [LTitle; LRule; LTotal 0; LSuccessful 0; LFailed 0]]>
                      (fs s);
              log := log s ++ [EvWrite summary_file_name] |}
           ZeroDivisionError.
Proof.
  intros Hq Hmax. unfold batch_extract_from_folder.
  destruct (discover globbed) as [|f0 fl] eqn:Ed.
  { exfalso. apply Hq. unfold first_queue. rewrite Ed.
    destruct skip_existing; reflexivity. }
  destruct (first_queue s skip_existing globbed) as [|g0 gl];
    [contradiction|].
  replace (Z.to_nat max_retry_rounds) with O by lia. reflexivity.
Qed.

Lemma batch_of_no_rounds_witness :
  exists s',
    batch_extract_from_folder Made Pauses default_extractor (fun _ => world_fallback)
      "Extract all text from this image." None (-1)
      ["imgs/q2.jpeg"; "imgs/q1.jpeg"] true empty_store
    = Raised s' ZeroDivisionError /\
    log s' = [EvWrite "summary_report.txt"].
Proof.
  eexists. split.
  - apply batch_of_no_rounds; [vm_compute; discriminate|lia].
  - reflexivity.
Defined.

Lemma nothing_to_do delay_seconds self worlds prompt model max_retry_rounds
    globbed s :
  (forall p, In p globbed -> is_Some (fs s !! output_file_name p)) ->
  batch_extract_from_folder Made delay_seconds self worlds prompt model
                            max_retry_rounds globbed true s
  = Done s [].
Proof.
  intros Hall. unfold batch_extract_from_folder.
  destruct (discover globbed) as [|f0 fl] eqn:Ed; [reflexivity|].
  assert (Hq : first_queue s true globbed = []).
  { unfold first_queue. rewrite Ed.
    destruct (files_to_process s (f0 :: fl)) as [|g0 gl] eqn:Ef;
      [reflexivity|].
    assert (Hin : In g0 (files_to_process s (f0 :: fl)))
      by (rewrite Ef; left; reflexivity).
    apply files_to_process_spec in Hin as [Hin Hnone].
    assert (Hg : In g0 globbed).
    { apply (Permutation_in g0 (Permutation_sym
                                  (sorted_permutes PyPath.ltb globbed))).
      unfold discover in Ed. rewrite Ed. exact Hin. }
    destruct (Hall g0 Hg) as [x Hx]. congruence. }
  rewrite Hq. reflexivity.
Qed.

(** X10.  With the output folder made, when every image of the folder has its
    text file already, a batch with [skip_existing] returns the empty list and
    leaves the output folder and the log as they were: it reads nothing, sends
    nothing and writes no report; the same holds of an empty folder. *)
Theorem batch_with_nothing_to_do
    (delay_seconds : delay) (self : ImageTextExtractor)
    (worlds : Z -> World) (prompt : string)
    (model : option string) (max_retry_rounds : Z)
    (globbed : list string) (s : store) :
  (forall p, In p globbed -> is_Some (fs s !! output_file_name p)) ->
  batch_extract_from_folder Made delay_seconds self worlds prompt model
                            max_retry_rounds globbed true s
  = Done s [].
Proof. apply nothing_to_do. Qed.

Lemma batch_with_nothing_to_do_witness :
  batch_extract_from_folder Made Pauses default_extractor (fun _ => world_500)
    "Extract all text from this image." None 3 ["imgs/q1.jpeg"] true
    store_with_q1
  = Done store_with_q1 [].
Proof.
  apply batch_with_nothing_to_do.
  intros p [<-|[]]. vm_compute. eexists. reflexivity.
Defined.

(** ** The batch: a success without usage *)

(** X11.  With the output folder made, when the response for the first image of
    the queue is a success with a text and without a [usage] object, the batch
    raises AttributeError: the text file of the image has been written up to the
    rule after the text, without its token line, nothing else has been done, no
    report is written, and a later run with [skip_existing] takes the image for
    extracted. *)
Theorem success_without_usage_aborts
    (delay_seconds : delay) (self : ImageTextExtractor)
    (worlds : Z -> World) (prompt : string)
    (model : option string) (max_retry_rounds : Z)
    (globbed : list string) (skip_existing : bool) (s : store)
    (j : string) (rest : list string) (text : string) (m : option string)
    (a : Z) :
  first_queue s skip_existing globbed = j :: rest ->
  1 <= max_retry_rounds ->
  res self worlds prompt model 0 j = Success j (Some text) m None a ->
  exists s',
    batch_extract_from_folder Made delay_seconds self worlds prompt model
                              max_retry_rounds globbed skip_existing s
    = Raised s' AttributeError /\
    fs s' !! output_file_name j
    = Some [LImage (PyPath.name j); LModel m; LRetryRound 1; LRule;
            LText text; LRule] /\
    log s'
    = log s ++ fst (Batch.extract self worlds prompt model 0 j)
        ++ [EvWrite (output_file_name j)] /\
    ~ In j (first_queue s' true globbed).
Proof.
  intros Hq Hmax Hres. unfold batch_extract_from_folder.
  destruct (discover globbed) as [|f0 fl] eqn:Ed.
  { exfalso. revert Hq. unfold first_queue. rewrite Ed.
    destruct skip_existing; discriminate. }
  rewrite Hq.
  destruct (Z.to_nat max_retry_rounds) as [|n] eqn:En; [lia|].
  unfold res in Hres.
  destruct (Batch.extract self worlds prompt model 0 j) as [evs r] eqn:Ee.
  simpl in Hres. subst r.
  eexists. split; [|split; [|split]].
  - unfold bind. simpl Batch.retry_rounds.
    replace (0 <? max_retry_rounds) with true by (symmetry; apply Z.ltb_lt; lia).
    unfold bind. rewrite Ee.
    unfold bind, emit, save_success, write_then_raise.
    simpl. reflexivity.
  - simpl. apply lookup_insert_eq.
  - simpl. rewrite <- app_assoc. reflexivity.
  - intros Hin. unfold first_queue in Hin.
    apply files_to_process_spec in Hin as [_ Hnone]. simpl in Hnone.
    rewrite lookup_insert_eq in Hnone. discriminate Hnone.
Qed.

(** The service answers without a usage object. *)
Lemma success_without_usage_aborts_witness :
  exists s',
    batch_extract_from_folder Made Pauses default_extractor
      (fun _ => {| read_image := fun _ => inr "aW1hZ2U=";
                   post := fun _ _ _ =>
                     Response 200
                       (Completion {| content := Some "Question 1";
                                      reported_model := None;
                                      reported_usage := None |}) |})
      "Extract all text from this image." None 3 ["imgs/q1.jpeg"] true
      empty_store
    = Raised s' AttributeError /\
    is_Some (fs s' !! "q1_extracted.txt").
Proof.
  destruct (success_without_usage_aborts Pauses default_extractor
              (fun _ => {| read_image := fun _ => inr "aW1hZ2U=";
                           post := fun _ _ _ =>
                             Response 200
                               (Completion {| content := Some "Question 1";
                                              reported_model := None;
                                              reported_usage := None |}) |})
              "Extract all text from this image." None 3 ["imgs/q1.jpeg"] true
              empty_store "imgs/q1.jpeg" [] "Question 1" None 1)
    as (s' & Hrun & Hfile & _).
  - vm_compute. reflexivity.
  - lia.
  - reflexivity.
  - exists s'. split; [exact Hrun|].
    change "q1_extracted.txt" with (output_file_name "imgs/q1.jpeg").
    rewrite Hfile. eexists. reflexivity.
Defined.

(** ** The batch: a second run *)

Lemma keeps_files_refl s : keeps_files s s.
Proof. intros f H. exact H. Qed.

Lemma keeps_files_trans s1 s2 s3 :
  keeps_files s1 s2 -> keeps_files s2 s3 -> keeps_files s1 s3.
Proof. intros H1 H2 f H. apply H2, H1, H. Qed.

Lemma keeps_files_written f lines s : keeps_files s (written f lines s).
Proof.
  intros g H. simpl. apply lookup_insert_is_Some.
  destruct (decide (f = g)); [left; assumption|right; split; assumption].
Qed.

Lemma successes_saved_mono rs s s' :
  keeps_files s s' -> successes_saved rs s -> successes_saved rs s'.
Proof.
  intros Hk Hs. unfold successes_saved in *.
  eapply List.Forall_impl; [|exact Hs]. intros x Hx Hsx. apply Hk, Hx, Hsx.
Qed.

Section SecondRun.
Variable delay_seconds : delay.
Variable self : ImageTextExtractor.
Variable worlds : Z -> World.
Variable prompt : string.
Variable model : option string.
Variable max_retry_rounds : Z.

Local Abbreviation extract := (Batch.extract self worlds prompt model).
Local Abbreviation process_one :=
  (Batch.process_one delay_seconds self worlds prompt model max_retry_rounds).
Local Abbreviation for_batch :=
  (Batch.for_batch delay_seconds self worlds prompt model max_retry_rounds).
Local Abbreviation retry_rounds :=
  (Batch.retry_rounds delay_seconds self worlds prompt model max_retry_rounds).
Local Abbreviation result_of := (res self worlds prompt model).

Lemma process_one_files r n i p q rs s s' v :
  process_one r n i p (q, rs) s = Done s' v ->
  keeps_files s s' /\
  (success (result_of r p) = true ->
   is_Some (fs s' !! output_file_name p)).
Proof.
  unfold Batch.process_one, res, bind, emit, ret, save_success, save_error,
    write_file, write_then_raise, sleep_delay.
  destruct (extract r p) as [evs [ip [text|] m [u|] a|ip e t]]; simpl;
    destruct (r <? max_retry_rounds - 1);
    (destruct (i <? n); [destruct delay_seconds|]); simpl;
    intros H; inversion H; subst; clear H;
    (split;
     [first [intros f Hf; exact Hf
            |intros f Hf; simpl; apply lookup_insert_is_Some;
             destruct (decide (output_file_name p = f));
             [left; assumption|right; split; assumption]
            |intros f Hf; simpl; apply lookup_insert_is_Some;
             destruct (decide (error_file_name p = f));
             [left; assumption|right; split; assumption]]
     |intros Hs; first [discriminate Hs
                       |simpl; rewrite lookup_insert_eq; eexists;
                        reflexivity]]).
Qed.

Lemma for_batch_files r n rest :
  forall i q rs s s' v,
    for_batch r n i rest (q, rs) s = Done s' v ->
    successes_saved rs s ->
    keeps_files s s' /\ successes_saved (snd v) s'.
Proof.
  induction rest as [|p rest IH]; intros i q rs s s' v H Hs; simpl in H.
  - inversion H; subst. split; [apply keeps_files_refl|exact Hs].
  - apply bind_done in H as (s1 & st1 & H1 & H2).
    pose proof (process_one_files _ _ _ _ _ _ _ _ _ H1) as [Hk Hp].
    apply process_one_value in H1. subst st1.
    assert (Hs1 : successes_saved rs s1) by (eapply successes_saved_mono; eauto).
    destruct (failed self worlds prompt model r p) eqn:Ef;
      [destruct (final_round max_retry_rounds r)|].
    + apply IH in H2.
      * destruct H2 as [Hk2 Hs2]. split; [|exact Hs2].
        eapply keeps_files_trans; eassumption.
      * apply Forall_app. split; [exact Hs1|].
        constructor; [|constructor]. rewrite res_path. exact Hp.
    + apply IH in H2; [|exact Hs1].
      destruct H2 as [Hk2 Hs2]. split; [|exact Hs2].
      eapply keeps_files_trans; eassumption.
    + apply IH in H2.
      * destruct H2 as [Hk2 Hs2]. split; [|exact Hs2].
        eapply keeps_files_trans; eassumption.
      * apply Forall_app. split; [exact Hs1|].
        constructor; [|constructor]. rewrite res_path. exact Hp.
Qed.

Lemma retry_rounds_files rounds_left :
  forall r queue rs s s' out,
    retry_rounds rounds_left r queue rs s = Done s' out ->
    successes_saved rs s ->
    keeps_files s s' /\ successes_saved (fst (fst out)) s'.
Proof.
  induction rounds_left as [|left' IH]; intros r queue rs s s' out H Hs;
    simpl in H.
  - inversion H; subst. split; [apply keeps_files_refl|exact Hs].
  - destruct (negb (len queue =? 0) && (r <? max_retry_rounds)).
    + apply bind_done in H as (s1 & [q1 rs1] & Hfor & H).
      apply for_batch_files in Hfor; [|exact Hs].
      destruct Hfor as [Hk1 Hs1]. simpl in Hs1.
      apply bind_done in H as (s2 & u & Hp & H).
      assert (Hk2 : keeps_files s1 s2).
      { destruct (negb (len q1 =? 0)); simpl in Hp; inversion Hp; subst;
          intros f Hf; exact Hf. }
      apply IH in H; [|eapply successes_saved_mono; eassumption].
      destruct H as [Hk3 Hs3]. split; [|exact Hs3].
      eapply keeps_files_trans; [exact Hk1|].
      eapply keeps_files_trans; eassumption.
    + inversion H; subst. split; [apply keeps_files_refl|exact Hs].
Qed.

End SecondRun.

(** X12.  When a batch has returned and all its results are successes, a
    second batch over the same folder, with [skip_existing], finds
    everything extracted: it returns the empty list and changes neither the
    output folder nor the log, so it reads no image and sends no request. *)
Theorem second_run_does_nothing
    (output_folder : folder) (delay_seconds delay_seconds' : delay)
    (self : ImageTextExtractor) (worlds worlds' : Z -> World)
    (prompt prompt' : string) (model model' : option string)
    (max_retry_rounds max_retry_rounds' : Z)
    (globbed : list string) (skip_existing : bool) (s s' : store)
    (results : list result) :
  batch_extract_from_folder output_folder delay_seconds self worlds prompt
                            model max_retry_rounds globbed skip_existing s
  = Done s' results ->
  Forall (fun x => success x = true) results ->
  batch_extract_from_folder output_folder delay_seconds' self worlds'
                            prompt' model' max_retry_rounds' globbed true s'
  = Done s' [].
Proof.
  intros Hrun Hall.
  destruct output_folder as [|e]; [|discriminate Hrun].
  apply nothing_to_do. intros p Hp.
  assert (Hd : In p (discover globbed)).
  { apply (Permutation_in p (sorted_permutes PyPath.ltb globbed)). exact Hp. }
  revert Hrun. unfold batch_extract_from_folder.
  destruct (discover globbed) as [|f0 fl] eqn:Ed; [destruct Hd|].
  destruct (first_queue s skip_existing globbed) as [|g0 gl] eqn:Eq.
  - intros H. inversion H; subst.
    unfold first_queue in Eq. rewrite Ed in Eq.
    destruct skip_existing; [|discriminate Eq].
    destruct (fs s' !! output_file_name p) eqn:Ef; [eexists; reflexivity|].
    assert (Hin : In p (files_to_process s' (f0 :: fl)))
      by (apply files_to_process_spec; split; assumption).
    rewrite Eq in Hin. destruct Hin.
  - intros H. apply bind_done in H as (s1 & [[all_results q] R] & Hloop & H).
    apply bind_done in H as (s2 & u & Hsum & H).
    inversion H; subst s2 all_results. clear H.
    assert (Hk2 : keeps_files s1 s').
    { pose proof (summary_report_frame p results s1) as Hf. clear Hf.
      revert Hsum. unfold _create_summary_report.
      destruct (len results =? 0); [discriminate|].
      destruct (token_sum results); [|discriminate].
      intros Hsum. inversion Hsum. apply keeps_files_written. }
    pose proof (retry_rounds_files delay_seconds self worlds prompt model
                  max_retry_rounds
                  _ _ _ _ _ _ _ Hloop (List.Forall_nil _)) as [Hk1 Hs1].
    simpl in Hs1.
    destruct (in_dec string_dec p (g0 :: gl)) as [Hin|Hnin].
    + assert (Hperm : Permutation (List.map image_path_of results)
                                  (List.map image_path_of [] ++ g0 :: gl)).
      { assert (Hcases : 1 <= max_retry_rounds \/ max_retry_rounds <= 0)
          by lia.
        destruct Hcases as [Hmax|Hmax].
        - change results with (fst (fst (results, q, R))).
          eapply retry_rounds_paths; [| |exact Hloop]; lia.
        - exfalso. revert Hloop Hsum.
          replace (Z.to_nat max_retry_rounds) with O by lia. simpl.
          intros Hloop. inversion Hloop; subst.
          unfold _create_summary_report. simpl. discriminate. }
      simpl in Hperm.
      apply (Permutation_in p (Permutation_sym Hperm)) in Hin.
      apply in_map_iff in Hin as (x & Hx & Hin). subst p.
      apply Hk2. unfold successes_saved in Hs1.
      rewrite List.Forall_forall in Hs1, Hall.
      apply Hs1; [exact Hin|]. apply Hall. exact Hin.
    + apply Hk2, Hk1.
      unfold first_queue in Eq. rewrite Ed in Eq.
      destruct skip_existing; [|rewrite <- Eq in Hnin; contradiction].
      destruct (fs s !! output_file_name p) eqn:Ef; [eexists; reflexivity|].
      exfalso. apply Hnin. rewrite <- Eq.
      apply files_to_process_spec. split; assumption.
Qed.

Lemma second_run_does_nothing_witness :
  let first_run :=
    batch_extract_from_folder Made Pauses default_extractor (fun _ => world_fallback)
      "Extract all text from this image." None 3
      ["imgs/q2.jpeg"; "imgs/q1.jpeg"] true empty_store in
  batch_extract_from_folder Made Pauses default_extractor (fun _ => world_500)
    "Extract all text from this image." None 3
    ["imgs/q2.jpeg"; "imgs/q1.jpeg"] true (final_store first_run)
  = Done (final_store first_run) [].
Proof.
  cbv zeta.
  eapply (second_run_does_nothing Made Pauses Pauses default_extractor
            (fun _ => world_fallback)
            (fun _ => world_500) "Extract all text from this image."
            "Extract all text from this image." None None 3 3
            ["imgs/q2.jpeg"; "imgs/q1.jpeg"] true empty_store).
  - vm_compute. reflexivity.
  - repeat constructor.
Defined.

(** ** The report: the list of failures *)

Lemma failed_items_of results :
  List.flat_map failed_item results
  = List.map (fun x => LFailedItem (PyPath.name (image_path_of x)) (error_of x))
             (List.filter (fun x => negb (success x)) results).
Proof.
  induction results as [|x results IH]; simpl; [reflexivity|].
  destruct x as [ip text m u a|ip e t]; simpl; rewrite IH; reflexivity.
Qed.

Lemma filter_failed_items results :
  List.filter is_failed_item (List.flat_map failed_item results)
  = List.flat_map failed_item results.
Proof.
  induction results as [|x results IH]; simpl; [reflexivity|].
  destruct x as [ip text m u a|ip e t]; simpl; rewrite IH; reflexivity.
Qed.

(** The lines of the report up to the token total, and after them any
    number of token totals: the failed images are listed among them, under
    their heading, when there is one. *)
Lemma report_lists_failures (results : list result) (totals : list Z) :
  let report :=
    ([LTitle; LRule; LTotal (len results);
      LSuccessful (success_count results);
      LFailed (failure_count results)]
     ++ [LSuccessRate (success_count results) (len results); LRule]
     ++ (if 0 <? failure_count results
         then LFailedHeader :: List.flat_map failed_item results
         else []))
    ++ List.map LTotalTokens totals in
  List.filter is_failed_item report
  = List.map (fun x => LFailedItem (PyPath.name (image_path_of x))
                                   (error_of x))
             (List.filter (fun x => negb (success x)) results) /\
  (In LFailedHeader report <->
   exists x, In x results /\ success x = false).
Proof.
  intros report. subst report.
  assert (Hcount : 0 < failure_count results <->
                   exists x, In x results /\ success x = false).
  { unfold failure_count, len. split.
    - intros H.
      destruct (List.filter (fun r => negb (success r)) results) as [|x l] eqn:E;
        [simpl in H; lia|].
      assert (Hin : In x (List.filter (fun r => negb (success r)) results))
        by (rewrite E; left; reflexivity).
      apply List.filter_In in Hin as [Hin Hx]. exists x.
      split; [exact Hin|]. apply negb_true_iff. exact Hx.
    - intros (x & Hin & Hx).
      assert (Hf : In x (List.filter (fun r => negb (success r)) results))
        by (apply List.filter_In; split; [exact Hin|rewrite Hx; reflexivity]).
      destruct (List.filter (fun r => negb (success r)) results);
        [destruct Hf|simpl; lia]. }
  assert (Htot : List.filter is_failed_item (List.map LTotalTokens totals)
                 = []).
  { induction totals as [|n totals IH]; [reflexivity|exact IH]. }
  assert (Hnot : ~ In LFailedHeader (List.map LTotalTokens totals)).
  { intros H. apply in_map_iff in H as (n & Hn & _). discriminate Hn. }
  rewrite List.filter_app, Htot, app_nil_r.
  destruct (0 <? failure_count results) eqn:E.
  - apply Z.ltb_lt in E. split.
    + simpl. rewrite filter_failed_items. apply failed_items_of.
    + split; [intros _; apply Hcount; exact E|].
      intros _. apply in_or_app. left. simpl. tauto.
  - apply Z.ltb_ge in E. split.
    + simpl.
      assert (Hnil : List.filter (fun x => negb (success x)) results = []).
      { unfold failure_count, len in E.
        destruct (List.filter (fun r => negb (success r)) results);
          [reflexivity|simpl in E; lia]. }
      rewrite Hnil. reflexivity.
    + split.
      * intros H. apply in_app_or in H as [H|H]; [|contradiction].
        simpl in H.
        repeat (destruct H as [H|H]; [discriminate H|]). destruct H.
      * intros H. apply Hcount in H. lia.
Qed.

(** X13.  Whether [_create_summary_report] returns or raises, and whatever
    the results, the lines of the failed images in the file it leaves are,
    in the order of the results, the name and the error of each failure
    and of nothing else; the heading of that list is there exactly when at
    least one result is a failure. *)
Theorem summary_lists_failures (results : list result) (s : store) :
  exists report,
    final_store (_create_summary_report results s)
    = written summary_file_name report s /\
    fs (final_store (_create_summary_report results s)) !! summary_file_name
    = Some report /\
    List.filter is_failed_item report
    = List.map (fun x => LFailedItem (PyPath.name (image_path_of x))
                                     (error_of x))
               (List.filter (fun x => negb (success x)) results) /\
    (In LFailedHeader report <->
     exists x, In x results /\ success x = false).
Proof.
  assert (Hf : len results - success_count results = failure_count results)
    by (pose proof (success_failure_count results); lia).
  unfold _create_summary_report. rewrite Hf.
  destruct (len results =? 0) eqn:E.
  - apply Z.eqb_eq, len_nil_iff in E. subst results.
    eexists. split; [reflexivity|].
    split; [simpl; apply lookup_insert_eq|].
    split; [reflexivity|]. split.
    + simpl. intros H.
      repeat (destruct H as [H|H]; [discriminate H|]). destruct H.
    + intros (x & [] & _).
  - destruct (token_sum results) as [total|e].
    + eexists. split; [reflexivity|].
      split; [simpl; apply lookup_insert_eq|].
      exact (report_lists_failures results [total]).
    + eexists. split; [reflexivity|].
      split; [simpl; apply lookup_insert_eq|].
      pose proof (report_lists_failures results []) as H.
      simpl List.map in H. rewrite app_nil_r in H. exact H.
Qed.

Lemma summary_lists_failures_witness :
  exists report,
    final_store (_create_summary_report sample_results empty_store)
    = written summary_file_name report empty_store /\
    List.filter is_failed_item report
    = [LFailedItem "q2.jpeg" (Some (HttpErrorText 429))].
Proof.
  destruct (summary_lists_failures sample_results empty_store)
    as (report & Hrun & _ & Hitems & _).
  exists report. split; [exact Hrun|]. rewrite Hitems. reflexivity.
Defined.

(** ** The batch: a job that succeeds after failures *)

Lemma NoDup_map_same {A B} (f : A -> B) (l : list A) x y :
  List.NoDup (List.map f l) -> In x l -> In y l -> f x = f y -> x = y.
Proof.
  induction l as [|z l IH]; simpl; intros Hnd Hx Hy Hf; [destruct Hx|].
  apply List.NoDup_cons_iff in Hnd as [Hz Hl].
  destruct Hx as [->|Hx]; destruct Hy as [->|Hy].
  - reflexivity.
  - exfalso. apply Hz. rewrite Hf. apply in_map. exact Hy.
  - exfalso. apply Hz. rewrite <- Hf. apply in_map. exact Hx.
  - apply IH; assumption.
Qed.

Section ConvergingJob.
Variable delay_seconds : delay.
Variable self : ImageTextExtractor.
Variable worlds : Z -> World.
Variable prompt : string.
Variable model : option string.
Variable max_retry_rounds : Z.

Local Abbreviation extract := (Batch.extract self worlds prompt model).
Local Abbreviation process_one :=
  (Batch.process_one delay_seconds self worlds prompt model max_retry_rounds).
Local Abbreviation for_batch :=
  (Batch.for_batch delay_seconds self worlds prompt model max_retry_rounds).
Local Abbreviation retry_rounds :=
  (Batch.retry_rounds delay_seconds self worlds prompt model max_retry_rounds).
Local Abbreviation result_of := (res self worlds prompt model).
Local Abbreviation fails := (failed self worlds prompt model).
Local Abbreviation is_final := (final_round max_retry_rounds).
Local Abbreviation requeued_in :=
  (requeued self worlds prompt model max_retry_rounds).
Local Abbreviation recorded_in :=
  (recorded self worlds prompt model max_retry_rounds).
Local Abbreviation rounds_events_of :=
  (rounds_events self worlds prompt model max_retry_rounds).
Local Abbreviation success_lines_of := (success_lines self worlds prompt model).

Lemma process_one_saved j r n i st s s' v :
  fails r j = false ->
  process_one r n i j st s = Done s' v ->
  grows j (job_events j (fst (extract r j)) ++ [EvWrite (output_file_name j)])
        s s' /\
  fs s' !! output_file_name j = Some (success_lines_of r j) /\
  fs s' !! error_file_name j = fs s !! error_file_name j.
Proof.
  unfold Batch.process_one, failed, success_lines, res, bind, emit, ret,
    save_success, save_error, write_file, write_then_raise, sleep_delay.
  destruct st as [q rs].
  destruct (extract r j) as [evs [ip [text|] m [u|] a|ip e t]]; simpl;
    intros Hf; try discriminate Hf; try (intros H; discriminate H).
  assert (Hw : job_events j [EvWrite (output_file_name j)]
               = [EvWrite (output_file_name j)]).
  { unfold job_events. simpl. rewrite String.eqb_refl. reflexivity. }
  assert (Hd : job_events j [EvDelay] = []) by reflexivity.
  (destruct (i <? n); [destruct delay_seconds|]); simpl;
    intros H; inversion H; subst; simpl;
    (split; [|split]);
    try (apply lookup_insert_eq);
    try (apply lookup_insert_ne; apply output_is_not_error).
  - exists (evs ++ [EvWrite (output_file_name j)] ++ [EvDelay]).
    split; [simpl; rewrite <- ?app_assoc; reflexivity|].
    rewrite !job_events_app, Hw, Hd. reflexivity.
  - exists (evs ++ [EvWrite (output_file_name j)]).
    split; [simpl; rewrite <- ?app_assoc; reflexivity|].
    rewrite !job_events_app, Hw. reflexivity.
Qed.

Lemma for_batch_saved j r n batch :
  forall i st s s' v,
    List.NoDup (List.map PyPath.stem batch) ->
    In j batch ->
    fails r j = false ->
    for_batch r n i batch st s = Done s' v ->
    grows j (job_events j (fst (extract r j))
               ++ [EvWrite (output_file_name j)]) s s' /\
    fs s' !! output_file_name j = Some (success_lines_of r j) /\
    fs s' !! error_file_name j = fs s !! error_file_name j.
Proof.
  intros i st s s' v Hnd Hin Hf H.
  apply in_split in Hin as (l1 & l2 & ->).
  rewrite map_app in Hnd. simpl in Hnd.
  assert (H1 : Forall (fun p => PyPath.stem p <> PyPath.stem j) l1).
  { apply List.Forall_forall. intros x Hx Hst.
    apply List.NoDup_remove_2 in Hnd. apply Hnd. apply in_or_app. left.
    rewrite <- Hst. apply in_map. exact Hx. }
  assert (H2 : Forall (fun p => PyPath.stem p <> PyPath.stem j) l2).
  { apply List.Forall_forall. intros x Hx Hst.
    apply List.NoDup_remove_2 in Hnd. apply Hnd. apply in_or_app. right.
    rewrite <- Hst. apply in_map. exact Hx. }
  rewrite for_batch_app in H.
  apply bind_done in H as (s1 & st1 & Ha & Hb).
  simpl in Hb. apply bind_done in Hb as (s2 & st2 & Hb & Hc).
  destruct (keeps_done _ _ _ _ _ _
              (for_batch_frame delay_seconds self worlds prompt model max_retry_rounds
                 j r n l1 i st H1) Ha) as [[[Fo1 Fe1] G1] _].
  destruct (keeps_done _ _ _ _ _ _
              (for_batch_frame delay_seconds self worlds prompt model max_retry_rounds
                 j r n l2 _ st2 H2) Hc) as [[[Fo3 Fe3] G3] _].
  destruct (process_one_saved j r n _ st1 s1 s2 st2 Hf Hb) as (G2 & Fo2 & Fe2).
  split; [|split].
  - pose proof (grows_trans _ _ _ _ _ _ (grows_trans _ _ _ _ _ _ G1 G2) G3)
      as G.
    simpl in G. rewrite app_nil_r in G. exact G.
  - congruence.
  - congruence.
Qed.

Lemma results_of_other_successes j r l :
  ~ In j l ->
  results_of j (List.filter success (List.map (result_of r) l)) = [].
Proof.
  induction l as [|x l IH]; intros Hn; [reflexivity|].
  simpl. assert (Hl : ~ In j l) by (intros H; apply Hn; right; exact H).
  destruct (success (result_of r x)); [|apply IH; exact Hl].
  simpl. rewrite res_path.
  destruct (String.eqb x j) eqn:E; [|apply IH; exact Hl].
  apply String.eqb_eq in E. exfalso. apply Hn. left. exact E.
Qed.

Lemma results_of_saved j r l :
  List.NoDup l -> In j l -> fails r j = false ->
  results_of j (recorded_in r l) = [result_of r j].
Proof.
  intros Hnd Hin Hf. unfold recorded.
  destruct (is_final r);
    [apply results_of_job; assumption|].
  unfold failed in Hf. apply negb_false_iff in Hf.
  induction l as [|x l IH]; [destruct Hin|].
  apply List.NoDup_cons_iff in Hnd as [Hx Hl]. simpl.
  destruct (String.eqb x j) eqn:E.
  - apply String.eqb_eq in E. subst x. rewrite Hf. simpl.
    rewrite res_path, String.eqb_refl.
    fold (results_of j (List.filter success (List.map (result_of r) l))).
    rewrite results_of_other_successes by exact Hx. reflexivity.
  - destruct Hin as [Hin|Hin];
      [apply String.eqb_neq in E; contradiction|].
    destruct (success (result_of r x)); [|apply IH; assumption].
    simpl. rewrite res_path, E. apply IH; assumption.
Qed.

(** The results of the loop are those it started with, followed by results
    for jobs of its queue. *)
Lemma retry_rounds_appends rounds_left :
  forall r queue rs s s' out,
    retry_rounds rounds_left r queue rs s = Done s' out ->
    exists more,
      fst (fst out) = rs ++ more /\
      Forall (fun x => In (image_path_of x) queue) more.
Proof.
  induction rounds_left as [|left' IH]; intros r queue rs s s' out H;
    simpl in H.
  - inversion H. exists []. rewrite app_nil_r. split; [reflexivity|constructor].
  - destruct (negb (len queue =? 0) && (r <? max_retry_rounds));
      [|inversion H; exists []; rewrite app_nil_r;
        split; [reflexivity|constructor]].
    apply bind_done in H as (s1 & [q1 rs1] & Hfor & H).
    apply for_batch_value in Hfor. inversion Hfor; subst q1 rs1.
    apply bind_done in H as (s2 & u & _ & H).
    apply IH in H as (more & Hout & Hmore).
    exists (recorded_in r queue ++ more). split.
    + rewrite Hout. simpl. rewrite <- app_assoc. reflexivity.
    + apply Forall_app. split.
      * unfold recorded. destruct (is_final r); apply List.Forall_forall;
          intros x Hx.
        -- apply in_map_iff in Hx as (y & <- & Hy). rewrite res_path. exact Hy.
        -- apply List.filter_In in Hx as [Hx _].
           apply in_map_iff in Hx as (y & <- & Hy). rewrite res_path. exact Hy.
      * eapply List.Forall_impl; [|exact Hmore]. intros x Hx.
        eapply requeued_subset. exact Hx.
Qed.

Lemma results_of_elsewhere j more queue :
  ~ In j queue ->
  Forall (fun x => In (image_path_of x) queue) more ->
  results_of j more = [].
Proof.
  intros Hn H. induction H as [|x more Hx _ IH]; [reflexivity|].
  simpl. destruct (String.eqb (image_path_of x) j) eqn:E; [|exact IH].
  apply String.eqb_eq in E. rewrite E in Hx. contradiction.
Qed.

Lemma retry_rounds_saved j k rounds_left :
  forall r queue rs s s' out,
    Z.of_nat rounds_left = max_retry_rounds - r ->
    r <= k < max_retry_rounds ->
    List.NoDup (List.map PyPath.stem queue) ->
    In j queue ->
    (forall i, r <= i < k -> fails i j = true) ->
    fails k j = false ->
    retry_rounds rounds_left r queue rs s = Done s' out ->
    grows j (rounds_events_of j r (Z.to_nat (k - r))
               ++ job_events j (fst (extract k j))
               ++ [EvWrite (output_file_name j)]) s s' /\
    fs s' !! output_file_name j = Some (success_lines_of k j) /\
    fs s' !! error_file_name j = fs s !! error_file_name j /\
    results_of j (fst (fst out)) = results_of j rs ++ [result_of k j].
Proof.
  induction rounds_left as [|left' IH];
    intros r queue rs s s' out Hleft Hk Hnd Hin Hfail Hok H; [lia|].
  simpl in H.
  assert (Hq : (len queue =? 0) = false)
    by (destruct queue; [destruct Hin|apply len_cons_nonzero]).
  assert (Hr : (r <? max_retry_rounds) = true) by (apply Z.ltb_lt; lia).
  rewrite Hq, Hr in H. simpl in H.
  apply bind_done in H as (s1 & [q1 rs1] & Hfor & H).
  pose proof Hfor as Hv. apply for_batch_value in Hv.
  simpl in Hv. inversion Hv; subst q1 rs1. clear Hv.
  apply bind_done in H as (s2 & u & Hp & H).
  apply (pause_frame j) in Hp. destruct Hp as [[Fo2 Fe2] G2].
  assert (Hndq : List.NoDup queue) by (eapply NoDup_map_inv; exact Hnd).
  destruct (Z.eq_dec r k) as [->|Hne].
  - destruct (for_batch_saved j k _ queue _ _ _ _ _ Hnd Hin Hok Hfor)
      as (G1 & Fo1 & Fe1).
    assert (Hrest : Forall (fun p => PyPath.stem p <> PyPath.stem j)
                           (requeued_in k queue)).
    { apply List.Forall_forall. intros x Hx Hst.
      assert (Hxq : In x queue) by (eapply requeued_subset; exact Hx).
      assert (x = j) by (eapply NoDup_map_same; eassumption). subst x.
      unfold requeued in Hx. destruct (is_final k); [destruct Hx|].
      apply List.filter_In in Hx as [_ Hx]. congruence. }
    assert (Hnin : ~ In j (requeued_in k queue)).
    { intros Hx. rewrite List.Forall_forall in Hrest.
      apply (Hrest j Hx). reflexivity. }
    destruct (keeps_done _ _ _ _ _ _
                (retry_rounds_frame delay_seconds self worlds prompt model
                   max_retry_rounds
                   j left' (k + 1) _ (rs ++ recorded_in k queue) Hrest) H)
      as [[[Fo3 Fe3] G3] _].
    apply retry_rounds_appends in H as (more & Hout & Hmore).
    replace (Z.to_nat (k - k)) with O by lia. simpl rounds_events.
    rewrite app_nil_l.
    split; [|split; [congruence|split; [congruence|]]].
    + pose proof (grows_trans _ _ _ _ _ _
                    (grows_trans _ _ _ _ _ _ G1 G2) G3) as G.
      rewrite !app_nil_r in G. exact G.
    + rewrite Hout, !results_of_app.
      rewrite (results_of_elsewhere j more _ Hnin Hmore), app_nil_r.
      rewrite results_of_saved by assumption. reflexivity.
  - assert (Hf : fails r j = true) by (apply Hfail; lia).
    destruct (for_batch_job delay_seconds self worlds prompt model
                max_retry_rounds j r _
                queue _ _ _ _ _ Hnd Hin Hf Hfor) as (G1 & Fo1 & Fe1).
    assert (Efin : is_final r = false).
    { unfold final_round. apply negb_false_iff, Z.ltb_lt. lia. }
    revert H. unfold requeued, recorded. rewrite Efin. intros H.
    rewrite Efin in Fe1.
    apply IH in H; [|lia|lia|apply NoDup_map_filter; exact Hnd
                    |apply List.filter_In; split; assumption
                    |intros i Hi; apply Hfail; lia|exact Hok].
    destruct H as (G3 & Fo3 & Fe3 & Hres).
    replace (Z.to_nat (k - r)) with (S (Z.to_nat (k - (r + 1)))) by lia.
    simpl rounds_events.
    split; [|split; [exact Fo3|split; [congruence|]]].
    + pose proof (grows_trans _ _ _ _ _ _
                    (grows_trans _ _ _ _ _ _ G1 G2) G3) as G.
      rewrite app_nil_r in G. rewrite <- app_assoc. exact G.
    + rewrite Hres, results_of_app, results_of_successes by exact Hf.
      rewrite app_nil_r. reflexivity.
Qed.

(** No error file is written for [j] in rounds that are not the last. *)
Lemma rounds_events_no_error_write j rounds :
  forall r,
    r + Z.of_nat rounds < max_retry_rounds ->
    List.filter (is_error_write j) (rounds_events_of j r rounds) = [].
Proof.
  induction rounds as [|rounds IH]; intros r Hr; [reflexivity|].
  simpl. rewrite List.filter_app. unfold round_events at 1.
  rewrite List.filter_app, error_writes_of_job_events.
  rewrite (error_writes_of_own j j) by apply extract_shape.
  assert (Efin : is_final r = false).
  { unfold final_round. apply negb_false_iff, Z.ltb_lt. lia. }
  rewrite Efin. simpl. apply IH. lia.
Qed.

End ConvergingJob.



(** ** Strings: lines, white space and numbers *)

Import PyText.

Lemma append_cons c a b : String c a +:+ b = String c (a +:+ b).
Proof. reflexivity. Qed.

Lemma append_nil_r a : a +:+ "" = a.
Proof.
  induction a as [|c a IH]; [reflexivity|].
  rewrite append_cons, IH. reflexivity.
Qed.

Lemma append_is_nil a b : a +:+ b = "" -> a = "" /\ b = "".
Proof. destruct a; [intros H; split; [reflexivity|exact H]|discriminate]. Qed.

Lemma all_chars_app f a b :
  PyStr.all_chars f (a +:+ b) = PyStr.all_chars f a && PyStr.all_chars f b.
Proof.
  induction a as [|c a IH]; [reflexivity|].
  rewrite append_cons. simpl. rewrite IH. apply andb_assoc.
Qed.

Lemma all_chars_impl (f g : ascii -> bool) s :
  (forall c, f c = true -> g c = true) ->
  PyStr.all_chars f s = true -> PyStr.all_chars g s = true.
Proof.
  intros Hfg. induction s as [|c s IH]; [reflexivity|]. simpl.
  intros H. apply andb_true_iff in H as [Hc Hs].
  rewrite (Hfg c Hc), (IH Hs). reflexivity.
Qed.

Lemma no_char_app c a b : no_char c a -> no_char c b -> no_char c (a +:+ b).
Proof.
  unfold no_char. intros Ha Hb. rewrite all_chars_app, Ha, Hb. reflexivity.
Qed.

(** *** [split] and [join] *)

Lemma split_one_line sep a : no_char sep a -> PyStr.split sep a = [a].
Proof.
  unfold no_char. induction a as [|c a IH]; [reflexivity|]. simpl.
  intros H. apply andb_true_iff in H as [Hc Ha].
  apply negb_true_iff in Hc. rewrite Hc, (IH Ha). reflexivity.
Qed.

Lemma concat_split sep s :
  String.concat (String sep "") (PyStr.split sep s) = s.
Proof.
  induction s as [|c s IH]; [reflexivity|]. simpl.
  pose proof (split_nonempty sep s) as Hne.
  destruct (PyStr.split sep s) as [|h t] eqn:E; [contradiction|].
  destruct (Ascii.eqb c sep) eqn:Ec.
  - apply Ascii.eqb_eq in Ec. subst c.
    change (String.concat (String sep "") ("" :: h :: t))
      with (String sep (String.concat (String sep "") (h :: t))).
    rewrite IH. reflexivity.
  - destruct t as [|h' t].
    + simpl in *. rewrite IH. reflexivity.
    + change (String.concat (String sep "") (String c h :: h' :: t))
        with (String c (String.concat (String sep "") (h :: h' :: t))).
      rewrite IH. reflexivity.
Qed.

(** *** Reading with universal newlines *)

Lemma read_text_plain a b :
  no_char CR a -> read_text (a +:+ b) = a +:+ read_text b.
Proof.
  unfold no_char. induction a as [|c a IH]; [reflexivity|]. simpl.
  intros H. apply andb_true_iff in H as [Hc Ha].
  apply negb_true_iff in Hc. rewrite append_cons. simpl.
  rewrite Hc, (IH Ha). reflexivity.
Qed.

Lemma read_text_same a : no_char CR a -> read_text a = a.
Proof.
  intros H. rewrite <- (append_nil_r a) at 1.
  rewrite read_text_plain by exact H. apply append_nil_r.
Qed.

Lemma read_text_cr_lf s :
  read_text (String CR (String LF s)) = String LF (read_text s).
Proof. reflexivity. Qed.

Lemma read_text_cr c s :
  Ascii.eqb c LF = false ->
  read_text (String CR (String c s)) = String LF (read_text (String c s)).
Proof. intros H. simpl. rewrite H. reflexivity. Qed.

Lemma read_text_other c s :
  Ascii.eqb c CR = false -> read_text (String c s) = String c (read_text s).
Proof. intros H. simpl. rewrite H. reflexivity. Qed.

(** A line feed after [text] is read as such, unless [text] ends with a
    carriage return, with which it makes one line break. *)
Lemma read_text_before_lf tail text :
  exists mid,
    (mid = "" \/ mid = nl) /\
    read_text (text +:+ nl +:+ tail) = read_text text +:+ mid +:+ read_text tail.
Proof.
  assert (H : forall text,
             (exists mid,
                 (mid = "" \/ mid = nl) /\
                 read_text (text +:+ nl +:+ tail)
                 = read_text text +:+ mid +:+ read_text tail) /\
             (forall c, exists mid,
                 (mid = "" \/ mid = nl) /\
                 read_text (String c text +:+ nl +:+ tail)
                 = read_text (String c text) +:+ mid +:+ read_text tail)).
  { clear text. induction text as [|c' text [IH1 IH2]].
    - split.
      + exists nl. split; [right; reflexivity|reflexivity].
      + intros c. destruct (Ascii.eqb c CR) eqn:Ec.
        * apply Ascii.eqb_eq in Ec. subst c.
          exists "". split; [left; reflexivity|reflexivity].
        * exists nl. split; [right; reflexivity|].
          rewrite append_cons, !read_text_other by exact Ec. reflexivity.
    - split; [apply IH2|].
      intros c. destruct (Ascii.eqb c CR) eqn:Ec.
      + apply Ascii.eqb_eq in Ec. subst c.
        destruct (Ascii.eqb c' LF) eqn:Ec'.
        * apply Ascii.eqb_eq in Ec'. subst c'.
          destruct IH1 as (mid & Hmid & IH1). exists mid.
          split; [exact Hmid|].
          rewrite !append_cons, !read_text_cr_lf, IH1. reflexivity.
        * destruct (IH2 c') as (mid & Hmid & IH). exists mid.
          split; [exact Hmid|].
          rewrite !append_cons, !read_text_cr by exact Ec'.
          rewrite <- append_cons, IH. reflexivity.
      + destruct (IH2 c') as (mid & Hmid & IH). exists mid.
        split; [exact Hmid|].
        rewrite append_cons, !read_text_other by exact Ec.
        rewrite IH. reflexivity. }
  apply H.
Qed.

(** *** The separator *)

Lemma separator_head :
  JoinQuestions.separator = String "=" (times "=" 39).
Proof. reflexivity. Qed.

Lemma prefix_cons p pat c s :
  String.prefix (String p pat) (String c s)
  = if ascii_dec p c then String.prefix pat s else false.
Proof. reflexivity. Qed.

Lemma contains_cons pat c s :
  contains pat (String c s)
  = String.prefix pat (String c s) || contains pat s.
Proof. reflexivity. Qed.

Lemma has_separator_cons c s :
  Ascii.eqb c "=" = false ->
  has_separator (String c s) = has_separator s.
Proof.
  intros Hc. unfold has_separator.
  rewrite separator_head, contains_cons, prefix_cons.
  destruct (ascii_dec "=" c) as [E|E]; [|reflexivity].
  subst c. discriminate Hc.
Qed.

Lemma has_separator_app a b :
  no_char "=" a -> has_separator (a +:+ b) = has_separator b.
Proof.
  unfold no_char. induction a as [|c a IH]; [reflexivity|]. simpl.
  intros H. apply andb_true_iff in H as [Hc Ha].
  apply negb_true_iff in Hc.
  rewrite append_cons, has_separator_cons by exact Hc. apply IH, Ha.
Qed.

Lemma has_separator_none s : no_char "=" s -> has_separator s = false.
Proof.
  intros H. rewrite <- (append_nil_r s), has_separator_app by exact H.
  reflexivity.
Qed.

(** *** [strip] *)

Lemma rstrip_app a b :
  rstrip b <> "" -> rstrip (a +:+ b) = a +:+ rstrip b.
Proof.
  intros Hb. induction a as [|c a IH]; [reflexivity|].
  rewrite !append_cons. simpl. rewrite IH.
  destruct (a +:+ rstrip b) eqn:E; [|reflexivity].
  apply append_is_nil in E as [_ E]. contradiction.
Qed.

Lemma rstrip_app_space a b : rstrip b = "" -> rstrip (a +:+ b) = rstrip a.
Proof.
  intros Hb. induction a as [|c a IH]; [exact Hb|].
  rewrite append_cons. simpl. rewrite IH. reflexivity.
Qed.

Lemma rstrip_no_space s :
  PyStr.all_chars (fun c => negb (isspace_char c)) s = true -> rstrip s = s.
Proof.
  induction s as [|c s IH]; [reflexivity|]. simpl.
  intros H. apply andb_true_iff in H as [Hc Hs].
  apply negb_true_iff in Hc. rewrite (IH Hs), Hc.
  destruct s; reflexivity.
Qed.

(** *** [str] of an integer *)

Lemma string_of_uint_digits d :
  PyStr.all_chars PyStr.re_digit (NilEmpty.string_of_uint d) = true.
Proof. induction d; simpl; try rewrite IHd; reflexivity. Qed.

Lemma str_int_chars n :
  PyStr.all_chars int_char (str_int n) = true /\ str_int n <> "".
Proof.
  assert (Hd : forall d,
             PyStr.all_chars int_char (NilZero.string_of_uint d) = true /\
             NilZero.string_of_uint d <> "").
  { intros d. split.
    - apply (all_chars_impl PyStr.re_digit).
      + intros c Hc. unfold int_char. rewrite Hc. reflexivity.
      + destruct d; try apply string_of_uint_digits. reflexivity.
    - destruct d; discriminate. }
  unfold str_int, NilZero.string_of_int.
  destruct (Z.to_int n) as [d|d]; destruct (Hd d) as [H1 H2].
  - split; assumption.
  - split; [simpl; exact H1|discriminate].
Qed.

Lemma int_char_cases c :
  int_char c = true ->
  Ascii.eqb c LF = false /\ Ascii.eqb c CR = false /\
  Ascii.eqb c "=" = false /\ isspace_char c = false.
Proof.
  destruct c as [[|] [|] [|] [|] [|] [|] [|] [|]]; intros H;
    try (vm_compute in H; discriminate H); repeat split; reflexivity.
Qed.

Lemma str_int_plain n :
  no_char LF (str_int n) /\ no_char CR (str_int n) /\
  no_char "=" (str_int n) /\
  PyStr.all_chars (fun c => negb (isspace_char c)) (str_int n) = true.
Proof.
  destruct (str_int_chars n) as [H _]. unfold no_char.
  repeat split; apply (all_chars_impl int_char); try exact H;
    intros c Hc; apply int_char_cases in Hc as (H1 & H2 & H3 & H4);
    apply negb_true_iff; assumption.
Qed.
(** ** join_questions.py: the text of a file without its header *)

Lemma find_separators_skip pre :
  forall acc idx rest,
    Forall (fun l => has_separator l = false) pre ->
    JoinQuestions.find_separators acc idx (pre ++ rest)
    = JoinQuestions.find_separators acc (idx + List.length pre)%nat rest.
Proof.
  induction pre as [|l pre IH]; intros acc idx rest H; simpl.
  - rewrite Nat.add_0_r. reflexivity.
  - inversion H as [|? ? Hl Hpre]; subst. unfold has_separator in Hl.
    rewrite Hl, IH by exact Hpre. f_equal. lia.
Qed.

Lemma find_separators_two pre1 x pre2 y post :
  Forall (fun l => has_separator l = false) pre1 ->
  has_separator x = true ->
  Forall (fun l => has_separator l = false) pre2 ->
  has_separator y = true ->
  JoinQuestions.find_separators [] 0 (pre1 ++ x :: pre2 ++ y :: post)
  = [List.length pre1; (List.length pre1 + 1 + List.length pre2)%nat].
Proof.
  intros H1 Hx H2 Hy. unfold has_separator in Hx, Hy.
  rewrite find_separators_skip by exact H1. simpl. rewrite Hx. simpl.
  rewrite find_separators_skip by exact H2. simpl. rewrite Hy. simpl.
  repeat f_equal. lia.
Qed.

Lemma find_separators_count lines :
  forall acc idx,
    (List.length (JoinQuestions.find_separators acc idx lines)
     <= List.length acc + List.length (List.filter has_separator lines))%nat.
Proof.
  induction lines as [|l lines IH]; intros acc idx; simpl; [lia|].
  unfold has_separator at 1.
  destruct (contains JoinQuestions.separator l).
  - destruct (List.length (acc ++ [idx]) =? 2)%nat.
    + rewrite length_app. simpl. lia.
    + specialize (IH (acc ++ [idx]) (S idx)). rewrite length_app in IH.
      simpl in *. lia.
  - apply IH.
Qed.

Lemma skipn_past {A} (pre1 : list A) x pre2 y post :
  List.skipn (List.length pre1 + 1 + List.length pre2 + 1)
             (pre1 ++ x :: pre2 ++ y :: post)
  = post.
Proof.
  replace (List.length pre1 + 1 + List.length pre2 + 1)%nat
    with (List.length (pre1 ++ x :: pre2 ++ [y]))
    by (rewrite length_app; simpl; rewrite length_app; simpl; lia).
  replace (pre1 ++ x :: pre2 ++ y :: post)
    with ((pre1 ++ x :: pre2 ++ [y]) ++ post)
    by (rewrite <- !app_assoc; simpl; rewrite <- app_assoc; reflexivity).
  rewrite List.skipn_app, List.skipn_all, Nat.sub_diag. reflexivity.
Qed.

Lemma text_after_second_separator content pre1 x pre2 y post :
  PyStr.split LF content = pre1 ++ x :: pre2 ++ y :: post ->
  Forall (fun l => has_separator l = false) pre1 ->
  has_separator x = true ->
  Forall (fun l => has_separator l = false) pre2 ->
  has_separator y = true ->
  JoinQuestions.extract_text_content content false
  = strip (String.concat nl post).
Proof.
  intros Hlines H1 Hx H2 Hy. unfold JoinQuestions.extract_text_content.
  cbv zeta. rewrite Hlines.
  rewrite find_separators_two by assumption.
  change (2 <=? List.length [List.length pre1;
                             (List.length pre1 + 1 + List.length pre2)%nat])%nat
    with true.
  cbv iota.
  change (List.nth 1 [List.length pre1;
                      (List.length pre1 + 1 + List.length pre2)%nat] 0%nat)
    with (List.length pre1 + 1 + List.length pre2)%nat.
  rewrite skipn_past. reflexivity.
Qed.

(** X15.  [extract_text_content] without the metadata: when at least two
    lines of the content hold a run of forty [=], what is returned is the
    text after the second of them, stripped: everything up to that line
    goes, the line included, and the lines between the two as well as those
    before the first; when fewer than two lines hold one, the whole content
    is returned, stripped. *)
Theorem extract_text_content_outcome (content : string) :
  let lines := PyStr.split LF content in
  (forall pre1 x pre2 y post,
      lines = pre1 ++ x :: pre2 ++ y :: post ->
      Forall (fun l => has_separator l = false) pre1 ->
      has_separator x = true ->
      Forall (fun l => has_separator l = false) pre2 ->
      has_separator y = true ->
      JoinQuestions.extract_text_content content false
      = strip (String.concat nl post)) /\
  ((List.length (List.filter has_separator lines) < 2)%nat ->
   JoinQuestions.extract_text_content content false = strip content).
Proof.
  intros lines. split.
  - intros pre1 x pre2 y post. apply text_after_second_separator.
  - intros Hfew. unfold JoinQuestions.extract_text_content. cbv zeta.
    pose proof (find_separators_count lines [] 0) as Hc. simpl in Hc.
    fold lines.
    destruct (2 <=? List.length (JoinQuestions.find_separators [] 0 lines))%nat
      eqn:E; [|reflexivity].
    apply Nat.leb_le in E. lia.
Qed.

Lemma extract_text_content_outcome_witness :
  JoinQuestions.extract_text_content
    ("Image: q1.jpeg" +:+ nl +:+ times "=" 40 +:+ nl +:+ "Question 1" +:+ nl
     +:+ times "=" 40 +:+ nl +:+ "Tokens used: 57" +:+ nl) false
  = "Tokens used: 57" /\
  JoinQuestions.extract_text_content
    (" Question 1" +:+ nl +:+ times "=" 40 +:+ nl) false
  = "Question 1" +:+ nl +:+ times "=" 40.
Proof.
  split.
  - destruct (extract_text_content_outcome
                ("Image: q1.jpeg" +:+ nl +:+ times "=" 40 +:+ nl
                 +:+ "Question 1" +:+ nl +:+ times "=" 40 +:+ nl
                 +:+ "Tokens used: 57" +:+ nl)) as [H _].
    rewrite (H ["Image: q1.jpeg"] (times "=" 40) ["Question 1"]
               (times "=" 40) ["Tokens used: 57"; ""]).
    + reflexivity.
    + reflexivity.
    + repeat constructor.
    + reflexivity.
    + repeat constructor.
    + reflexivity.
  - destruct (extract_text_content_outcome
                (" Question 1" +:+ nl +:+ times "=" 40 +:+ nl)) as [_ H].
    rewrite H; [reflexivity|]. vm_compute. lia.
Defined.

(** ** The files of extract_images.py, read by join_questions.py *)

Lemma read_text_lf s : read_text (String LF s) = String LF (read_text s).
Proof. reflexivity. Qed.

Lemma split_line a b :
  no_char LF a ->
  PyStr.split LF (a +:+ String LF b) = a :: PyStr.split LF b.
Proof.
  intros H. rewrite split_app, split_one_line by exact H. reflexivity.
Qed.

(** X16.  A file that [save_extracted_text] wrote with metadata does not lose
    them in [extract_text_content]: the two lines of [=] the function finds
    are those around the title, so the title alone is dropped, and the
    lines of the metadata and the rule that closes them are returned in
    front of the text. *)
Theorem metadata_stay_in_the_text
    (text : string) (metadata : list (string * string)) :
  metadata <> [] ->
  JoinQuestions.extract_text_content
    (read_text (ImagesFolder.save_extracted_text text metadata)) false
  = strip (read_text (metadata_lines metadata +:+ times "=" 80 +:+ nl +:+ nl
                      +:+ text)).
Proof.
  intros Hne. destruct metadata as [|kv more]; [contradiction|].
  set (body := metadata_lines (kv :: more) +:+ times "=" 80 +:+ nl +:+ nl
               +:+ text).
  assert (E : ImagesFolder.save_extracted_text text (kv :: more)
              = times "=" 80
                  +:+ String LF
                        ("EXTRACTED TEXT METADATA"
                           +:+ String LF (times "=" 80 +:+ String LF body))).
  { unfold ImagesFolder.save_extracted_text, ImagesFolder.metadata_header,
      body, metadata_lines.
    rewrite !append_assoc. reflexivity. }
  rewrite E.
  rewrite read_text_plain, read_text_lf by reflexivity.
  rewrite read_text_plain, read_text_lf by reflexivity.
  rewrite read_text_plain, read_text_lf by reflexivity.
  rewrite (text_after_second_separator _ [] (times "=" 80)
             ["EXTRACTED TEXT METADATA"] (times "=" 80)
             (PyStr.split LF (read_text body))).
  - change nl with (String LF ""). rewrite concat_split. reflexivity.
  - rewrite split_line by reflexivity.
    rewrite split_line by reflexivity.
    rewrite split_line by reflexivity. reflexivity.
  - constructor.
  - reflexivity.
  - repeat constructor.
  - reflexivity.
Qed.

Lemma metadata_stay_in_the_text_witness :
  JoinQuestions.extract_text_content
    (read_text
       (ImagesFolder.save_extracted_text "Question 1"
          [("Image", "q1.png"); ("Model", "model-a");
           ("Timestamp", "2025-01-01 10:00:00")])) false
  = "Image: q1.png" +:+ nl +:+ "Model: model-a" +:+ nl
    +:+ "Timestamp: 2025-01-01 10:00:00" +:+ nl
    +:+ times "=" 80 +:+ nl +:+ nl +:+ "Question 1".
Proof.
  rewrite metadata_stay_in_the_text by discriminate. reflexivity.
Defined.
(** ** The text files of the batch, read by join_questions.py *)

Lemma str_tokens_plain t :
  no_char CR (SuccessFile.str_tokens t) /\
  PyStr.all_chars (fun c => negb (isspace_char c)) (SuccessFile.str_tokens t)
  = true /\
  SuccessFile.str_tokens t <> "".
Proof.
  destruct t as [| |n]; simpl.
  - split; [reflexivity|]. split; [reflexivity|discriminate].
  - split; [reflexivity|]. split; [reflexivity|discriminate].
  - destruct (str_int_plain n) as (_ & H2 & _ & H4).
    destruct (str_int_chars n) as [_ Hne]. split; [|split]; assumption.
Qed.

Lemma plain_line_after a s :
  no_char LF a -> no_char CR a -> no_char "=" a ->
  plain_line s -> plain_line (a +:+ s).
Proof.
  intros H1 H2 H3 (Hlf & Hcr & Hsep). split; [|split].
  - apply no_char_app; assumption.
  - apply no_char_app; assumption.
  - rewrite has_separator_app by exact H3. exact Hsep.
Qed.

Lemma str_int_plain_line n : plain_line (str_int n).
Proof.
  destruct (str_int_plain n) as (H1 & H2 & H3 & _).
  split; [exact H1|]. split; [exact H2|]. apply has_separator_none, H3.
Qed.

Lemma read_lines_of_plain a b :
  plain_line a ->
  read_text (a +:+ String LF b) = a +:+ String LF (read_text b).
Proof.
  intros (_ & Hcr & _). rewrite read_text_plain, read_text_lf by exact Hcr.
  reflexivity.
Qed.

Lemma strip_tokens_line t :
  strip (("Tokens used: " +:+ SuccessFile.str_tokens t) +:+ nl)
  = "Tokens used: " +:+ SuccessFile.str_tokens t.
Proof.
  destruct (str_tokens_plain t) as (_ & Hsp & Hne).
  unfold strip.
  change (lstrip (("Tokens used: " +:+ SuccessFile.str_tokens t) +:+ nl))
    with (("Tokens used: " +:+ SuccessFile.str_tokens t) +:+ nl).
  rewrite rstrip_app_space by reflexivity.
  rewrite rstrip_app; rewrite rstrip_no_space by exact Hsp;
    [reflexivity|exact Hne].
Qed.

(** What [extract_text_content] returns for the characters of a text file
    of the batch. *)
Lemma text_of_success_file name m n text t :
  plain_line name ->
  plain_line (SuccessFile.str_model m) ->
  Forall (fun l => has_separator l = false)
         (PyStr.split LF (read_text text)) ->
  exists content,
    SuccessFile.characters
      [LImage name; LModel m; LRetryRound n; LRule; LText text; LRule;
       LTokensUsed t]
    = Some content /\
    JoinQuestions.extract_text_content (read_text content) false
    = "Tokens used: " +:+ SuccessFile.str_tokens t.
Proof.
  intros Hname Hmodel Htext.
  set (L0 := "Image: " +:+ name).
  set (L1 := "Model: " +:+ SuccessFile.str_model m).
  set (L2 := "Retry Round: " +:+ str_int n).
  set (rule := times "=" 80).
  set (TOK := "Tokens used: " +:+ SuccessFile.str_tokens t).
  set (tail := rule +:+ String LF (TOK +:+ nl)).
  assert (H0 : plain_line L0)
    by (apply plain_line_after; [reflexivity|reflexivity|reflexivity|exact Hname]).
  assert (H1 : plain_line L1)
    by (apply plain_line_after;
        [reflexivity|reflexivity|reflexivity|exact Hmodel]).
  assert (H2 : plain_line L2)
    by (apply plain_line_after;
        [reflexivity|reflexivity|reflexivity|apply str_int_plain_line]).
  assert (Hrule : plain_line rule -> False) by (intros (_ & _ & H); discriminate H).
  assert (Hrule_cr : no_char CR rule) by reflexivity.
  assert (Hrule_lf : no_char LF rule) by reflexivity.
  assert (Htail : no_char CR tail).
  { unfold tail, TOK. destruct (str_tokens_plain t) as (Hcr & _ & _).
    apply no_char_app; [exact Hrule_cr|].
    change (no_char CR (String LF (("Tokens used: "
                                     +:+ SuccessFile.str_tokens t) +:+ nl))).
    unfold no_char. simpl. rewrite !all_chars_app.
    unfold no_char in Hcr. rewrite Hcr. reflexivity. }
  eexists. split; [reflexivity|].
  assert (E : "Image: " +:+ name +:+ nl
              +:+ "Model: " +:+ SuccessFile.str_model m +:+ nl
              +:+ "Retry Round: " +:+ str_int n +:+ nl
              +:+ times "=" 80 +:+ nl +:+ nl
              +:+ text
              +:+ nl +:+ nl +:+ times "=" 80 +:+ nl
              +:+ "Tokens used: " +:+ SuccessFile.str_tokens t +:+ nl
              = L0 +:+ String LF
                  (L1 +:+ String LF
                     (L2 +:+ String LF
                        (rule +:+ String LF
                           (String LF (text +:+ nl +:+ String LF tail)))))).
  { unfold L0, L1, L2, rule, tail, TOK. rewrite !append_assoc. reflexivity. }
  rewrite E. clear E.
  rewrite !read_lines_of_plain by assumption.
  rewrite read_text_plain, !read_text_lf by exact Hrule_cr.
  destruct (read_text_before_lf (String LF tail) text) as (mid & Hmid & Hread).
  rewrite Hread, read_text_lf, (read_text_same tail) by exact Htail.
  assert (Hbody : Forall (fun l => has_separator l = false)
                         (PyStr.split LF (read_text text +:+ mid))).
  { destruct Hmid as [->| ->].
    - rewrite append_nil_r. exact Htext.
    - unfold nl. rewrite split_app. apply Forall_app. split; [exact Htext|].
      repeat constructor. }
  rewrite (text_after_second_separator _ [L0; L1; L2] rule
             ("" :: PyStr.split LF (read_text text +:+ mid)) rule
             (PyStr.split LF (TOK +:+ nl))).
  - change nl with (String LF ""). rewrite concat_split.
    apply strip_tokens_line.
  - destruct H0 as (H0 & _), H1 as (H1 & _), H2 as (H2 & _).
    rewrite !split_line by assumption.
    change (String LF (read_text text +:+ mid +:+ String LF tail))
      with ("" +:+ String LF (read_text text +:+ mid +:+ String LF tail)).
    rewrite split_line by reflexivity.
    rewrite <- append_assoc, split_app. unfold tail.
    rewrite split_line by exact Hrule_lf. reflexivity.
  - destruct H0 as (_ & _ & H0), H1 as (_ & _ & H1), H2 as (_ & _ & H2).
    repeat constructor; assumption.
  - reflexivity.
  - constructor; [reflexivity|exact Hbody].
  - reflexivity.
Qed.

(** X17.  [extract_text_content] drops the text of a file the batch wrote:
    the first line of [=] of such a file closes its header and the second
    one follows the text, so what is returned is the line of the tokens.
    This holds when the name of the image and the model are one line each
    without a run of forty [=], and no line of the text holds one. *)
Theorem batch_text_is_dropped
    (retry_round : Z) (image_file extracted_text : string)
    (m : option string) (u : usage) (s : store) :
  plain_line (PyPath.name image_file) ->
  plain_line (SuccessFile.str_model m) ->
  Forall (fun l => has_separator l = false)
         (PyStr.split LF (read_text extracted_text)) ->
  exists s' lines content,
    save_success retry_round image_file (Some extracted_text) m (Some u) s
    = Done s' tt /\
    fs s' !! output_file_name image_file = Some lines /\
    SuccessFile.characters lines = Some content /\
    JoinQuestions.extract_text_content (read_text content) false
    = "Tokens used: " +:+ SuccessFile.str_tokens (total_tokens u).
Proof.
  intros Hname Hmodel Htext.
  destruct (text_of_success_file (PyPath.name image_file) m (retry_round + 1)
              extracted_text (total_tokens u) Hname Hmodel Htext)
    as (content & Hc & Hx).
  eexists. eexists. exists content.
  split; [reflexivity|]. split; [apply lookup_insert_eq|].
  split; [exact Hc|exact Hx].
Qed.

Lemma batch_text_is_dropped_witness :
  exists s' lines content,
    save_success 0 "imgs/q1.jpeg" (Some ("Question 1" +:+ nl +:+ "A. x"))
                 (Some "model-b") (Some {| total_tokens := JInt 57 |})
                 empty_store
    = Done s' tt /\
    fs s' !! "q1_extracted.txt" = Some lines /\
    SuccessFile.characters lines = Some content /\
    JoinQuestions.extract_text_content (read_text content) false
    = "Tokens used: 57".
Proof.
  apply (batch_text_is_dropped 0 "imgs/q1.jpeg" ("Question 1" +:+ nl +:+ "A. x")
           (Some "model-b") {| total_tokens := JInt 57 |} empty_store).
  - repeat split; reflexivity.
  - repeat split; reflexivity.
  - repeat constructor.
Defined.
(** ** extract_images.py: the folder *)

Section ImagesFolderFacts.
Variable w : World.
Variable model : string.
Variable max_retries : Z.
Variable strftime : Z -> string.

Local Abbreviation extract_one :=
  (fun p => ExtractImages.extract_text_from_image w p model max_retries).
Local Abbreviation process_image :=
  (ImagesFolder.process_image w model max_retries strftime).
Local Abbreviation for_images :=
  (ImagesFolder.for_images w model max_retries strftime).
Local Abbreviation image_settled := (settled w model max_retries).
Local Abbreviation image_null := (answered_null w model max_retries).

Lemma retry_loop_no_reads p req attempts :
  reads (fst (ExtractImages.retry_loop w p max_retries req attempts)) = [].
Proof.
  induction attempts as [|a rest IH]; simpl; [reflexivity|].
  destruct (ExtractImages.one_attempt max_retries a _); [reflexivity|].
  destruct (ExtractImages.retry_loop w p max_retries req rest) as [evs r].
  simpl in *. exact IH.
Qed.

Lemma extract_one_reads p : reads (fst (extract_one p)) = [EvRead p].
Proof.
  unfold ExtractImages.extract_text_from_image.
  destruct (read_image w p) as [[etype msg]|b64]; [reflexivity|].
  pose proof (retry_loop_no_reads p
                (ExtractImages.payload model b64 (Mime.inline_mime_type p))
                (ExtractImages.range max_retries)) as H.
  destruct (ExtractImages.retry_loop _ _ _ _ _) as [evs r]. simpl in *.
  rewrite H. reflexivity.
Qed.

Lemma extract_one_shape p :
  (exists text, snd (extract_one p) = (Some text, None)) \/
  (exists msg, snd (extract_one p) = (None, Some msg)) \/
  snd (extract_one p) = (None, None).
Proof.
  unfold ExtractImages.extract_text_from_image.
  destruct (read_image w p) as [[etype msg]|b64];
    [right; left; eexists; reflexivity|].
  pose proof (retry_loop_shape w p max_retries
                (ExtractImages.payload model b64 (Mime.inline_mime_type p))
                (ExtractImages.range max_retries)) as H.
  destruct (ExtractImages.retry_loop _ _ _ _ _) as [evs r]. simpl in *.
  destruct H as [(status & c & a & _ & _ & Hr)|[msg Hr]].
  - destruct (content c) as [text|].
    + left. eexists. exact Hr.
    + right. right. exact Hr.
  - right. left. eexists. exact Hr.
Qed.

Lemma extends_refl s : extends s s.
Proof. split; [|split]; auto. Qed.

Lemma extends_trans s1 s2 s3 : extends s1 s2 -> extends s2 s3 -> extends s1 s3.
Proof.
  intros (A1 & A2 & A3) (B1 & B2 & B3). split; [|split].
  - intros f H. apply B1, A1, H.
  - intros x H. apply B2, A2, H.
  - lia.
Qed.

Lemma image_settled_extends p s s' :
  extends s s' -> image_settled p s -> image_settled p s'.
Proof.
  intros (H1 & H2 & _) [(msg & Hr & Hin)|(text & Hr & Hf)].
  - left. exists msg. split; [exact Hr|apply H2, Hin].
  - right. exists text. split; [exact Hr|apply H1, Hf].
Qed.

Lemma process_image_outcome idx p s :
  ~ image_null p ->
  exists s' evs,
    process_image idx p s = ImagesFolder.Returned s' tt /\
    ImagesFolder.events s' = ImagesFolder.events s ++ evs /\
    reads evs = [EvRead p] /\
    ImagesFolder.successful s' + ImagesFolder.failed s'
    = ImagesFolder.successful s + ImagesFolder.failed s + 1 /\
    extends s s' /\
    image_settled p s'.
Proof.
  unfold ImagesFolder.process_image, settled, answered_null.
  pose proof (extract_one_reads p) as Hreads.
  pose proof (extract_one_shape p) as Hshape.
  destruct (extract_one p) as [evs [text error]]. simpl in Hreads, Hshape.
  intros Hnull.
  destruct Hshape as [[t Hr]|[[msg Hr]|Hr]]; [| |contradiction];
    inversion Hr; subst; simpl.
  - eexists. exists (evs ++ [EvWrite (ImagesFolder.output_filename p)]).
    split; [reflexivity|]. simpl.
    split; [rewrite <- app_assoc; reflexivity|].
    split; [unfold reads in *; rewrite List.filter_app, Hreads; reflexivity|].
    split; [lia|]. split.
    + split; [|split]; simpl; [|auto|reflexivity].
      intros f Hf. apply lookup_insert_is_Some.
      destruct (decide (ImagesFolder.output_filename p = f));
        [left; assumption|right; split; assumption].
    + right. exists t. split; [reflexivity|].
      rewrite lookup_insert_eq. eexists. reflexivity.
  - eexists. exists evs. split; [reflexivity|]. simpl.
    split; [reflexivity|]. split; [exact Hreads|]. split; [lia|]. split.
    + split; [|split]; simpl; [auto| |].
      * intros x Hx. apply in_or_app. left. exact Hx.
      * unfold len. rewrite length_app. simpl. lia.
    + left. exists msg. split; [reflexivity|].
      apply in_or_app. right. left. reflexivity.
Qed.

(** [f.write(None)] raises TypeError. *)
Lemma process_image_null idx p s :
  image_null p ->
  exists s', process_image idx p s = ImagesFolder.Raised s' TypeError.
Proof.
  unfold ImagesFolder.process_image, answered_null.
  destruct (extract_one p) as [evs [text error]]. simpl.
  intros H. inversion H. subst. eexists. reflexivity.
Qed.

Lemma image_null_or_not p : image_null p \/ ~ image_null p.
Proof.
  unfold answered_null.
  destruct (extract_one_shape p) as [[t Hr]|[[msg Hr]|Hr]];
    [right; rewrite Hr; discriminate|right; rewrite Hr; discriminate
    |left; exact Hr].
Qed.

Lemma for_images_null image_files :
  forall idx s,
    Exists image_null image_files ->
    exists s', for_images idx image_files s = ImagesFolder.Raised s' TypeError.
Proof.
  induction image_files as [|p rest IH]; intros idx s Hex;
    [inversion Hex|].
  simpl. destruct (image_null_or_not p) as [Hn|Hn].
  - destruct (process_image_null idx p s Hn) as (s' & Hrun).
    rewrite Hrun. exists s'. reflexivity.
  - destruct (process_image_outcome idx p s Hn) as (s1 & evs1 & Hrun1 & _).
    rewrite Hrun1. apply IH.
    inversion Hex as [? ? Hp|? ? Hr]; subst; [contradiction|exact Hr].
Qed.

Lemma for_images_outcome image_files :
  forall idx s,
    Forall (fun p => ~ image_null p) image_files ->
    exists s' evs,
      for_images idx image_files s = ImagesFolder.Returned s' tt /\
      ImagesFolder.events s' = ImagesFolder.events s ++ evs /\
      reads evs = List.map EvRead image_files /\
      ImagesFolder.successful s' + ImagesFolder.failed s'
      = ImagesFolder.successful s + ImagesFolder.failed s + len image_files /\
      extends s s' /\
      (forall p, In p image_files -> image_settled p s').
Proof.
  induction image_files as [|p rest IH]; intros idx s Hall; simpl.
  - exists s, []. split; [reflexivity|]. split; [rewrite app_nil_r; reflexivity|].
    split; [reflexivity|]. split; [unfold len; simpl; lia|].
    split; [apply extends_refl|]. intros p [].
  - inversion Hall as [|? ? Hp Hrest]; subst.
    destruct (process_image_outcome idx p s Hp)
      as (s1 & evs1 & Hrun1 & Hev1 & Hr1 & Hc1 & Hx1 & Hp1).
    rewrite Hrun1.
    destruct (IH (idx + 1) s1 Hrest)
      as (s' & evs2 & Hrun2 & Hev2 & Hr2 & Hc2 & Hx2 & Hp2).
    exists s', (evs1 ++ evs2). split; [exact Hrun2|].
    split; [rewrite Hev2, Hev1, <- app_assoc; reflexivity|].
    split; [unfold reads in *; rewrite List.filter_app, Hr1, Hr2; reflexivity|].
    split; [unfold len in *; simpl length; lia|].
    split; [eapply extends_trans; eassumption|].
    intros q [<-|Hq]; [|apply Hp2, Hq].
    eapply image_settled_extends; eassumption.
Qed.

End ImagesFolderFacts.



(** ** The two tables of media types *)

(** X19.  The two clients name the same media type for every path, except
    for a path whose suffix is [.bmp] in any case of its letters: there
    image_text_extractor.py says [image/bmp] and extract_images.py, whose
    table has no such entry, says [image/jpeg]. *)
Theorem mime_tables_differ_on_bmp_only (p : string) :
  (PyStr.lower (PyPath.suffix p) <> ".bmp" ->
   Mime.inline_mime_type p = Mime.get_image_mime_type p) /\
  (PyStr.lower (PyPath.suffix p) = ".bmp" ->
   Mime.inline_mime_type p = "image/jpeg" /\
   Mime.get_image_mime_type p = "image/bmp").
Proof.
  unfold Mime.inline_mime_type, Mime.get_image_mime_type. cbv zeta.
  generalize (PyStr.lower (PyPath.suffix p)). intros ext. split.
  - intros Hne. unfold Mime.mime_types, Mime.mime_types_inline.
    destruct (decide (".jpg" = ext)) as [<-|H1]; [reflexivity|].
    destruct (decide (".jpeg" = ext)) as [<-|H2]; [reflexivity|].
    destruct (decide (".png" = ext)) as [<-|H3]; [reflexivity|].
    destruct (decide (".gif" = ext)) as [<-|H4]; [reflexivity|].
    destruct (decide (".webp" = ext)) as [<-|H5]; [reflexivity|].
    assert (H6 : ".bmp" <> ext) by congruence.
    rewrite !lookup_insert_ne by assumption. reflexivity.
  - intros ->. split; reflexivity.
Qed.

Lemma mime_tables_differ_on_bmp_only_witness :
  Mime.inline_mime_type "scans/Q7.JPEG" = Mime.get_image_mime_type "scans/Q7.JPEG" /\
  Mime.inline_mime_type "scans/q4.BMP" = "image/jpeg" /\
  Mime.get_image_mime_type "scans/q4.BMP" = "image/bmp".
Proof.
  split.
  - destruct (mime_tables_differ_on_bmp_only "scans/Q7.JPEG") as [H _].
    apply H. intros E. vm_compute in E. discriminate E.
  - destruct (mime_tables_differ_on_bmp_only "scans/q4.BMP") as [_ H].
    apply H. reflexivity.
Defined.

(** ** extract_images.py: the first answer *)

Lemma one_attempt_answer max_retries a status c :
  status <> 429 -> status < 400 ->
  ExtractImages.one_attempt max_retries a (Response status (Completion c))
  = ExtractImages.Return (content c, None).
Proof.
  intros H429 H400. unfold ExtractImages.one_attempt.
  apply Z.eqb_neq in H429. rewrite H429.
  assert (H500 : (status >=? 500) = false)
    by (rewrite Z.geb_leb; apply Z.leb_gt; lia).
  rewrite H500. unfold raises_for_status.
  assert (Hr : (400 <=? status) = false) by (apply Z.leb_gt; lia).
  rewrite Hr. reflexivity.
Qed.


(** ** [natural_sort_key]: numbered names *)

Lemma int_digits_digit c acc s :
  PyStr.re_digit c = true ->
  PyStr.int_digits acc (String c s)
  = PyStr.int_digits (10 * acc + (Z.of_N (PyStr.code c) - 48)) s.
Proof. intros H. simpl. rewrite H. reflexivity. Qed.

Ltac digit_step IH :=
  rewrite int_digits_digit by reflexivity;
  match goal with
  | |- context [Z.of_N (PyStr.code ?c)] =>
      let v := eval vm_compute in (Z.of_N (PyStr.code c)) in
      change (Z.of_N (PyStr.code c)) with v
  end;
  rewrite <- IH; f_equal; lia.

Lemma int_digits_of_uint_acc d :
  forall acc,
    PyStr.int_digits (Z.pos acc) (NilEmpty.string_of_uint d)
    = Some (Z.pos (Pos.of_uint_acc d acc)).
Proof.
  induction d as [|d IH|d IH|d IH|d IH|d IH|d IH|d IH|d IH|d IH|d IH];
    intros acc; cbn [NilEmpty.string_of_uint Pos.of_uint_acc];
    [reflexivity|digit_step IH..].
Qed.

Lemma int_digits_of_uint d :
  PyStr.int_digits 0 (NilEmpty.string_of_uint d)
  = Some (Z.of_N (Pos.of_uint d)).
Proof.
  induction d as [|d IH|d IH|d IH|d IH|d IH|d IH|d IH|d IH|d IH|d IH];
    cbn [NilEmpty.string_of_uint Pos.of_uint];
    [reflexivity|exact IH|..];
    rewrite int_digits_digit by reflexivity;
    match goal with
    | |- context [Z.of_N (PyStr.code ?c)] =>
        let v := eval vm_compute in (Z.of_N (PyStr.code c)) in
        change (Z.of_N (PyStr.code c)) with v
    end;
    cbn [Z.mul Z.add Z.sub Z.opp Z.pos_sub Pos.pred_double Z.succ_double
         Z.pred_double Z.double];
    apply int_digits_of_uint_acc.
Qed.

(** [str(n)] is a run of decimal digits for an [n] that is not negative,
    and [int(str(n))] is [n] when the run is not too long for [int]. *)
Lemma str_int_digits n :
  0 <= n ->
  (Z.of_nat (String.length (str_int n)) <= PyStr.int_max_str_digits ->
   PyStr.int (str_int n) = Some n) /\
  PyStr.all_chars PyStr.re_digit (str_int n) = true /\
  str_int n <> "".
Proof.
  intros Hn. destruct n as [|p|p]; [repeat split; discriminate| |lia].
  unfold str_int. cbn [Z.to_int NilZero.string_of_int].
  pose proof (Unsigned.to_uint_nonnil p) as Hnil.
  pose proof (DecimalPos.Unsigned.of_to p) as Hof.
  assert (Hs : NilZero.string_of_uint (Pos.to_uint p)
               = NilEmpty.string_of_uint (Pos.to_uint p)).
  { destruct (Pos.to_uint p); [contradiction|reflexivity..]. }
  rewrite Hs.
  assert (Hne : NilEmpty.string_of_uint (Pos.to_uint p) <> "").
  { destruct (Pos.to_uint p); [contradiction|discriminate..]. }
  split; [|split; [apply string_of_uint_digits|exact Hne]].
  intros Hlen. unfold PyStr.int.
  apply Z.ltb_ge in Hlen.
  destruct (NilEmpty.string_of_uint (Pos.to_uint p)) eqn:E; [contradiction|].
  rewrite <- E. rewrite <- E in Hlen. rewrite Hlen.
  rewrite int_digits_of_uint, Hof. reflexivity.
Qed.

Lemma re_split_digits_nonempty s : PyStr.re_split_digits s <> [].
Proof.
  destruct (re_split_digits_parts s) as [_ H].
  destruct (PyStr.re_split_digits s); [simpl in H; discriminate H|discriminate].
Qed.

Lemma re_split_digits_text pre s :
  PyStr.all_chars (fun c => negb (PyStr.re_digit c)) pre = true ->
  exists h t,
    PyStr.re_split_digits s = h :: t /\
    PyStr.re_split_digits (pre +:+ s) = (pre +:+ h) :: t.
Proof.
  intros Hpre. induction pre as [|c pre IH].
  - pose proof (re_split_digits_nonempty s) as Hne.
    change ("" +:+ s) with s.
    destruct (PyStr.re_split_digits s) as [|h t]; [contradiction|].
    exists h, t. split; reflexivity.
  - simpl in Hpre. apply andb_true_iff in Hpre as [Hc Hpre].
    apply negb_true_iff in Hc.
    destruct (IH Hpre) as (h & t & Hs & Hr). exists h, t.
    split; [exact Hs|]. rewrite append_cons. simpl. rewrite Hc, Hr.
    reflexivity.
Qed.

Lemma starts_with_digit_app d s :
  d <> "" -> PyStr.all_chars PyStr.re_digit d = true ->
  PyStr.starts_with_digit (d +:+ s) = true.
Proof.
  destruct d as [|c d]; [contradiction|]. intros _ H. simpl in H.
  apply andb_true_iff in H as [Hc _]. exact Hc.
Qed.

Lemma re_split_digits_number d s :
  d <> "" -> PyStr.all_chars PyStr.re_digit d = true ->
  PyStr.starts_with_digit s = false ->
  PyStr.re_split_digits (d +:+ s) = "" :: d :: PyStr.re_split_digits s.
Proof.
  intros Hne Hd Hs. induction d as [|c d IH]; [contradiction|].
  simpl in Hd. apply andb_true_iff in Hd as [Hc Hd].
  destruct d as [|c' d].
  - change (String c "" +:+ s) with (String c s). simpl.
    rewrite Hc, Hs. reflexivity.
  - change (String c (String c' d) +:+ s)
      with (String c (String c' d +:+ s)).
    assert (Hsd : PyStr.starts_with_digit (String c' d +:+ s) = true)
      by (apply starts_with_digit_app; [discriminate|exact Hd]).
    assert (Hr : PyStr.re_split_digits (String c' d +:+ s)
                 = "" :: String c' d :: PyStr.re_split_digits s)
      by (apply IH; [discriminate|exact Hd]).
    revert Hsd Hr. generalize (String c' d +:+ s). intros x Hsd Hr.
    simpl. rewrite Hc, Hsd, Hr. reflexivity.
Qed.

Lemma isdigit_of_digits d :
  d <> "" -> PyStr.all_chars PyStr.re_digit d = true -> PyStr.isdigit d = true.
Proof.
  intros Hne Hd. destruct d as [|c d]; [contradiction|].
  unfold PyStr.isdigit. apply (all_chars_impl PyStr.re_digit); [|exact Hd].
  intros x Hx. unfold PyStr.isdigit_char. rewrite Hx. reflexivity.
Qed.

Lemma isdigit_of_text pre :
  PyStr.all_chars (fun c => negb (PyStr.isdigit_char c)) pre = true ->
  PyStr.isdigit pre = false /\
  PyStr.all_chars (fun c => negb (PyStr.re_digit c)) pre = true.
Proof.
  intros H. split.
  - destruct pre as [|c pre]; [reflexivity|]. simpl in *.
    apply andb_true_iff in H as [Hc _]. apply negb_true_iff in Hc.
    rewrite Hc. reflexivity.
  - apply (all_chars_impl (fun c => negb (PyStr.isdigit_char c))); [|exact H].
    intros c Hc. apply negb_true_iff in Hc. apply negb_true_iff.
    unfold PyStr.isdigit_char in Hc.
    destruct (PyStr.re_digit c); [discriminate Hc|reflexivity].
Qed.

(** The key of a name made of a text, a number and a rest. *)
Lemma natural_sort_key_numbered pre n post :
  PyStr.all_chars (fun c => negb (PyStr.isdigit_char c)) pre = true ->
  0 <= n ->
  Z.of_nat (String.length (str_int n)) <= PyStr.int_max_str_digits ->
  PyStr.starts_with_digit post = false ->
  has_refused_part post = false ->
  exists k,
    NaturalSort.natural_sort_key post = Ret k /\
    NaturalSort.natural_sort_key (pre +:+ str_int n +:+ post)
    = Ret (NaturalSort.KStr pre :: NaturalSort.KInt n :: k).
Proof.
  intros Hpre Hn Hlen Hpost Hsup.
  destruct (natural_sort_key_cases post) as [[E _]|(_ & k & Hk & _)];
    [congruence|].
  exists k. split; [exact Hk|].
  destruct (str_int_digits n Hn) as (Hint & Hdig & Hne).
  specialize (Hint Hlen).
  destruct (isdigit_of_text pre Hpre) as [Hnd Htext].
  unfold NaturalSort.natural_sort_key in *.
  destruct (re_split_digits_text pre (str_int n +:+ post) Htext)
    as (h & t & Hs & Hr).
  rewrite re_split_digits_number in Hs by assumption.
  inversion Hs; subst h t. rewrite Hr, append_nil_r.
  simpl. unfold NaturalSort.convert_part at 1. rewrite Hnd. simpl.
  unfold NaturalSort.convert_part at 1.
  rewrite isdigit_of_digits, Hint by assumption. simpl.
  rewrite Hk. reflexivity.
Qed.


(** ** join_questions.py: the number of a question and the clean files *)

Lemma digit_run_split s :
  exists post,
    s = JoinQuestions.digit_run s +:+ post /\
    PyStr.all_chars PyStr.re_digit (JoinQuestions.digit_run s) = true /\
    PyStr.starts_with_digit post = false.
Proof.
  induction s as [|c s (post & Hs & Hd & Hp)].
  - exists "". repeat split.
  - simpl. destruct (PyStr.re_digit c) eqn:Ec.
    + exists post. rewrite append_cons, <- Hs. simpl. rewrite Ec, Hd.
      repeat split. exact Hp.
    + exists (String c s). simpl. rewrite Ec. repeat split.
Qed.

Lemma digit_run_starts s :
  PyStr.starts_with_digit s = true -> JoinQuestions.digit_run s <> "".
Proof.
  destruct s as [|c s]; [discriminate|]. simpl. intros H. rewrite H.
  discriminate.
Qed.

Lemma digit_run_before s suf :
  PyStr.starts_with_digit suf = false ->
  JoinQuestions.digit_run (s +:+ suf) = JoinQuestions.digit_run s /\
  PyStr.starts_with_digit (s +:+ suf) = PyStr.starts_with_digit s.
Proof.
  intros Hsuf. induction s as [|c s [IH _]].
  - change ("" +:+ suf) with suf. split; [|exact Hsuf].
    destruct suf as [|c suf]; [reflexivity|]. simpl in *. rewrite Hsuf.
    reflexivity.
  - rewrite append_cons. simpl. rewrite IH. split; reflexivity.
Qed.

Lemma search_q_some name g :
  JoinQuestions.search_q name = Some g ->
  exists pre c post,
    name = pre +:+ String c (g +:+ post) /\
    JoinQuestions.is_q c = true /\
    g <> "" /\
    PyStr.all_chars PyStr.re_digit g = true /\
    PyStr.starts_with_digit post = false /\
    JoinQuestions.search_q pre = None.
Proof.
  induction name as [|c name IH]; [discriminate|]. simpl.
  destruct (JoinQuestions.is_q c && PyStr.starts_with_digit name) eqn:E.
  - intros H. inversion H; subst g. clear H.
    apply andb_true_iff in E as [Hq Hd].
    destruct (digit_run_split name) as (post & Hs & Hdig & Hp).
    exists "", c, post. rewrite <- Hs.
    split; [reflexivity|]. split; [exact Hq|].
    split; [apply digit_run_starts, Hd|]. repeat split; assumption.
  - intros H. destruct (IH H) as (pre & c' & post & Hn & Hq & Hg & Hd & Hp & Hpre).
    exists (String c pre), c', post. rewrite append_cons, <- Hn.
    split; [reflexivity|]. split; [exact Hq|]. split; [exact Hg|].
    split; [exact Hd|]. split; [exact Hp|].
    simpl. rewrite Hpre.
    destruct (JoinQuestions.is_q c && PyStr.starts_with_digit pre) eqn:E';
      [|reflexivity].
    exfalso. apply andb_true_iff in E' as [Hqc Hsd].
    rewrite Hqc in E. simpl in E. subst name.
    destruct pre as [|x pre]; [discriminate Hsd|].
    simpl in Hsd. rewrite append_cons in E. simpl in E. congruence.
Qed.

Lemma search_q_none name :
  JoinQuestions.search_q name = None ->
  forall pre c post,
    name = pre +:+ String c post ->
    JoinQuestions.is_q c = true ->
    PyStr.starts_with_digit post = false.
Proof.
  induction name as [|c0 name IH]; intros H pre c post Hn Hq.
  - destruct pre; discriminate Hn.
  - simpl in H.
    destruct (JoinQuestions.is_q c0 && PyStr.starts_with_digit name) eqn:E;
      [discriminate H|].
    destruct pre as [|x pre].
    + change ("" +:+ String c post) with (String c post) in Hn.
      inversion Hn; subst c0 name. rewrite Hq in E. exact E.
    + rewrite append_cons in Hn. inversion Hn; subst x name.
      eapply IH; [exact H|reflexivity|exact Hq].
Qed.

Lemma search_q_before name suf :
  PyStr.starts_with_digit suf = false ->
  JoinQuestions.search_q (name +:+ suf)
  = match JoinQuestions.search_q name with
    | Some g => Some g
    | None => JoinQuestions.search_q suf
    end.
Proof.
  intros Hsuf. induction name as [|c name IH]; [reflexivity|].
  rewrite append_cons. simpl.
  destruct (digit_run_before name suf Hsuf) as [Hd Hs]. rewrite Hd, Hs, IH.
  destruct (JoinQuestions.is_q c && PyStr.starts_with_digit name);
    reflexivity.
Qed.

(** X22.  The number of a question, read from the name of its text file: it is
    the longest run of decimal digits after the first [q] or [Q] that a
    digit follows, whatever the case and wherever it stands in the name, and
    the position of the file when no [q] is followed by a digit.  The ending
    [_extracted.txt] never counts, so the number is that of the stem of the
    image. *)
Theorem question_num_outcome (name : string) (idx : Z) :
  (forall g,
      JoinQuestions.search_q name = Some g ->
      JoinQuestions.question_num name idx = g /\
      exists pre c post,
        name = pre +:+ String c (g +:+ post) /\
        JoinQuestions.is_q c = true /\
        g <> "" /\
        PyStr.all_chars PyStr.re_digit g = true /\
        PyStr.starts_with_digit post = false /\
        JoinQuestions.search_q pre = None) /\
  (JoinQuestions.search_q name = None ->
   JoinQuestions.question_num name idx = str_int idx /\
   forall pre c post,
     name = pre +:+ String c post ->
     JoinQuestions.is_q c = true ->
     PyStr.starts_with_digit post = false) /\
  JoinQuestions.question_num (name +:+ "_extracted.txt") idx
  = JoinQuestions.question_num name idx.
Proof.
  split; [|split].
  - intros g H. split; [unfold JoinQuestions.question_num; rewrite H; reflexivity|].
    apply search_q_some, H.
  - intros H. split; [unfold JoinQuestions.question_num; rewrite H; reflexivity|].
    apply search_q_none, H.
  - unfold JoinQuestions.question_num.
    rewrite search_q_before by reflexivity.
    destruct (JoinQuestions.search_q name); reflexivity.
Qed.

Lemma question_num_outcome_witness :
  JoinQuestions.question_num "Chapter2_Q12b_extracted.txt" 5 = "12" /\
  JoinQuestions.question_num "page_7_extracted.txt" 5 = "5".
Proof.
  split.
  - destruct (question_num_outcome "Chapter2_Q12b_extracted.txt" 5)
      as (H & _ & _).
    apply (H "12"). reflexivity.
  - destruct (question_num_outcome "page_7_extracted.txt" 5) as (_ & H & _).
    apply H. reflexivity.
Defined.

Lemma clean_file_name_inj a b :
  JoinQuestions.clean_file_name a = JoinQuestions.clean_file_name b -> a = b.
Proof.
  unfold JoinQuestions.clean_file_name. intros H.
  change ("Q" +:+ a +:+ "_clean.txt") with (String "Q" (a +:+ "_clean.txt")) in H.
  change ("Q" +:+ b +:+ "_clean.txt") with (String "Q" (b +:+ "_clean.txt")) in H.
  inversion H as [H'].
  apply append_tail_eq in H'; [tauto|reflexivity].
Qed.

Section CleanFilesFacts.
Variable read : string -> option string.

Local Abbreviation clean_each := (JoinQuestions.clean_each read).
Local Abbreviation clean_name := (clean_name_at).

Lemma clean_name_at_first idx f :
  clean_name idx 0 f
  = JoinQuestions.clean_file_name
      (JoinQuestions.question_num (PyPath.name f) idx).
Proof. unfold clean_name_at. f_equal. f_equal. lia. Qed.

Lemma clean_each_keeps files :
  forall idx output g,
    is_Some (output !! g) -> is_Some (clean_each idx files output !! g).
Proof.
  induction files as [|f files IH]; intros idx output g H; simpl; [exact H|].
  destruct (read f) as [content|]; apply IH; [|exact H].
  apply lookup_insert_is_Some.
  destruct (decide (JoinQuestions.clean_file_name
                      (JoinQuestions.question_num (PyPath.name f) idx) = g));
    [left; assumption|right; split; assumption].
Qed.

Lemma clean_each_elsewhere files :
  forall idx output g,
    (forall (i : nat) f content,
        files !! i = Some f -> read f = Some content ->
        g <> clean_name idx i f) ->
    clean_each idx files output !! g = output !! g.
Proof.
  induction files as [|f files IH]; intros idx output g H; simpl;
    [reflexivity|].
  assert (Hrest : forall (i : nat) f' content,
             files !! i = Some f' -> read f' = Some content ->
             g <> clean_name (idx + 1) i f').
  { intros i f' content Hi Hr. specialize (H (S i) f' content Hi Hr).
    unfold clean_name_at in *.
    replace (idx + 1 + Z.of_nat i) with (idx + Z.of_nat (S i)) by lia.
    exact H. }
  destruct (read f) as [content|] eqn:Er.
  - rewrite IH by exact Hrest.
    apply lookup_insert_ne.
    specialize (H O f content eq_refl Er). unfold clean_name_at in H.
    rewrite Z.add_0_r in H. congruence.
  - apply IH. exact Hrest.
Qed.

Lemma clean_each_written files :
  forall idx output (i : nat) f content,
    files !! i = Some f -> read f = Some content ->
    is_Some (clean_each idx files output !! clean_name idx i f) /\
    ((forall (j : nat) g c,
         (i < j)%nat -> files !! j = Some g -> read g = Some c ->
         JoinQuestions.question_num (PyPath.name g) (idx + Z.of_nat j)
         <> JoinQuestions.question_num (PyPath.name f) (idx + Z.of_nat i)) ->
     clean_each idx files output !! clean_name idx i f
     = Some (JoinQuestions.extract_text_content content false)).
Proof.
  induction files as [|f0 files IH]; intros idx output i f content Hi Hr;
    [discriminate Hi|].
  destruct i as [|i].
  - inversion Hi; subst f0. rewrite clean_name_at_first.
    simpl clean_each. rewrite Hr. split.
    + apply clean_each_keeps. rewrite lookup_insert_eq. eexists. reflexivity.
    + intros Hlast. rewrite clean_each_elsewhere.
      * apply lookup_insert_eq.
      * intros j g c Hj Hg E. apply clean_file_name_inj in E.
        apply (Hlast (S j) g c); [lia|exact Hj|exact Hg|].
        replace (idx + Z.of_nat 0) with idx by lia.
        replace (idx + Z.of_nat (S j)) with (idx + 1 + Z.of_nat j) by lia.
        symmetry. exact E.
  - simpl in Hi. simpl clean_each.
    assert (Hname : clean_name idx (S i) f = clean_name (idx + 1) i f).
    { unfold clean_name_at. f_equal. f_equal. lia. }
    rewrite Hname.
    assert (Hlater : (forall (j : nat) g c,
                         (S i < j)%nat -> (f0 :: files) !! j = Some g ->
                         read g = Some c ->
                         JoinQuestions.question_num (PyPath.name g)
                                                    (idx + Z.of_nat j)
                         <> JoinQuestions.question_num (PyPath.name f)
                                                       (idx + Z.of_nat (S i))) ->
                     forall (j : nat) g c,
                       (i < j)%nat -> files !! j = Some g -> read g = Some c ->
                       JoinQuestions.question_num (PyPath.name g)
                                                  (idx + 1 + Z.of_nat j)
                       <> JoinQuestions.question_num (PyPath.name f)
                                                     (idx + 1 + Z.of_nat i)).
    { intros H j g c Hj Hg Hc.
      replace (idx + 1 + Z.of_nat j) with (idx + Z.of_nat (S j)) by lia.
      replace (idx + 1 + Z.of_nat i) with (idx + Z.of_nat (S i)) by lia.
      apply (H (S j) g c); [lia|exact Hg|exact Hc]. }
    destruct (read f0) as [c0|].
    + destruct (IH (idx + 1)
                   (<[JoinQuestions.clean_file_name
                        (JoinQuestions.question_num (PyPath.name f0) idx)
                      := JoinQuestions.extract_text_content c0 false]> output)
                   i f content Hi Hr) as [H1 H2].
      split; [exact H1|]. intros H. apply H2, Hlater, H.
    + destruct (IH (idx + 1) output i f content Hi Hr) as [H1 H2].
      split; [exact H1|]. intros H. apply H2, Hlater, H.
Qed.

End CleanFilesFacts.



(** ** The batch: the order of the reads and the pauses *)

Lemma reads_app a b : reads (a ++ b) = reads a ++ reads b.
Proof. unfold reads. apply List.filter_app. Qed.

Lemma delays_app a b : delays (a ++ b) = delays a + delays b.
Proof.
  unfold delays, len. rewrite List.filter_app, length_app. lia.
Qed.

Section BatchLog.
Variable delay_seconds : delay.
Variable self : ImageTextExtractor.
Variable worlds : Z -> World.
Variable prompt : string.
Variable model : option string.
Variable max_retry_rounds : Z.

Local Abbreviation extract := (Batch.extract self worlds prompt model).
Local Abbreviation process_one :=
  (Batch.process_one delay_seconds self worlds prompt model max_retry_rounds).
Local Abbreviation for_batch :=
  (Batch.for_batch delay_seconds self worlds prompt model max_retry_rounds).
Local Abbreviation retry_rounds :=
  (Batch.retry_rounds delay_seconds self worlds prompt model max_retry_rounds).
Local Abbreviation fails := (failed self worlds prompt model).
Local Abbreviation is_final := (final_round max_retry_rounds).
Local Abbreviation requeued_in :=
  (requeued self worlds prompt model max_retry_rounds).
Local Abbreviation round_queue_of := (round_queue self worlds prompt model).
Local Abbreviation rounds_reads_of := (rounds_reads self worlds prompt model).

Lemma try_models_log w p max_tokens retry max_retries b64 mime n rest :
  forall attempt e t,
    let evs := fst (Extractor.try_models w p prompt max_tokens retry
                      max_retries b64 mime n rest attempt e t) in
    reads evs = [] /\ delays evs = 0.
Proof.
  induction rest as [|m rest IH]; intros attempt e t; simpl.
  - split; reflexivity.
  - destruct (one_attempt p retry max_retries n attempt _)
      as [r|d e' t'|e' t']; simpl; [split; reflexivity| |split; reflexivity].
    specialize (IH (attempt + 1) e' t'). simpl in IH.
    destruct (Extractor.try_models w p prompt max_tokens retry max_retries
                b64 mime n rest (attempt + 1) e' t') as [evs r].
    exact IH.
Qed.

Lemma extract_log r p :
  reads (fst (extract r p)) = [EvRead p] /\ delays (fst (extract r p)) = 0.
Proof.
  unfold Batch.extract, extract_text_from_image.
  destruct (read_image (worlds r) p) as [[etype msg]|b64];
    [split; reflexivity|].
  pose proof (try_models_log (worlds r) p 4000 true 3 b64
                (Mime.get_image_mime_type p)
                (len (models_to_try self model)) (models_to_try self model)
                1 None None) as H.
  simpl in H. destruct (Extractor.try_models _ _ _ _ _ _ _ _ _ _ _ _ _)
    as [evs res]. simpl in *. destruct H as [H1 H2]. split.
  - unfold reads in *. simpl. rewrite H1. reflexivity.
  - exact H2.
Qed.

Lemma delay_step (b : bool) (st' : list string * list result) s0 s' v :
  bind (if b then sleep_delay delay_seconds else ret tt) (fun _ => ret st') s0
  = Done s' v ->
  log s' = log s0 ++ (if b then [EvDelay] else []).
Proof.
  destruct b; [destruct delay_seconds|]; simpl; intros H; inversion H; simpl;
    rewrite ?app_nil_r; reflexivity.
Qed.

Lemma process_one_log r n i p st s s' v :
  process_one r n i p st s = Done s' v ->
  exists evs after,
    log s' = log s ++ evs ++ after /\
    reads evs = [EvRead p] /\ delays evs = 0 /\
    after = (if i <? n then [EvDelay] else []).
Proof.
  unfold Batch.process_one. destruct st as [q rs].
  destruct (extract_log r p) as [Hr Hd].
  destruct (extract r p) as [evs outcome]. simpl in Hr, Hd. intros H.
  apply bind_done in H as (s1 & u1 & H1 & H).
  inversion H1; subst s1. clear H1.
  apply bind_done in H as (s2 & st' & H2 & H).
  assert (Hw : exists w, log s2 = (log s ++ evs) ++ w /\
                         reads w = [] /\ delays w = 0).
  { destruct outcome as [ip [text|] m [u|] a|ip e t].
    - unfold bind, save_success, write_file, ret in H2. simpl in H2.
      inversion H2; subst. eexists. split; [reflexivity|].
      split; reflexivity.
    - discriminate H2.
    - discriminate H2.
    - discriminate H2.
    - destruct (r <? max_retry_rounds - 1).
      + inversion H2; subst. exists []. rewrite app_nil_r.
        split; [reflexivity|]. split; reflexivity.
      + unfold bind, save_error, write_file, ret in H2. simpl in H2.
        inversion H2; subst. eexists. split; [reflexivity|].
        split; reflexivity. }
  destruct Hw as (w & Hlog2 & Hrw & Hdw).
  apply delay_step in H.
  exists (evs ++ w), (if i <? n then [EvDelay] else []).
  split; [rewrite H, Hlog2, <- !app_assoc; reflexivity|].
  split; [rewrite reads_app, Hr, Hrw; reflexivity|].
  split; [rewrite delays_app, Hd, Hdw; reflexivity|reflexivity].
Qed.

Lemma for_batch_log r n rest :
  forall i st s s' v,
    for_batch r n i rest st s = Done s' v ->
    i + len rest = n + 1 ->
    exists evs,
      log s' = log s ++ evs /\
      reads evs = List.map EvRead rest /\
      delays evs = Z.max 0 (len rest - 1) /\
      (rest <> [] ->
       exists before after,
         evs = before ++ after /\
         reads after = [EvRead (List.last rest "")] /\ delays after = 0).
Proof.
  induction rest as [|p rest IH]; intros i st s s' v H Hn; simpl in H.
  - inversion H; subst. exists []. rewrite app_nil_r.
    split; [reflexivity|]. split; [reflexivity|]. split; [reflexivity|].
    intros Hne. contradiction.
  - apply bind_done in H as (s1 & st1 & H1 & H2).
    apply process_one_log in H1 as (evs1 & after1 & Hlog1 & Hr1 & Hd1 & Ha1).
    assert (Hn' : i + 1 + len rest = n + 1)
      by (unfold len in *; simpl length in Hn; lia).
    destruct (IH _ _ _ _ _ H2 Hn') as (evs2 & Hlog2 & Hr2 & Hd2 & Hlast).
    exists ((evs1 ++ after1) ++ evs2).
    split; [rewrite Hlog2, Hlog1, <- !app_assoc; reflexivity|].
    assert (Hra : reads after1 = []) by (subst after1; destruct (i <? n); reflexivity).
    split; [rewrite !reads_app, Hr1, Hra, Hr2; reflexivity|].
    split.
    + rewrite !delays_app, Hd1, Hd2. subst after1.
      destruct rest as [|p' rest].
      * assert (E : (i <? n) = false)
          by (apply Z.ltb_ge; unfold len in *; simpl in *; lia).
        rewrite E. reflexivity.
      * assert (E : (i <? n) = true)
          by (apply Z.ltb_lt; unfold len in *; simpl length in *; lia).
        rewrite E. unfold delays, len. simpl length. lia.
    + intros _. destruct rest as [|p' rest].
      * assert (E : (i <? n) = false)
          by (apply Z.ltb_ge; unfold len in *; simpl in *; lia).
        rewrite E in Ha1. subst after1.
        simpl in H2. inversion H2; subst.
        assert (evs2 = []).
        { rewrite <- (app_nil_r (log s')) in Hlog2 at 1.
          apply app_inv_head in Hlog2. symmetry. exact Hlog2. }
        subst evs2. exists [], evs1. rewrite !app_nil_r.
        split; [reflexivity|]. split; [exact Hr1|exact Hd1].
      * destruct Hlast as (before & after & He & Hra2 & Hda2); [discriminate|].
        exists ((evs1 ++ after1) ++ before), after.
        split; [rewrite He, <- !app_assoc; reflexivity|].
        split; [exact Hra2|exact Hda2].
Qed.

Lemma rounds_reads_shift first queue k :
  rounds_reads_of first queue (S k)
  = List.map EvRead queue
      ++ rounds_reads_of (first + 1) (List.filter (fails first) queue) k.
Proof.
  unfold rounds_reads. rewrite <- cons_seq. simpl. f_equal.
  rewrite <- seq_shift, List.flat_map_concat_map, List.map_map.
  rewrite <- List.flat_map_concat_map.
  apply List.flat_map_ext. intros a.
  rewrite (round_queue_shift self worlds prompt model first queue a).
  reflexivity.
Qed.

Lemma retry_rounds_reads rounds_left :
  forall r queue rs s s' out,
    rounds_left = Z.to_nat (max_retry_rounds - r) ->
    retry_rounds rounds_left r queue rs s = Done s' out ->
    exists (n : nat) evs,
      snd out = r + Z.of_nat n /\
      (round_queue_of r queue n = [] \/ max_retry_rounds <= r + Z.of_nat n) /\
      (forall k, (k < n)%nat ->
                 round_queue_of r queue k <> [] /\
                 r + Z.of_nat k < max_retry_rounds) /\
      log s' = log s ++ evs /\
      reads evs = rounds_reads_of r queue n.
Proof.
  induction rounds_left as [|left' IH]; intros r queue rs s s' out Hleft H;
    simpl in H.
  - inversion H; subst. exists O, []. simpl.
    split; [lia|]. split; [right; lia|]. split; [intros k Hk; lia|].
    split; [rewrite app_nil_r; reflexivity|reflexivity].
  - destruct queue as [|x queue].
    + simpl in H. inversion H; subst. exists O, []. simpl.
      split; [lia|]. split; [left; reflexivity|]. split; [intros k Hk; lia|].
      split; [rewrite app_nil_r; reflexivity|reflexivity].
    + rewrite len_cons_nonzero in H.
      assert (Hr : (r <? max_retry_rounds) = true) by (apply Z.ltb_lt; lia).
      rewrite Hr in H. simpl negb in H. simpl andb in H. cbv iota in H.
      apply bind_done in H as (s1 & [q1 rs1] & Hfor & H).
      pose proof Hfor as Hv. apply for_batch_value in Hv.
      inversion Hv; subst q1 rs1. clear Hv.
      apply for_batch_log in Hfor; [|lia].
      destruct Hfor as (evs1 & Hlog1 & Hreads1 & _).
      apply bind_done in H as (s2 & u & Hp & H).
      assert (Hpause : exists evs2, log s2 = log s1 ++ evs2 /\ reads evs2 = []).
      { revert Hp.
        generalize (negb (len (requeued_in r (x :: queue)) =? 0)).
        intros b Hp. destruct b; simpl in Hp; inversion Hp; subst; simpl.
        - eexists. split; reflexivity.
        - exists []. rewrite app_nil_r. split; reflexivity. }
      destruct Hpause as (evs2 & Hlog2 & Hreads2).
      apply IH in H; [|lia].
      destruct H as (n & evs3 & Hn & Hstop & Hrun & Hlog3 & Hreads3).
      exists (S n), (evs1 ++ evs2 ++ evs3).
      split; [lia|].
      simpl app in Hstop, Hrun, Hreads3.
      unfold requeued in Hstop, Hrun, Hreads3.
      destruct (is_final r) eqn:Efin.
      * assert (n = O).
        { destruct n; [reflexivity|]. destruct (Hrun O) as [_ Hlt]; [lia|].
          unfold final_round in Efin. apply negb_true_iff, Z.ltb_ge in Efin.
          lia. }
        subst n. split; [|split; [|split]].
        -- right. unfold final_round in Efin.
           apply negb_true_iff, Z.ltb_ge in Efin. lia.
        -- intros k Hk. assert (k = O) by lia. subst k. simpl.
           split; [discriminate|lia].
        -- rewrite Hlog3, Hlog2, Hlog1, <- !app_assoc. reflexivity.
        -- rewrite !reads_app, Hreads1, Hreads2, Hreads3.
           unfold rounds_reads. simpl. rewrite !app_nil_r. reflexivity.
      * split; [|split; [|split]].
        -- rewrite round_queue_shift.
           destruct Hstop as [Hs|Hs]; [left; exact Hs|right; lia].
        -- intros k Hk. destruct k as [|k].
           ++ simpl. split; [discriminate|lia].
           ++ rewrite round_queue_shift. destruct (Hrun k) as [H1 H2]; [lia|].
              split; [exact H1|lia].
        -- rewrite Hlog3, Hlog2, Hlog1, <- !app_assoc. reflexivity.
        -- rewrite !reads_app, Hreads1, Hreads2, Hreads3, rounds_reads_shift.
           reflexivity.
Qed.

End BatchLog.

(** X24.  The order in which a batch that returns has read its images: round
    after round, and in each round the images of its queue in the order of
    the queue, where the first queue is in the order of [sorted] and the
    queue of a later round holds the failures of the round before it, in
    order.  The rounds are as many as it takes to empty the queue or to
    reach [max_retry_rounds]. *)
Theorem batch_reads_round_by_round
    (output_folder : folder) (delay_seconds : delay)
    (self : ImageTextExtractor) (worlds : Z -> World) (prompt : string)
    (model : option string) (max_retry_rounds : Z)
    (globbed : list string) (skip_existing : bool) (s s' : store)
    (results : list result) :
  let queue0 := first_queue s skip_existing globbed in
  batch_extract_from_folder output_folder delay_seconds self worlds prompt
                            model max_retry_rounds globbed skip_existing s
  = Done s' results ->
  exists (n : nat) evs,
    log s' = log s ++ evs /\
    reads evs = rounds_reads self worlds prompt model 0 queue0 n /\
    (round_queue self worlds prompt model 0 queue0 n = [] \/
     max_retry_rounds <= Z.of_nat n) /\
    (forall k, (k < n)%nat ->
               round_queue self worlds prompt model 0 queue0 k <> [] /\
               Z.of_nat k < max_retry_rounds).
Proof.
  intros queue0. subst queue0. unfold batch_extract_from_folder.
  destruct output_folder as [|e]; [|discriminate].
  destruct (discover globbed) as [|f0 fl] eqn:Ed.
  { intros H. inversion H; subst. exists O, []. rewrite app_nil_r.
    split; [reflexivity|]. split; [reflexivity|].
    split; [|intros k Hk; lia]. left. unfold first_queue. rewrite Ed.
    destruct skip_existing; reflexivity. }
  destruct (first_queue s skip_existing globbed) as [|g0 gl] eqn:Eq.
  { intros H. inversion H; subst. exists O, []. rewrite app_nil_r.
    split; [reflexivity|]. split; [reflexivity|].
    split; [left; reflexivity|intros k Hk; lia]. }
  intros H. apply bind_done in H as (s1 & [[all_results q] R] & Hloop & H).
  apply bind_done in H as (s2 & u & Hsum & H). inversion H; subst s2 results.
  apply retry_rounds_reads in Hloop; [|f_equal; lia].
  destruct Hloop as (n & evs & _ & Hstop & Hrun & Hlog & Hreads).
  assert (Hs : log s' = log s1 ++ [EvWrite summary_file_name]).
  { revert Hsum. unfold _create_summary_report.
    destruct (len all_results =? 0); [discriminate|].
    destruct (token_sum all_results); [|discriminate].
    intros Hsum. inversion Hsum. reflexivity. }
  exists n, (evs ++ [EvWrite summary_file_name]).
  split; [rewrite Hs, Hlog, <- app_assoc; reflexivity|].
  split; [rewrite reads_app, Hreads; apply app_nil_r|].
  split.
  - destruct Hstop as [Hq|Hm]; [left; exact Hq|right; lia].
  - intros k Hk. destruct (Hrun k Hk) as [H1 H2]. split; [exact H1|lia].
Qed.

(** The scenario: three images in round 0, two again in round 1. *)
Lemma batch_reads_round_by_round_witness :
  exists evs,
    log (final_store
           (batch_extract_from_folder Made Pauses default_extractor worlds_scenario
              "Extract all text from this image." None 2
              ["imgs/q1.jpeg"; "imgs/q2.jpeg"; "imgs/q3.jpeg"] true
              empty_store))
    = evs /\
    reads evs
    = [EvRead "imgs/q1.jpeg"; EvRead "imgs/q2.jpeg"; EvRead "imgs/q3.jpeg";
       EvRead "imgs/q2.jpeg"; EvRead "imgs/q3.jpeg"].
Proof.
  destruct (batch_extract_from_folder Made Pauses default_extractor worlds_scenario
              "Extract all text from this image." None 2
              ["imgs/q1.jpeg"; "imgs/q2.jpeg"; "imgs/q3.jpeg"] true
              empty_store) as [s' results|s' e] eqn:Hrun;
    [|vm_compute in Hrun; discriminate Hrun].
  destruct (batch_reads_round_by_round Made Pauses default_extractor
              worlds_scenario
              "Extract all text from this image." None 2
              ["imgs/q1.jpeg"; "imgs/q2.jpeg"; "imgs/q3.jpeg"] true
              empty_store s' results Hrun)
    as (n & evs & Hlog & Hreads & Hstop & Hlive).
  exists evs. split; [exact Hlog|].
  assert (Hn : n = 2%nat).
  { destruct n as [|[|[|n]]].
    - destruct Hstop as [H|H]; [vm_compute in H; discriminate H|lia].
    - destruct Hstop as [H|H]; [vm_compute in H; discriminate H|lia].
    - reflexivity.
    - destruct (Hlive 2%nat) as [_ H]; lia. }
  subst n. rewrite Hreads. vm_compute. reflexivity.
Defined.

(** X25.  In a round of the batch that goes through, the pause between two
    images is taken once after every image but the last: a round over [n]
    images logs [n - 1] such pauses, none of them after the read of the last
    image, and it reads the images in the order of its queue. *)
Theorem round_pauses_between_images
    (delay_seconds : delay) (self : ImageTextExtractor)
    (worlds : Z -> World) (prompt : string)
    (model : option string) (max_retry_rounds retry_round : Z)
    (current_batch : list string) (all_results : list result)
    (s s' : store) (v : list string * list result) :
  Batch.for_batch delay_seconds self worlds prompt model max_retry_rounds retry_round
                  (len current_batch) 1 current_batch ([], all_results) s
  = Done s' v ->
  current_batch <> [] ->
  exists before after,
    log s' = log s ++ before ++ after /\
    reads (before ++ after) = List.map EvRead current_batch /\
    delays (before ++ after) = len current_batch - 1 /\
    reads after = [EvRead (List.last current_batch "")] /\
    delays after = 0.
Proof.
  intros H Hne.
  apply for_batch_log in H; [|lia].
  destruct H as (evs & Hlog & Hreads & Hdelays & Hlast).
  destruct (Hlast Hne) as (before & after & He & Hra & Hda). subst evs.
  exists before, after. split; [exact Hlog|]. split; [exact Hreads|].
  split; [|split; [exact Hra|exact Hda]].
  rewrite Hdelays. destruct current_batch; [contradiction|].
  unfold len. simpl length. lia.
Qed.

Lemma round_pauses_between_images_witness :
  exists s' v evs,
    Batch.for_batch Pauses default_extractor worlds_scenario
      "Extract all text from this image." None 2 0 3 1
      ["imgs/q1.jpeg"; "imgs/q2.jpeg"; "imgs/q3.jpeg"] ([], []) empty_store
    = Done s' v /\
    log s' = evs /\ delays evs = 2.
Proof.
  destruct (Batch.for_batch Pauses default_extractor worlds_scenario
              "Extract all text from this image." None 2 0 3 1
              ["imgs/q1.jpeg"; "imgs/q2.jpeg"; "imgs/q3.jpeg"] ([], [])
              empty_store) as [s' v|s' e] eqn:Hrun;
    [|vm_compute in Hrun; discriminate Hrun].
  destruct (round_pauses_between_images Pauses default_extractor
              worlds_scenario
              "Extract all text from this image." None 2 0
              ["imgs/q1.jpeg"; "imgs/q2.jpeg"; "imgs/q3.jpeg"] [] empty_store
              s' v Hrun)
    as (before & after & Hlog & _ & Hd & _); [discriminate|].
  exists s', v, (before ++ after). split; [reflexivity|].
  split; [exact Hlog|exact Hd].
Defined.

(** ** One image, image_text_extractor.py: after a connection error *)

(** X26.  After a timeout or another connection error on its first request,
    image_text_extractor.py does not repeat the request.  With
    [max_retries] above 1 it pauses [2 ** 1] seconds and goes on to the next
    entry of the list of models, and when there is none the pause is
    followed by the failure; with [max_retries] at most 1 it returns the
    failure at once. *)
Theorem connection_error_moves_on
    (self : ImageTextExtractor) (w : World) (p prompt : string)
    (max_tokens : Z) (retry : bool) (max_retries : Z)
    (model : option string) (b64 m : string) (rest : list string) :
  let req := Extractor.payload prompt max_tokens b64
                               (Mime.get_image_mime_type p) in
  let run := extract_text_from_image self w p prompt max_tokens retry
                                     max_retries model in
  models_to_try self model = m :: rest ->
  read_image w p = inr b64 ->
  Classify.transient_network (post w p 1 (req m)) = true ->
  (1 < max_retries ->
   exists evs,
     fst run = EvRead p :: EvPost p (req m) :: EvSleep 2 :: evs /\
     (rest = [] -> evs = [] /\ success (snd run) = false) /\
     (forall next more,
         rest = next :: more ->
         exists evs', evs = EvPost p (req next) :: evs')) /\
  (max_retries <= 1 ->
   fst run = [EvRead p; EvPost p (req m)] /\ success (snd run) = false).
Proof.
  intros req run Hms Hread Hnet. subst run.
  unfold extract_text_from_image. rewrite Hread, Hms. fold req.
  simpl Extractor.try_models.
  assert (Hone : forall n,
             one_attempt p retry max_retries n 1 (post w p 1 (req m))
             = (if 1 <? max_retries
                then match post w p 1 (req m) with
                     | TimeoutExc etype msg | RequestExc etype msg =>
                         Extractor.Continue 2 (Some (ExcText msg)) (Some etype)
                     | _ => Extractor.Break None None
                     end
                else match post w p 1 (req m) with
                     | TimeoutExc etype msg | RequestExc etype msg =>
                         Extractor.Break (Some (ExcText msg)) (Some etype)
                     | _ => Extractor.Break None None
                     end)).
  { intros n. unfold one_attempt.
    destruct (post w p 1 (req m)) as [status body|et msg|et msg|et msg];
      try discriminate Hnet; destruct (1 <? max_retries); reflexivity. }
  fold req. rewrite Hone. split.
  - intros Hmax. apply Z.ltb_lt in Hmax. rewrite Hmax.
    destruct (post w p 1 (req m)) as [status body|et msg|et msg|et msg];
      try discriminate Hnet.
    + destruct (Extractor.try_models w p prompt max_tokens retry max_retries
                  b64 (Mime.get_image_mime_type p) (len (m :: rest)) rest
                  (1 + 1) (Some (ExcText msg)) (Some et)) as [evs r] eqn:E.
      exists evs. split; [reflexivity|]. split.
      * intros ->. simpl in E. inversion E. split; reflexivity.
      * intros next more ->. simpl in E. fold req in E.
        destruct (one_attempt p retry max_retries _ _ _) in E.
        -- inversion E. eexists. reflexivity.
        -- destruct (Extractor.try_models _ _ _ _ _ _ _ _ _ _ _ _ _) in E.
           inversion E. eexists. reflexivity.
        -- inversion E. eexists. reflexivity.
    + destruct (Extractor.try_models w p prompt max_tokens retry max_retries
                  b64 (Mime.get_image_mime_type p) (len (m :: rest)) rest
                  (1 + 1) (Some (ExcText msg)) (Some et)) as [evs r] eqn:E.
      exists evs. split; [reflexivity|]. split.
      * intros ->. simpl in E. inversion E. split; reflexivity.
      * intros next more ->. simpl in E. fold req in E.
        destruct (one_attempt p retry max_retries _ _ _) in E.
        -- inversion E. eexists. reflexivity.
        -- destruct (Extractor.try_models _ _ _ _ _ _ _ _ _ _ _ _ _) in E.
           inversion E. eexists. reflexivity.
        -- inversion E. eexists. reflexivity.
  - intros Hmax. assert (E : (1 <? max_retries) = false)
      by (apply Z.ltb_ge; lia).
    rewrite E.
    destruct (post w p 1 (req m)) as [status body|et msg|et msg|et msg];
      try discriminate Hnet; split; reflexivity.
Qed.

(** The extractor as [__init__] builds it, and a service that times out. *)
Lemma connection_error_moves_on_witness :
  extract_text_from_image default_extractor
    {| read_image := fun _ => inr "aW1hZ2U=";
       post := fun _ _ _ => TimeoutExc "ReadTimeout" "timed out" |}
    "imgs/q1.jpeg" "Extract all text from this image." 4000 true 3 None
  = ([EvRead "imgs/q1.jpeg";
      EvPost "imgs/q1.jpeg"
             (Extractor.payload "Extract all text from this image." 4000
                                "aW1hZ2U=" "image/jpeg"
                                "google/gemini-2.0-flash-001");
      EvSleep 2],
     Failure "imgs/q1.jpeg" (Some (ExcText "timed out")) (Some "ReadTimeout")).
Proof.
  destruct (connection_error_moves_on default_extractor
              {| read_image := fun _ => inr "aW1hZ2U=";
                 post := fun _ _ _ => TimeoutExc "ReadTimeout" "timed out" |}
              "imgs/q1.jpeg" "Extract all text from this image." 4000 true 3
              None "aW1hZ2U=" "google/gemini-2.0-flash-001" []
              eq_refl eq_refl eq_refl) as [H _].
  assert (H3 : 1 < 3) by lia.
  destruct (H H3) as (evs & Hlog & Hend & _).
  destruct (Hend eq_refl) as [-> _].
  reflexivity.
Defined.

(** ** extract_images.py: what the text files hold *)

Lemma output_filename_inj p q :
  ImagesFolder.output_filename p = ImagesFolder.output_filename q ->
  PyPath.stem p = PyPath.stem q.
Proof.
  unfold ImagesFolder.output_filename. intros H.
  apply append_tail_eq in H; [tauto|reflexivity].
Qed.

Section ImagesFolderTexts.
Variable w : World.
Variable model : string.
Variable max_retries : Z.
Variable strftime : Z -> string.

Local Abbreviation extract_one :=
  (fun p => ExtractImages.extract_text_from_image w p model max_retries).
Local Abbreviation process_image :=
  (ImagesFolder.process_image w model max_retries strftime).
Local Abbreviation for_images :=
  (ImagesFolder.for_images w model max_retries strftime).
Local Abbreviation saved := (saved_text model strftime).

Lemma process_image_texts idx p s s' :
  process_image idx p s = ImagesFolder.Returned s' tt ->
  (exists text,
      snd (extract_one p) = (Some text, None) /\
      ImagesFolder.texts s'
      = <[ImagesFolder.output_filename p := saved idx 0 p text]>
          (ImagesFolder.texts s)) \/
  ((forall text, snd (extract_one p) <> (Some text, None)) /\
   ImagesFolder.texts s' = ImagesFolder.texts s).
Proof.
  unfold ImagesFolder.process_image, saved_text.
  destruct (extract_one p) as [evs [[text|] [e|]]]; simpl; intros H;
    inversion H; subst; simpl.
  - right. split; [intros t E; discriminate E|reflexivity].
  - left. exists text. split; [reflexivity|].
    replace (idx + Z.of_nat 0) with idx by lia. reflexivity.
  - right. split; [intros t E; discriminate E|reflexivity].
Qed.

Lemma for_images_elsewhere image_files :
  forall idx s s' g,
    for_images idx image_files s = ImagesFolder.Returned s' tt ->
    (forall (i : nat) f text,
        image_files !! i = Some f ->
        snd (extract_one f) = (Some text, None) ->
        g <> ImagesFolder.output_filename f) ->
    ImagesFolder.texts s' !! g = ImagesFolder.texts s !! g.
Proof.
  induction image_files as [|f files IH]; intros idx s s' g H Hg; simpl in H.
  - inversion H. reflexivity.
  - destruct (process_image idx f s) as [s1 []|s1 e] eqn:E1; [|discriminate H].
    rewrite (IH _ _ _ _ H)
      by (intros i f' text Hi; apply (Hg (S i) f' text Hi)).
    apply process_image_texts in E1 as [(text & Hr & Ht)|[_ Ht]]; rewrite Ht.
    + apply lookup_insert_ne. intros E. apply (Hg O f text eq_refl Hr).
      symmetry. exact E.
    + reflexivity.
Qed.

Lemma for_images_written image_files :
  forall idx s s' (i : nat) f text,
    for_images idx image_files s = ImagesFolder.Returned s' tt ->
    image_files !! i = Some f ->
    snd (extract_one f) = (Some text, None) ->
    (forall (j : nat) g t,
        (i < j)%nat -> image_files !! j = Some g ->
        snd (extract_one g) = (Some t, None) ->
        PyPath.stem g <> PyPath.stem f) ->
    ImagesFolder.texts s' !! ImagesFolder.output_filename f
    = Some (saved idx i f text).
Proof.
  induction image_files as [|f0 files IH];
    intros idx s s' i f text H Hi Hr Hlast; [discriminate Hi|].
  simpl in H.
  destruct (process_image idx f0 s) as [s1 []|s1 e] eqn:E1; [|discriminate H].
  destruct i as [|i].
  - inversion Hi; subst f0.
    rewrite (for_images_elsewhere _ _ _ _ _ H).
    + apply process_image_texts in E1 as [(text' & Hr' & Ht)|[Hno _]].
      * rewrite Ht, lookup_insert_eq. congruence.
      * exfalso. exact (Hno text Hr).
    + intros j g t Hj Hg E. apply output_filename_inj in E.
      apply (Hlast (S j) g t); [lia|exact Hj|exact Hg|]. symmetry. exact E.
  - simpl in Hi.
    assert (Hs : saved idx (S i) f text = saved (idx + 1) i f text).
    { unfold saved_text.
      replace (idx + Z.of_nat (S i)) with (idx + 1 + Z.of_nat i) by lia.
      reflexivity. }
    rewrite Hs. apply (IH _ _ _ _ _ _ H Hi Hr).
    intros j g t Hj Hg Hrg. apply (Hlast (S j) g t); [lia|exact Hg|exact Hrg].
Qed.

End ImagesFolderTexts.

(** X27.  What [process_images_folder] leaves in the output folder: for
    every image whose extraction returned a text, the text file named after
    its stem holds the header with the name of the image, the model and the
    time, and then the text, unless a later image in natural order has the
    same stem and a text as well, which then overwrites it; the folder globs
    several extensions at once, so [q1.png] and [q1.jpg] share a text file.
    No other file of the output folder is touched. *)
Theorem process_images_folder_texts
    (w : World) (model : string) (max_retries : Z) (strftime : Z -> string)
    (globbed : list string) (s s' : ImagesFolder.state) (printed : bool) :
  let answer := fun f =>
    snd (ExtractImages.extract_text_from_image w f model max_retries) in
  ImagesFolder.process_images_folder w model max_retries strftime globbed s
  = ImagesFolder.Returned s' printed ->
  exists image_files,
    NaturalSort.natural_sorted globbed = Ret image_files /\
    (forall (i : nat) f text,
        image_files !! i = Some f ->
        answer f = (Some text, None) ->
        (forall (j : nat) g t,
            (i < j)%nat -> image_files !! j = Some g ->
            answer g = (Some t, None) ->
            PyPath.stem g <> PyPath.stem f) ->
        ImagesFolder.texts s' !! ImagesFolder.output_filename f
        = Some (saved_text model strftime 1 i f text)) /\
    (forall g,
        (forall (i : nat) f text,
            image_files !! i = Some f -> answer f = (Some text, None) ->
            g <> ImagesFolder.output_filename f) ->
        ImagesFolder.texts s' !! g = ImagesFolder.texts s !! g).
Proof.
  intros answer. subst answer. unfold ImagesFolder.process_images_folder.
  destruct (NaturalSort.natural_sorted globbed) as [files|e]; [|discriminate].
  destruct files as [|f0 fl].
  - intros H. inversion H; subst. exists []. split; [reflexivity|]. split.
    + intros i f text Hi. discriminate Hi.
    + intros g _. reflexivity.
  - destruct (ImagesFolder.for_images w model max_retries strftime 1
                (f0 :: fl) _) as [s1 []|s1 e] eqn:E; [|discriminate].
    intros H. inversion H; subst s1 printed. clear H.
    exists (f0 :: fl). split; [reflexivity|]. split.
    + intros i f text Hi Hr Hlast.
      apply (for_images_written w model max_retries strftime _ _ _ _ _ _ _
               E Hi Hr Hlast).
    + intros g Hg.
      apply (for_images_elsewhere w model max_retries strftime _ _ _ _ _ E Hg).
Qed.

Lemma process_images_folder_texts_witness :
  exists s',
    ImagesFolder.process_images_folder world_q1_only "model-a" 1
      (fun _ => "2025-01-01 10:00:00")
      ["imgs/q10.jpeg"; "imgs/q1.jpeg"] empty_folder
    = ImagesFolder.Returned s' true /\
    ImagesFolder.texts s' !! "q1_extracted.txt"
    = Some (ImagesFolder.save_extracted_text "Question 1"
              [("Image", "q1.jpeg"); ("Model", "model-a");
               ("Timestamp", "2025-01-01 10:00:00")]) /\
    ImagesFolder.texts s' !! "q10_extracted.txt" = None.
Proof.
  destruct (ImagesFolder.process_images_folder world_q1_only "model-a" 1
              (fun _ => "2025-01-01 10:00:00")
              ["imgs/q10.jpeg"; "imgs/q1.jpeg"] empty_folder)
    as [s' printed|s' e] eqn:Hrun; [|vm_compute in Hrun; discriminate Hrun].
  destruct (process_images_folder_texts world_q1_only "model-a" 1
              (fun _ => "2025-01-01 10:00:00")
              ["imgs/q10.jpeg"; "imgs/q1.jpeg"] empty_folder s' printed Hrun)
    as (files & Hsort & Hwritten & Helse).
  vm_compute in Hsort. inversion Hsort; subst files. clear Hsort.
  exists s'. split.
  - f_equal. vm_compute in Hrun. inversion Hrun. reflexivity.
  - split.
    + apply (Hwritten O "imgs/q1.jpeg" "Question 1" eq_refl eq_refl).
      intros j g t Hj Hg Hr. destruct j as [|[|j]]; [lia| |discriminate Hg].
      inversion Hg; subst g. vm_compute in Hr. discriminate Hr.
    + rewrite Helse; [reflexivity|].
      intros i f text Hi Hr.
      destruct i as [|[|i]]; simpl in Hi; inversion Hi; subst f.
      * intros E. vm_compute in E. discriminate E.
      * vm_compute in Hr. discriminate Hr.
Defined.

(** ** The batch: a completion without a text, and a delay that is refused *)

(** X28.  With the output folder made and at least one round, when the
    response for the first image of the queue is a success whose content is
    [null], the batch raises TypeError, whatever the delay: the text file of the image holds the four lines of its
    header and no text, nothing else has been done, no report is written,
    and a later run with [skip_existing] takes the image for extracted. *)
Theorem null_content_aborts
    (delay_seconds : delay) (self : ImageTextExtractor)
    (worlds : Z -> World) (prompt : string)
    (model : option string) (max_retry_rounds : Z)
    (globbed : list string) (skip_existing : bool) (s : store)
    (j : string) (rest : list string) (m : option string)
    (u : option usage) (a : Z) :
  first_queue s skip_existing globbed = j :: rest ->
  1 <= max_retry_rounds ->
  res self worlds prompt model 0 j = Success j None m u a ->
  exists s',
    batch_extract_from_folder Made delay_seconds self worlds prompt model
                              max_retry_rounds globbed skip_existing s
    = Raised s' TypeError /\
    fs s' !! output_file_name j
    = Some [LImage (PyPath.name j); LModel m; LRetryRound 1; LRule] /\
    log s'
    = log s ++ fst (Batch.extract self worlds prompt model 0 j)
        ++ [EvWrite (output_file_name j)] /\
    ~ In j (first_queue s' true globbed).
Proof.
  intros Hq Hmax Hres. unfold batch_extract_from_folder.
  destruct (discover globbed) as [|f0 fl] eqn:Ed.
  { exfalso. revert Hq. unfold first_queue. rewrite Ed.
    destruct skip_existing; discriminate. }
  rewrite Hq.
  destruct (Z.to_nat max_retry_rounds) as [|n] eqn:En; [lia|].
  unfold res in Hres.
  destruct (Batch.extract self worlds prompt model 0 j) as [evs r] eqn:Ee.
  simpl in Hres. subst r.
  eexists. split; [|split; [|split]].
  - unfold bind. simpl Batch.retry_rounds.
    replace (0 <? max_retry_rounds) with true by (symmetry; apply Z.ltb_lt; lia).
    unfold bind. rewrite Ee.
    unfold bind, emit, save_success, write_then_raise.
    simpl. reflexivity.
  - simpl. apply lookup_insert_eq.
  - simpl. rewrite <- app_assoc. reflexivity.
  - intros Hin. unfold first_queue in Hin.
    apply files_to_process_spec in Hin as [_ Hnone]. simpl in Hnone.
    rewrite lookup_insert_eq in Hnone. discriminate Hnone.
Qed.

Lemma null_content_aborts_witness :
  exists s',
    batch_extract_from_folder Made Pauses default_extractor
      (fun _ => world_null_content)
      "Extract all text from this image." None 3
      ["imgs/q1.jpeg"; "imgs/q2.jpeg"] true empty_store
    = Raised s' TypeError /\
    fs s' !! "q1_extracted.txt"
    = Some [LImage "q1.jpeg"; LModel (Some "model-b"); LRetryRound 1; LRule] /\
    reads (log s') = [EvRead "imgs/q1.jpeg"].
Proof.
  destruct (null_content_aborts Pauses default_extractor
              (fun _ => world_null_content)
              "Extract all text from this image." None 3
              ["imgs/q1.jpeg"; "imgs/q2.jpeg"] true
              empty_store "imgs/q1.jpeg" ["imgs/q2.jpeg"] (Some "model-b")
              (Some {| total_tokens := JInt 57 |}) 1)
    as (s' & Hrun & Hfile & Hlog & _).
  - vm_compute. reflexivity.
  - lia.
  - reflexivity.
  - exists s'. split; [exact Hrun|]. split.
    + change "q1_extracted.txt" with (output_file_name "imgs/q1.jpeg").
      rewrite Hfile. reflexivity.
    + rewrite Hlog. reflexivity.
Defined.

Lemma own_events_no_write p evs f :
  Forall (own_event p) evs -> ~ In (EvWrite f) evs.
Proof.
  intros H Hin. rewrite List.Forall_forall in H.
  destruct (H _ Hin) as [E|[[req E]|[d E]]]; discriminate E.
Qed.

(** X29.  With the output folder made and at least one round, when
    [time.sleep] refuses the configured delay and the first round has at
    least two images, the first of which has a complete success or a
    failure, the batch raises the
    exception of [time.sleep] after the first image: that image has been
    read, once, and its result saved; no other image is read and no report
    is written. *)
Theorem refused_delay_aborts
    (e : pyexn) (self : ImageTextExtractor)
    (worlds : Z -> World) (prompt : string)
    (model : option string) (max_retry_rounds : Z)
    (globbed : list string) (skip_existing : bool) (s : store)
    (j next : string) (rest : list string) :
  first_queue s skip_existing globbed = j :: next :: rest ->
  1 <= max_retry_rounds ->
  complete (res self worlds prompt model 0 j) ->
  exists s' evs,
    batch_extract_from_folder Made (Refused e) self worlds prompt model
                              max_retry_rounds globbed skip_existing s
    = Raised s' e /\
    log s' = log s ++ evs /\
    reads evs = [EvRead j] /\
    ~ In (EvWrite summary_file_name) evs /\
    (success (res self worlds prompt model 0 j) = true ->
     is_Some (fs s' !! output_file_name j)).
Proof.
  intros Hq Hmax Hres. unfold batch_extract_from_folder.
  destruct (discover globbed) as [|f0 fl] eqn:Ed.
  { exfalso. revert Hq. unfold first_queue. rewrite Ed.
    destruct skip_existing; discriminate. }
  rewrite Hq.
  destruct (Z.to_nat max_retry_rounds) as [|n] eqn:En; [lia|].
  unfold res in *.
  destruct (extract_log self worlds prompt model 0 j) as [Hreads _].
  pose proof (extract_shape self (worlds 0) j prompt 4000 true 3 model)
    as [Hown _].
  fold (Batch.extract self worlds prompt model 0 j) in Hown.
  destruct (Batch.extract self worlds prompt model 0 j) as [evs r] eqn:Ee.
  simpl in Hres, Hreads, Hown.
  assert (Hlen : (1 <? len (j :: next :: rest)) = true).
  { apply Z.ltb_lt. unfold len. simpl length. lia. }
  assert (Hnw : forall f, ~ In (EvWrite f) evs)
    by (intros f; eapply own_events_no_write; exact Hown).
  unfold bind. simpl Batch.retry_rounds.
  replace (0 <? max_retry_rounds) with true by (symmetry; apply Z.ltb_lt; lia).
  unfold bind. rewrite Ee. rewrite Hlen.
  unfold bind, emit, save_success, save_error, write_file, write_then_raise,
    sleep_delay, ret.
  destruct r as [ip [text|] mo [u|] a|ip er t]; simpl in Hres;
    try contradiction; simpl.
  - eexists. exists (evs ++ [EvWrite (output_file_name j)]).
    split; [reflexivity|]. split; [simpl; rewrite <- app_assoc; reflexivity|].
    split; [rewrite reads_app, Hreads; reflexivity|]. split.
    + intros Hin. apply in_app_or in Hin as [Hin|[Hin|[]]].
      * exact (Hnw _ Hin).
      * inversion Hin as [E]. symmetry in E. revert E.
        apply summary_is_not_output.
    + intros _. simpl. rewrite lookup_insert_eq. eexists. reflexivity.
  - destruct (0 <? max_retry_rounds - 1); simpl.
    + eexists. exists evs.
      split; [reflexivity|]. split; [reflexivity|].
      split; [exact Hreads|]. split; [apply Hnw|]. intros H. discriminate H.
    + eexists. exists (evs ++ [EvWrite (error_file_name j)]).
      split; [reflexivity|]. split; [simpl; rewrite <- app_assoc; reflexivity|].
      split; [rewrite reads_app, Hreads; reflexivity|]. split.
      * intros Hin. apply in_app_or in Hin as [Hin|[Hin|[]]].
        -- exact (Hnw _ Hin).
        -- inversion Hin as [E]. symmetry in E. revert E.
           apply summary_is_not_error.
      * intros H. discriminate H.
Qed.

(** A negative delay: [time.sleep] raises ValueError. *)
Lemma refused_delay_aborts_witness :
  exists s',
    batch_extract_from_folder Made (Refused ValueError) default_extractor
      (fun _ => world_q1_only)
      "Extract all text from this image." None 3
      ["imgs/q1.jpeg"; "imgs/q2.jpeg"] true empty_store
    = Raised s' ValueError /\
    reads (log s') = [EvRead "imgs/q1.jpeg"] /\
    is_Some (fs s' !! "q1_extracted.txt").
Proof.
  assert (Hmax : 1 <= 3) by lia.
  destruct (refused_delay_aborts ValueError default_extractor
              (fun _ => world_q1_only)
              "Extract all text from this image." None 3
              ["imgs/q1.jpeg"; "imgs/q2.jpeg"] true empty_store
              "imgs/q1.jpeg" "imgs/q2.jpeg" [] eq_refl Hmax
              (world_q1_only_complete 0 "imgs/q1.jpeg"))
    as (s' & evs & Hrun & Hlog & Hreads & _ & Hfile).
  exists s'. split; [exact Hrun|]. split.
  - rewrite Hlog. exact Hreads.
  - apply Hfile. reflexivity.
Defined.
